(** * Kit, Python AST code review: a shallow embedding of
      scripts/ast-review-python.py and the properties of its rule engine.

    The script finds the project root, reads the manifest, collects the
    Python files, parses each of them with Python's [ast] module, runs a
    fixed battery of rules over the tree and over the raw source lines, pools
    the findings, sorts them and derives a verdict.  The development follows
    that layout:

    - [PyAst]   : the fragment of Python's abstract syntax the rules inspect,
                  [ast.iter_child_nodes] and the breadth-first [ast.walk];
    - [PyStr]   : text as the bytes of its UTF-8 encoding, and the string
                  primitives the rules call ([in], [startswith], [strip]
                  with the blanks of Unicode, [readlines], [len], decimal
                  formatting);
    - [Re]      : the regular expressions of the secret table, with a
                  derivative-based [search], the blank class and [re.I];
    - [Review]  : [Finding], the eight rules, [analyze_file], [main] and the
                  exit status of the script, exceptions included;
    - [Spec]    : what each rule is expected to report, node by node and
                  line by line, and what becomes of each file;
    - [Demo]    : a few trees and a small project;
    - [RunSpec] : what each file contributes to a run;
    - [PyText], [Setup] : more of the string primitives, paths and
                  dictionaries; the project root, the manifest reader, the
                  command line and the file collector;
    - [Samples] : more sample inputs;
    - [WalkFacts], [ReFacts], [RuleFacts], [SortFacts], [EngineFacts] :
                  the traversal, the matcher, the rules, the sort, the loop;
    - [RunClaims], [RuleClaims] : the properties of the run and of the rules;
    - [Runs]    : the engine evaluated on the samples;
    - [RunFacts], [ExceptFacts], [SetupFacts], [TextFacts], [ManifestFacts] :
                  invariants of a run, the handler rules, the collaborators
                  of the engine, blanks, the manifest reader. *)

From Stdlib Require Import List String Ascii Bool Arith PeanoNat PArith ZArith Lia.
From Stdlib Require Import Permutation Sorted ListSet DecimalString.
From Stdlib Require Import RelationClasses OrderedTypeEx.
Import ListNotations.
Open Scope string_scope.
Open Scope list_scope.
Open Scope nat_scope.

Set Implicit Arguments.
Set Warnings "-register-all".


(* ------------------------------------------------------------------------- *)
(** ** Python abstract syntax *)

Module PyAst.

(** Line numbers are 1-based in every tree [ast.parse] returns, hence
    [positive]. *)
Definition lineno := positive.

Inductive operator : Type :=
| Add | Sub | Mult | Div | Mod | Pow | BitOr | BitAnd.

(** Expressions.  Every constructor is the [ast] class of the same name, with
    the fields in the order of the class's [_fields]; the trailing argument is
    the node's [lineno] attribute.  The [ctx] field of [Name] and [Attribute]
    and the operator object of [BinOp] are childless nodes that no rule
    matches, and are left out of the traversal. *)
Inductive expr : Type :=
| Constant (lineno : lineno)
| Name (id : string) (lineno : lineno)
| Attribute (value : expr) (attr : string) (lineno : lineno)
| Call (func : expr) (args : list expr) (keywords : list keyword)
       (lineno : lineno)
| JoinedStr (values : list expr) (lineno : lineno)
| FormattedValue (value : expr) (lineno : lineno)
| BinOp (left : expr) (op : operator) (right : expr) (lineno : lineno)
| Starred (value : expr) (lineno : lineno)
| Tuple (elts : list expr) (lineno : lineno)
with keyword : Type :=
| Keyword (arg : option string) (value : expr).

Record arg : Type := Arg { arg_name : string; annotation : option expr }.

Record arguments : Type := Arguments { args_args : list arg; defaults : list expr }.

Inductive stmt : Type :=
| FunctionDef (name : string) (args : arguments) (body : list stmt)
              (decorator_list : list expr) (returns : option expr)
              (lineno : lineno)
| AsyncFunctionDef (name : string) (args : arguments) (body : list stmt)
                   (decorator_list : list expr) (returns : option expr)
                   (lineno : lineno)
| ClassDef (name : string) (bases : list expr) (keywords : list keyword)
           (body : list stmt) (decorator_list : list expr) (lineno : lineno)
| Return (value : option expr) (lineno : lineno)
| Assign (targets : list expr) (value : expr) (lineno : lineno)
| Expr (value : expr) (lineno : lineno)
| If (test : expr) (body orelse : list stmt) (lineno : lineno)
| While (test : expr) (body orelse : list stmt) (lineno : lineno)
| Try (body : list stmt) (handlers : list excepthandler)
      (orelse finalbody : list stmt) (lineno : lineno)
| Pass (lineno : lineno)
with excepthandler : Type :=
| ExceptHandler (type : option expr) (name : option string)
                (body : list stmt) (lineno : lineno).

(** [ast.Module] ([Module] itself is a vernacular word). *)
Inductive ast_module : Type :=
| AstModule (body : list stmt).

(** [ast.AST]: the walk is over nodes of every class. *)
Inductive node : Type :=
| NMod (m : ast_module)
| NStmt (s : stmt)
| NExpr (e : expr)
| NHandler (h : excepthandler)
| NKeyword (k : keyword)
| NArguments (a : arguments)
| NArg (a : arg).

Definition opt_expr (o : option expr) : list node :=
  match o with Some e => [NExpr e] | None => [] end.

(** [ast.iter_child_nodes]: the node-valued fields in [_fields] order, list
    fields flattened in place, [None] fields skipped. *)
Definition iter_child_nodes (n : node) : list node :=
  match n with
  | NMod (AstModule body) => map NStmt body
  | NStmt s =>
      match s with
      | FunctionDef _ a body decorator_list returns _
      | AsyncFunctionDef _ a body decorator_list returns _ =>
          NArguments a :: map NStmt body ++ map NExpr decorator_list
            ++ opt_expr returns
      | ClassDef _ bases kws body decorator_list _ =>
          map NExpr bases ++ map NKeyword kws ++ map NStmt body
            ++ map NExpr decorator_list
      | Return value _ => opt_expr value
      | Assign targets value _ => map NExpr targets ++ [NExpr value]
      | Expr value _ => [NExpr value]
      | If test body orelse _
      | While test body orelse _ =>
          NExpr test :: map NStmt body ++ map NStmt orelse
      | Try body handlers orelse finalbody _ =>
          map NStmt body ++ map NHandler handlers ++ map NStmt orelse
            ++ map NStmt finalbody
      | Pass _ => []
      end
  | NExpr e =>
      match e with
      | Constant _ | Name _ _ => []
      | Attribute value _ _ => [NExpr value]
      | Call func args kws _ =>
          NExpr func :: map NExpr args ++ map NKeyword kws
      | JoinedStr values _ => map NExpr values
      | FormattedValue value _ => [NExpr value]
      | BinOp l _ r _ => [NExpr l; NExpr r]
      | Starred value _ => [NExpr value]
      | Tuple elts _ => map NExpr elts
      end
  | NHandler (ExceptHandler type _ body _) => opt_expr type ++ map NStmt body
  | NKeyword (Keyword _ value) => [NExpr value]
  | NArguments (Arguments args defaults) => map NArg args ++ map NExpr defaults
  | NArg (Arg _ annotation) => opt_expr annotation
  end.

(** The nodes of a tree in document order (depth first, parent before
    children): the reference enumeration against which [walk] is checked. *)
Fixpoint expr_nodes (e : expr) : list node :=
  NExpr e ::
  match e with
  | Constant _ | Name _ _ => []
  | Attribute value _ _ => expr_nodes value
  | Call func args kws _ =>
      expr_nodes func ++ flat_map expr_nodes args ++ flat_map keyword_nodes kws
  | JoinedStr values _ => flat_map expr_nodes values
  | FormattedValue value _ => expr_nodes value
  | BinOp l _ r _ => expr_nodes l ++ expr_nodes r
  | Starred value _ => expr_nodes value
  | Tuple elts _ => flat_map expr_nodes elts
  end
with keyword_nodes (k : keyword) : list node :=
  NKeyword k :: match k with Keyword _ value => expr_nodes value end.

Definition opt_expr_nodes (o : option expr) : list node :=
  match o with Some e => expr_nodes e | None => [] end.

Definition arg_nodes (a : arg) : list node :=
  NArg a :: opt_expr_nodes (annotation a).

Definition arguments_nodes (a : arguments) : list node :=
  NArguments a :: flat_map arg_nodes (args_args a)
    ++ flat_map expr_nodes (defaults a).

Fixpoint stmt_nodes (s : stmt) : list node :=
  NStmt s ::
  match s with
  | FunctionDef _ a body decorator_list returns _
  | AsyncFunctionDef _ a body decorator_list returns _ =>
      arguments_nodes a ++ flat_map stmt_nodes body
        ++ flat_map expr_nodes decorator_list ++ opt_expr_nodes returns
  | ClassDef _ bases kws body decorator_list _ =>
      flat_map expr_nodes bases ++ flat_map keyword_nodes kws
        ++ flat_map stmt_nodes body ++ flat_map expr_nodes decorator_list
  | Return value _ => opt_expr_nodes value
  | Assign targets value _ => flat_map expr_nodes targets ++ expr_nodes value
  | Expr value _ => expr_nodes value
  | If test body orelse _
  | While test body orelse _ =>
      expr_nodes test ++ flat_map stmt_nodes body ++ flat_map stmt_nodes orelse
  | Try body handlers orelse finalbody _ =>
      flat_map stmt_nodes body ++ flat_map handler_nodes handlers
        ++ flat_map stmt_nodes orelse ++ flat_map stmt_nodes finalbody
  | Pass _ => []
  end
with handler_nodes (h : excepthandler) : list node :=
  NHandler h ::
  match h with
  | ExceptHandler type _ body _ => opt_expr_nodes type ++ flat_map stmt_nodes body
  end.

Definition descendants (n : node) : list node :=
  match n with
  | NMod (AstModule body) => n :: flat_map stmt_nodes body
  | NStmt s => stmt_nodes s
  | NExpr e => expr_nodes e
  | NHandler h => handler_nodes h
  | NKeyword k => keyword_nodes k
  | NArguments a => arguments_nodes a
  | NArg a => arg_nodes a
  end.

(** [ast.walk]: a queue seeded with the root; each step pops the left end,
    pushes the popped node's children on the right end and yields the node.
    The loop ends when the queue is empty; [fuel] bounds the number of
    iterations. *)
Fixpoint walk_queue (fuel : nat) (todo : list node) : list node :=
  match fuel with
  | O => []
  | S fuel' =>
      match todo with
      | [] => []
      | node :: rest => node :: walk_queue fuel' (rest ++ iter_child_nodes node)
      end
  end.

Definition walk (tree : node) : list node :=
  walk_queue (List.length (descendants tree)) [tree].

(** Level order, stated without a queue: a level, then the level made of the
    children of its nodes, for at most [depth] levels. *)
Fixpoint level_order (depth : nat) (level : list node) : list node :=
  match depth with
  | O => []
  | S depth' =>
      level ++ level_order depth' (flat_map iter_child_nodes level)
  end.

(** The nodes of a tree by increasing depth, left to right within a depth. *)
Definition breadth_first (tree : node) : list node :=
  level_order (List.length (descendants tree)) [tree].

End PyAst.

(* ------------------------------------------------------------------------- *)
(** ** String primitives *)

Module PyStr.

(** [s.startswith(p)]. *)
Definition startswith (s p : string) : bool := String.prefix p s.

(** [sub in s]: [sub] occurs somewhere in [s]. *)
Fixpoint contains (sub s : string) : bool :=
  String.prefix sub s ||
  match s with
  | EmptyString => false
  | String _ s' => contains sub s'
  end.

(** Text.  A Python [str] is held as the bytes of its UTF-8 encoding, so
    that the literals of the script read here as they do there.  Equality,
    concatenation, [in], [startswith], slicing at an index that [find]
    returned and the order of two texts are the same on the encodings as on
    the code points.  What looks at single characters goes through [chr]:
    the blanks of [strip], the blank class and the case folding of the
    regular expressions, and [len]. *)

(** [chr(cp)]: the encoding of the code point [cp]. *)
Definition chr (cp : N) : string :=
  let byte (n : N) := ascii_of_N n in
  let tail (n : N) := byte (128 + n mod 64)%N in
  if (cp <? 128)%N then String (byte cp) EmptyString
  else if (cp <? 2048)%N then
    String (byte (192 + cp / 64)%N) (String (tail cp) EmptyString)
  else if (cp <? 65536)%N then
    String (byte (224 + cp / 4096)%N)
      (String (tail (cp / 64)%N) (String (tail cp) EmptyString))
  else
    String (byte (240 + cp / 262144)%N)
      (String (tail (cp / 4096)%N)
         (String (tail (cp / 64)%N) (String (tail cp) EmptyString))).

(** The code points for which [str.isspace] holds; they are the ones
    [str.strip] removes and the ones the class [\s] of [re] takes: TAB, LF,
    VT, FF, CR, FS, GS, RS, US, SPACE, NEL (U+0085), NO-BREAK SPACE (U+00A0),
    U+1680, U+2000 to U+200A, U+2028, U+2029, U+202F, U+205F, U+3000. *)
Definition WHITESPACE : list N :=
  [ 9; 10; 11; 12; 13; 28; 29; 30; 31; 32; 133; 160; 5760;
    8192; 8193; 8194; 8195; 8196; 8197; 8198; 8199; 8200; 8201; 8202;
    8232; 8233; 8239; 8287; 12288 ]%N.

(** [s] without its prefix [p], when it starts with [p]. *)
Fixpoint strip_prefix (p s : string) : option string :=
  match p with
  | EmptyString => Some s
  | String a p' =>
      match s with
      | EmptyString => None
      | String b s' => if Ascii.eqb a b then strip_prefix p' s' else None
      end
  end.

Fixpoint first_some (A B : Type) (f : A -> option B) (l : list A)
  : option B :=
  match l with
  | [] => None
  | x :: l' => match f x with Some y => Some y | None => first_some f l' end
  end.

(** [s] without its first character, when that character is a blank. *)
Definition skip_space (s : string) : option string :=
  first_some (fun cp => strip_prefix (chr cp) s) WHITESPACE.

(** [s.lstrip()]: every turn removes one blank; [fuel] bounds the turns, and
    the length of [s] is enough of it. *)
Fixpoint lstrip_fuel (fuel : nat) (s : string) : string :=
  match fuel with
  | O => s
  | S fuel' =>
      match skip_space s with
      | Some s' => lstrip_fuel fuel' s'
      | None => s
      end
  end.

Definition lstrip (s : string) : string := lstrip_fuel (String.length s) s.

(** [s.rstrip()]: nothing is left of a text made of blanks only; any other
    text keeps its first byte, followed by what is left of the rest. *)
Fixpoint rstrip (s : string) : string :=
  match s with
  | EmptyString => EmptyString
  | String c s' =>
      match lstrip s with
      | EmptyString => EmptyString
      | String _ _ => String c (rstrip s')
      end
  end.

(** [s.strip()]. *)
Definition strip (s : string) : string := rstrip (lstrip s).

(** [len(s)], the number of code points: every byte but the continuation
    bytes ([0x80] to [0xBF]) starts one. *)
Definition continuation (c : ascii) : bool :=
  let n := nat_of_ascii c in (128 <=? n) && (n <=? 191).

Fixpoint len (s : string) : nat :=
  match s with
  | EmptyString => O
  | String c s' => (if continuation c then 0 else 1) + len s'
  end.

Definition newline : ascii := ascii_of_nat 10.

(** [f.readlines()] on a text: every line keeps its terminating newline; a
    last line without one is kept too. *)
Fixpoint splitlines_from (cur : string) (s : string) : list string :=
  match s with
  | EmptyString =>
      match cur with EmptyString => [] | _ => [cur] end
  | String c s' =>
      if Ascii.eqb c newline
      then (cur ++ String c EmptyString)%string :: splitlines_from EmptyString s'
      else splitlines_from (cur ++ String c EmptyString)%string s'
  end.

Definition splitlines (s : string) : list string :=
  splitlines_from EmptyString s.

(** [str(n)] for a non-negative integer, as interpolated by an f-string. *)
Definition str_of_nat (n : nat) : string :=
  NilEmpty.string_of_uint (Nat.to_uint n).

(** [enumerate(l, 1)]. *)
Fixpoint enumerate_from (A : Type) (i : positive) (l : list A)
  : list (positive * A) :=
  match l with
  | [] => []
  | x :: l' => (i, x) :: enumerate_from (Pos.succ i) l'
  end.

End PyStr.

(* ------------------------------------------------------------------------- *)
(** ** Regular expressions of the secret table *)

Module Re.

Inductive regex : Type :=
| Void
| Eps
| Chr (p : ascii -> bool)
| Cat (r s : regex)
| Alt (r s : regex)
| Star (r : regex).

Fixpoint nullable (r : regex) : bool :=
  match r with
  | Void => false
  | Eps => true
  | Chr _ => false
  | Cat r s => nullable r && nullable s
  | Alt r s => nullable r || nullable s
  | Star _ => true
  end.

Definition cat (r s : regex) : regex :=
  match r, s with
  | Void, _ => Void
  | _, Void => Void
  | Eps, _ => s
  | _, _ => Cat r s
  end.

Definition alt (r s : regex) : regex :=
  match r, s with
  | Void, _ => s
  | _, Void => r
  | _, _ => Alt r s
  end.

(** Brzozowski derivative of [r] by the character [a]. *)
Fixpoint deriv (a : ascii) (r : regex) : regex :=
  match r with
  | Void | Eps => Void
  | Chr p => if p a then Eps else Void
  | Cat r s =>
      alt (cat (deriv a r) s) (if nullable r then deriv a s else Void)
  | Alt r s => alt (deriv a r) (deriv a s)
  | Star r => cat (deriv a r) (Star r)
  end.

(** [pattern.match(s)] as a truth value: some prefix of [s] is in [r]. *)
Fixpoint match_prefix (r : regex) (s : string) : bool :=
  nullable r ||
  match s with
  | EmptyString => false
  | String a s' => match_prefix (deriv a r) s'
  end.

(** [pattern.search(s)] as a truth value: a match starts somewhere in [s]. *)
Fixpoint search (r : regex) (s : string) : bool :=
  match_prefix r s ||
  match s with
  | EmptyString => false
  | String _ s' => search r s'
  end.

(** The language of a regular expression, against which [search] is
    checked. *)
Inductive matches : regex -> string -> Prop :=
| MEps : matches Eps EmptyString
| MChr (p : ascii -> bool) (c : ascii) :
    p c = true -> matches (Chr p) (String c EmptyString)
| MCat (r s : regex) (u v : string) :
    matches r u -> matches s v -> matches (Cat r s) (u ++ v)
| MAltL (r s : regex) (u : string) : matches r u -> matches (Alt r s) u
| MAltR (r s : regex) (u : string) : matches s u -> matches (Alt r s) u
| MStarNil (r : regex) : matches (Star r) EmptyString
| MStarCons (r : regex) (u v : string) :
    matches r u -> matches (Star r) v -> matches (Star r) (u ++ v).

(** Pattern syntax. *)
Definition in_range (lo hi : string) (c : ascii) : bool :=
  match lo, hi with
  | String l _, String h _ =>
      (nat_of_ascii l <=? nat_of_ascii c) && (nat_of_ascii c <=? nat_of_ascii h)
  | _, _ => false
  end.

Definition one_of (s : string) (c : ascii) : bool :=
  existsb (Ascii.eqb c) (list_ascii_of_string s).

Fixpoint alts (l : list regex) : regex :=
  match l with
  | [] => Void
  | [r] => r
  | r :: l' => Alt r (alts l')
  end.

Fixpoint seq (l : list regex) : regex :=
  match l with
  | [] => Eps
  | [r] => r
  | r :: l' => Cat r (seq l')
  end.

(** A literal. *)
Fixpoint lit (s : string) : regex :=
  match s with
  | EmptyString => Eps
  | String c s' => Cat (Chr (fun a => Ascii.eqb a c)) (lit s')
  end.

(** One given character. *)
Definition code_point (cp : N) : regex := lit (PyStr.chr cp).

(** The flag [re.I].  On ASCII it identifies the two cases of a letter; three
    letters have further variants beyond ASCII, which fold onto them: U+0130
    and U+0131 onto [i], U+017F onto [s], U+212A onto [k]. *)
Definition ascii_lower (c : ascii) : ascii :=
  let n := nat_of_ascii c in
  if (65 <=? n) && (n <=? 90) then ascii_of_nat (n + 32) else c.

Definition ascii_upper (c : ascii) : ascii :=
  let n := nat_of_ascii c in
  if (97 <=? n) && (n <=? 122) then ascii_of_nat (n - 32) else c.

Definition FOLDS : list (ascii * list N) :=
  [ ("i"%char, [304; 305]%N); ("s"%char, [383]%N); ("k"%char, [8490]%N) ].

(** A class of ASCII characters under [re.I]: a character is taken when one
    of its case variants is in the class. *)
Definition class_i (p : ascii -> bool) : regex :=
  alts
    (Chr (fun a => p a || p (ascii_lower a) || p (ascii_upper a))
     :: flat_map (fun entry =>
                    if p (fst entry) || p (ascii_upper (fst entry))
                    then map code_point (snd entry) else [])
                 FOLDS).

(** A literal under [re.I]. *)
Fixpoint lit_i (s : string) : regex :=
  match s with
  | EmptyString => Eps
  | String c s' => Cat (class_i (Ascii.eqb c)) (lit_i s')
  end.

Definition opt (r : regex) : regex := Alt r Eps.

Fixpoint rep (n : nat) (r : regex) : regex :=
  match n with
  | O => Eps
  | S n' => Cat r (rep n' r)
  end.

(** [r{n,}]. *)
Definition at_least (n : nat) (r : regex) : regex := Cat (rep n r) (Star r).

Definition alnum (c : ascii) : bool :=
  in_range "A" "Z" c || in_range "a" "z" c || in_range "0" "9" c.

(** [\s]: one blank. *)
Definition ws : regex := alts (map code_point PyStr.WHITESPACE).

End Re.

(* ------------------------------------------------------------------------- *)
(** ** The review engine *)

Module Review.
Import PyAst PyStr Re.

Inductive Severity : Type := CRITICAL | WARNING.

(** [class Finding]; the field [fix] is spelled [fix_]. *)
Record Finding : Type := mkFinding {
  file : string;
  line : positive;
  severity : Severity;
  confidence : nat;
  issue : string;
  fix_ : string
}.

Definition dquote : ascii := ascii_of_nat 34.
Definition quote_char (c : ascii) : bool :=
  Ascii.eqb c dquote || Ascii.eqb c "'"%char.

Definition word_char (c : ascii) : bool := alnum c || Ascii.eqb c "_"%char.

Definition SECRET_PATTERNS : list (regex * string) :=
  [ (seq [alts [lit "sk_live_"; lit "sk_test_"; lit "pk_live_"; lit "pk_test_"];
          at_least 10 (Chr alnum)],
     "Stripe key");
    (seq [alts [seq [lit_i "api"; opt (class_i (one_of "_-")); lit_i "key"];
                lit_i "apikey";
                seq [lit_i "secret"; opt (class_i (one_of "_-")); lit_i "key"];
                seq [lit_i "auth"; opt (class_i (one_of "_-")); lit_i "token"];
                seq [lit_i "access"; opt (class_i (one_of "_-")); lit_i "token"]];
          Star ws; lit_i "="; Star ws; class_i quote_char;
          at_least 8 (class_i (fun c => word_char c || Ascii.eqb c "-"%char));
          class_i quote_char],
     "Hardcoded secret");
    (seq [lit "Bearer"; Cat ws (Star ws);
          at_least 20 (Chr (fun c => word_char c || one_of "-." c))],
     "Hardcoded Bearer token");
    (seq [lit "-----BEGIN "; opt (alts [lit "RSA "; lit "EC "]);
          lit "PRIVATE KEY-----"],
     "Private key in source");
    (seq [alts [lit "ghp_"; lit "gho_"; lit "ghu_"; lit "ghs_"; lit "ghr_"];
          at_least 36 (Chr word_char)],
     "GitHub token");
    (seq [lit "AKIA";
          rep 16 (Chr (fun c => in_range "0" "9" c || in_range "A" "Z" c))],
     "AWS access key");
    (seq [lit "xox"; Chr (one_of "bporas"); lit "-";
          at_least 10 (Chr (in_range "0" "9")); lit "-";
          at_least 10 (Chr alnum)],
     "Slack token") ].

Definition AUTH_DECORATORS : set string :=
  [ "login_required"; "permission_required"; "user_passes_test";
    "staff_member_required"; "jwt_required"; "auth_required";
    "requires_auth"; "authenticated"; "permissions_required";
    "api_view" ].

Definition view_keywords : list string :=
  [ "view"; "get"; "post"; "put"; "delete"; "patch"; "list"; "create";
    "update"; "destroy"; "retrieve" ].

(** [any(kw in name for kw in (...))]. *)
Definition is_view (name : string) : bool :=
  existsb (fun kw => contains kw name) view_keywords.

(** One turn of the loop over [node.decorator_list]. *)
Definition add_decorator (decorator_names : set string) (dec : expr)
  : set string :=
  match dec with
  | Name id _ => set_add string_dec id decorator_names
  | Attribute _ attr _ => set_add string_dec attr decorator_names
  | Call func _ _ _ =>
      match func with
      | Name id _ => set_add string_dec id decorator_names
      | Attribute _ attr _ => set_add string_dec attr decorator_names
      | _ => decorator_names
      end
  | _ => decorator_names
  end.

Definition check_missing_auth (tree : ast_module) (filepath rel_path : string)
  (findings : list Finding) : list Finding :=
  fold_left (fun findings node =>
    match node with
    | NStmt (FunctionDef name _ _ decorator_list _ lineno) =>
        if negb (is_view name) then findings
        else
          let decorator_names :=
            fold_left add_decorator decorator_list (empty_set string) in
          match set_inter string_dec decorator_names AUTH_DECORATORS with
          | [] =>
              findings ++
              [ {| file := rel_path; line := lineno; severity := CRITICAL;
                   confidence := 85;
                   issue := ("Function '" ++ name
                     ++ "' appears to be a view but has no auth decorator")%string;
                   fix_ := "Add @login_required, @permission_required, or equivalent auth decorator" |} ]
          | _ :: _ => findings
          end
    | _ => findings
    end) (walk (NMod tree)) findings.

Definition check_bare_except (tree : ast_module) (filepath rel_path : string)
  (findings : list Finding) : list Finding :=
  fold_left (fun findings node =>
    match node with
    | NHandler (ExceptHandler None _ _ lineno) =>
        findings ++
        [ {| file := rel_path; line := lineno; severity := WARNING;
             confidence := 90;
             issue := "Bare except: block catches all exceptions including SystemExit/KeyboardInterrupt";
             fix_ := "Use 'except Exception:' or catch specific exception types" |} ]
    | _ => findings
    end) (walk (NMod tree)) findings.

Definition check_print_statements (tree : ast_module)
  (filepath rel_path : string) (findings : list Finding) : list Finding :=
  let prints :=
    fold_left (fun prints node =>
      match node with
      | NExpr (Call (Name id _) _ _ lineno) =>
          if String.eqb id "print" then prints ++ [lineno] else prints
      | _ => prints
      end) (walk (NMod tree)) [] in
  if 3 <? List.length prints then
    findings ++
    [ {| file := rel_path; line := hd xH prints; severity := WARNING;
         confidence := 80;
         issue := (str_of_nat (List.length prints)
                   ++ " print() statements found in production code")%string;
         fix_ := "Replace with logging module (import logging; logger = logging.getLogger(__name__))" |} ]
  else
    fold_left (fun findings lineno =>
      findings ++
      [ {| file := rel_path; line := lineno; severity := WARNING;
           confidence := 75;
           issue := "print() statement in production code";
           fix_ := "Replace with logging.info() or logging.debug()" |} ])
      prints findings.

Definition check_eval_exec (tree : ast_module) (filepath rel_path : string)
  (findings : list Finding) : list Finding :=
  fold_left (fun findings node =>
    match node with
    | NExpr (Call (Name id _) _ _ lineno) =>
        if String.eqb id "eval" || String.eqb id "exec" then
          findings ++
          [ {| file := rel_path; line := lineno; severity := CRITICAL;
               confidence := 95;
               issue := (id ++ "() can execute arbitrary code — code injection risk")%string;
               fix_ := ("Replace " ++ id
                 ++ "() with safe alternatives (ast.literal_eval, importlib, etc.)")%string |} ]
        else findings
    | _ => findings
    end) (walk (NMod tree)) findings.

Definition dangerous_methods : set string :=
  [ "execute"; "raw"; "extra"; "executemany" ].

Definition check_sql_injection (tree : ast_module) (filepath rel_path : string)
  (findings : list Finding) : list Finding :=
  fold_left (fun findings node =>
    match node with
    | NExpr (Call func args _ lineno) =>
        let method_name :=
          match func with
          | Attribute _ attr _ =>
              if set_mem string_dec attr dangerous_methods
              then Some attr else None
          | _ => None
          end in
        match method_name with
        | None => findings
        | Some method_name =>
            match args with
            | [] => findings
            | arg :: _ =>
                match arg with
                | JoinedStr _ _ =>
                    findings ++
                    [ {| file := rel_path; line := lineno;
                         severity := CRITICAL; confidence := 95;
                         issue := ("SQL injection: f-string passed to ."
                                   ++ method_name ++ "()")%string;
                         fix_ := "Use parameterized queries: cursor.execute('SELECT ... WHERE id = %s', [user_id])" |} ]
                | BinOp _ (Add | Mod) _ _ =>
                    findings ++
                    [ {| file := rel_path; line := lineno;
                         severity := CRITICAL; confidence := 90;
                         issue := ("SQL injection: string concatenation/format in ."
                                   ++ method_name ++ "()")%string;
                         fix_ := "Use parameterized queries instead of string concatenation" |} ]
                | _ => findings
                end
            end
        end
    | _ => findings
    end) (walk (NMod tree)) findings.

(** The inner [for pattern, label in SECRET_PATTERNS: ... break] loop: the
    label of the first pattern found in the line, if any. *)
Fixpoint first_secret (patterns : list (regex * string)) (line : string)
  : option string :=
  match patterns with
  | [] => None
  | (pattern, label) :: rest =>
      if search pattern line then Some label else first_secret rest line
  end.

Definition check_missing_type_hints (tree : ast_module)
  (filepath rel_path : string) (findings : list Finding) : list Finding :=
  fold_left (fun findings node =>
    match node with
    | NStmt (ClassDef _ _ _ _ _ _) =>
        fold_left (fun findings item =>
          match item with
          | NStmt (FunctionDef name _ _ _ returns lineno) =>
              if negb (startswith name "_") then
                match returns with
                | None =>
                    findings ++
                    [ {| file := rel_path; line := lineno;
                         severity := WARNING; confidence := 70;
                         issue := ("Public method '" ++ name
                                   ++ "' has no return type hint")%string;
                         fix_ := ("Add return type: def " ++ name
                                  ++ "(...) -> ReturnType:")%string |} ]
                | Some _ => findings
                end
              else findings
          | _ => findings
          end) (iter_child_nodes node) findings
    | NStmt (FunctionDef name _ _ _ returns lineno) =>
        if negb (startswith name "_") then
          match returns with
          | None =>
              findings ++
              [ {| file := rel_path; line := lineno;
                   severity := WARNING; confidence := 70;
                   issue := ("Public function '" ++ name
                             ++ "' has no return type hint")%string;
                   fix_ := ("Add return type: def " ++ name
                            ++ "(...) -> ReturnType:")%string |} ]
          | Some _ => findings
          end
        else findings
    | _ => findings
    end) (iter_child_nodes (NMod tree)) findings.

(** The sort key of [main]:
    [(0 if f.severity == "CRITICAL" else 1, f.file, f.line)]. *)
Definition sort_key (f : Finding) : nat * string * positive :=
  ((match severity f with CRITICAL => 0 | WARNING => 1 end), file f, line f).

(** Python's comparison of two such tuples: the first unequal component
    decides; strings compare character by character. *)
Definition key_compare (a b : nat * string * positive) : comparison :=
  let '(r1, f1, l1) := a in
  let '(r2, f2, l2) := b in
  match Nat.compare r1 r2 with
  | Eq =>
      match String.compare f1 f2 with
      | Eq => Pos.compare l1 l2
      | c => c
      end
  | c => c
  end.

Definition key_lt (a b : nat * string * positive) : bool :=
  match key_compare a b with Lt => true | _ => false end.

Definition key_le (a b : nat * string * positive) : bool :=
  negb (key_lt b a).

(** [list.sort(key=...)] is a stable sort that compares keys with [<] only.
    Its result is modelled by the stable insertion sort: an element moves past
    its left neighbours only while it is strictly smaller. *)
Fixpoint insert_finding (x : Finding) (sorted : list Finding) : list Finding :=
  match sorted with
  | [] => [x]
  | y :: rest =>
      if key_lt (sort_key y) (sort_key x) then y :: insert_finding x rest
      else x :: y :: rest
  end.

Definition sort_findings (findings : list Finding) : list Finding :=
  fold_right insert_finding [] findings.

Definition is_critical (f : Finding) : bool :=
  match severity f with CRITICAL => true | WARNING => false end.

Definition is_warning (f : Finding) : bool :=
  match severity f with WARNING => true | CRITICAL => false end.

Inductive Verdict : Type := APPROVE | COMMENT | REQUEST_CHANGES.

(** What a run of [main] reports: the figures of the summary, the verdict
    line and the value [main] returns, which [sys.exit] turns into the exit
    status.  The early return for an empty scan set prints no table and no
    summary: its report has no findings and zero counts. *)
Record Report : Type := mkReport {
  files_scanned : nat;
  report_findings : list Finding;
  report_clean_files : list string;
  critical_count : nat;
  warning_count : nat;
  verdict : Verdict;
  verdict_note : string;
  exit_status : nat
}.

(** [main] from the sort to the end. *)
Definition summarize (scanned : nat) (findings : list Finding)
  (clean_files : list string) : Report :=
  let findings := sort_findings findings in
  let critical_count := List.length (filter is_critical findings) in
  let warning_count := List.length (filter is_warning findings) in
  if 0 <? critical_count then
    mkReport scanned findings clean_files critical_count warning_count
      REQUEST_CHANGES
      (str_of_nat critical_count ++ " critical issues found")%string 1
  else if 0 <? warning_count then
    mkReport scanned findings clean_files critical_count warning_count
      COMMENT
      (str_of_nat warning_count ++ " warnings to consider")%string 0
  else
    mkReport scanned findings clean_files critical_count warning_count
      APPROVE "No issues detected" 0.

(** A call that returns a value, or that an exception leaves. *)
Inductive outcome (A : Type) : Type :=
| Returned (a : A)
| Raised.
Arguments Raised {A}.

Definition bind (A B : Type) (m : outcome A) (f : A -> outcome B)
  : outcome B :=
  match m with
  | Returned a => f a
  | Raised => Raised
  end.

Notation "x <- m ;; f" := (bind m (fun x => f))
  (at level 61, m at next level, right associativity).

(** What [ast.parse] does with a source text: it returns a tree, raises
    [SyntaxError], or raises something else ([ValueError] for a text with a
    NUL character, [RecursionError] or [MemoryError] for deep nesting). *)
Inductive parse_result : Type :=
| Parsed (tree : ast_module)
| SyntaxError
| OtherError.

Section Engine.

(** The file system and the parser are the engine's environment.
    [read_text p] is [open(p).read()] in text mode (decoded, line ends
    translated), [None] when opening or reading raises; a file keeps its
    content for the duration of the run.  [ast_parse] is [ast.parse].
    [relative_to p] is [str(p.relative_to(root))], [None] when [p] is not
    below the root and [relative_to] raises [ValueError]. *)
Variable read_text : string -> option string.
Variable ast_parse : string -> parse_result.
Variable relative_to : string -> option string.

(** [open(filepath).readlines()]. *)
Definition readlines (filepath : string) : option (list string) :=
  option_map splitlines (read_text filepath).

Definition check_hardcoded_secrets (filepath rel_path : string)
  (findings : list Finding) : list Finding :=
  match readlines filepath with
  | None => findings
  | Some lines =>
      fold_left (fun findings '(i, line) =>
        let stripped := strip line in
        if startswith stripped "#" then findings
        else
          match first_secret SECRET_PATTERNS line with
          | Some label =>
              findings ++
              [ {| file := rel_path; line := i; severity := CRITICAL;
                   confidence := 90;
                   issue := ("Hardcoded secret detected: " ++ label)%string;
                   fix_ := "Move to environment variable or secrets manager" |} ]
          | None => findings
          end) (enumerate_from 1 lines) findings
  end.

Definition check_empty_except_body (tree : ast_module)
  (filepath rel_path : string) (findings : list Finding) : list Finding :=
  match readlines filepath with
  | None => findings
  | Some source_lines =>
      fold_left (fun findings node =>
        match node with
        | NHandler (ExceptHandler _ _ body lineno) =>
            match body with
            | [Pass pass_lineno] =>
                let line_idx := Pos.to_nat pass_lineno - 1 in
                if line_idx <? List.length source_lines then
                  let line_text := nth line_idx source_lines EmptyString in
                  if negb (contains "#" line_text) then
                    findings ++
                    [ {| file := rel_path; line := lineno;
                         severity := WARNING; confidence := 85;
                         issue := "Empty except block silently swallows errors";
                         fix_ := "Add error logging, re-raise, or add a comment explaining why" |} ]
                  else findings
                else findings
            | _ => findings
            end
        | _ => findings
        end) (walk (NMod tree)) findings
  end.

(** [str(filepath.relative_to(root))]. *)
Definition rel_path_of (filepath : string) : outcome string :=
  match relative_to filepath with
  | Some rel_path => Returned rel_path
  | None => Raised
  end.

(** [analyze_file]: the accumulator after the file and the returned flag.
    Reading is guarded by [except Exception], parsing by [except SyntaxError]
    only; nothing guards the relative path. *)
Definition analyze_file (filepath : string) (findings : list Finding)
  : outcome (list Finding * bool) :=
  rel_path <- rel_path_of filepath ;;
  match read_text filepath with
  | None => Returned (findings, false)
  | Some source =>
      match ast_parse source with
      | OtherError => Raised
      | SyntaxError => Returned (findings, false)
      | Parsed tree =>
          let findings := check_missing_auth tree filepath rel_path findings in
          let findings := check_bare_except tree filepath rel_path findings in
          let findings := check_empty_except_body tree filepath rel_path findings in
          let findings := check_print_statements tree filepath rel_path findings in
          let findings := check_eval_exec tree filepath rel_path findings in
          let findings := check_sql_injection tree filepath rel_path findings in
          let findings := check_hardcoded_secrets filepath rel_path findings in
          let findings := check_missing_type_hints tree filepath rel_path findings in
          Returned (findings, true)
      end
  end.

(** The state of the loop of [main]: [findings], [clean_files], [scanned]. *)
Record ScanState : Type := mkScan {
  acc_findings : list Finding;
  acc_clean_files : list string;
  acc_scanned : nat
}.

(** One turn of [for filepath in py_files]. *)
Definition scan_step (st : ScanState) (filepath : string)
  : outcome ScanState :=
  let before := List.length (acc_findings st) in
  result <- analyze_file filepath (acc_findings st) ;;
  let '(findings, ok) := result in
  if ok then
    let scanned := acc_scanned st + 1 in
    if List.length findings =? before then
      rel_path <- rel_path_of filepath ;;
      Returned (mkScan findings (acc_clean_files st ++ [rel_path]) scanned)
    else Returned (mkScan findings (acc_clean_files st) scanned)
  else Returned (mkScan findings (acc_clean_files st) (acc_scanned st)).

(** The loop, from the state [st]: an exception ends it. *)
Fixpoint scan_from (st : ScanState) (py_files : list string)
  : outcome ScanState :=
  match py_files with
  | [] => Returned st
  | filepath :: rest => st' <- scan_step st filepath ;; scan_from st' rest
  end.

Definition scan_loop (py_files : list string) : outcome ScanState :=
  scan_from (mkScan [] [] 0) py_files.

(** [main], given the list the file collector returned. *)
Definition main (py_files : list string) : outcome Report :=
  match py_files with
  | [] => Returned (mkReport 0 [] [] 0 0 APPROVE "No files to review" 0)
  | _ :: _ =>
      st <- scan_loop py_files ;;
      Returned (summarize (acc_scanned st) (acc_findings st)
                          (acc_clean_files st))
  end.

(** The [__main__] block: the status is what [main] returns, and 2 when an
    exception leaves [main]. *)
Definition script_exit (py_files : list string) : nat :=
  match main py_files with
  | Returned r => exit_status r
  | Raised => 2
  end.

End Engine.

End Review.

(* ------------------------------------------------------------------------- *)
(** ** What the rules are expected to report

    The rules are loops over [ast.walk].  The properties below are stated
    against the document-order enumeration [descendants] instead, node by
    node: what one node of the tree is expected to contribute. *)

Module Spec.
Import PyAst PyStr Re Review.

(** The call sites of a tree whose callee is one of the plain [names]: callee
    name and line of the call, in document order. *)
Definition call_site (names : list string) (n : node)
  : list (string * positive) :=
  match n with
  | NExpr (Call (Name id _) _ _ lineno) =>
      if existsb (String.eqb id) names then [(id, lineno)] else []
  | _ => []
  end.

Definition call_sites (names : list string) (tree : ast_module)
  : list (string * positive) :=
  flat_map (call_site names) (descendants (NMod tree)).

Definition print_lines (tree : ast_module) : list positive :=
  map snd (call_sites ["print"] tree).

(** The smallest line of a list of lines. *)
Definition earliest_line (lines : list positive) : option positive :=
  match lines with
  | [] => None
  | l :: rest => Some (fold_right Pos.min l rest)
  end.

Definition print_aggregate (rel_path : string) (first : positive) (n : nat)
  : Finding :=
  mkFinding rel_path first WARNING 80
    (str_of_nat n ++ " print() statements found in production code")
    "Replace with logging module (import logging; logger = logging.getLogger(__name__))".

Definition print_single (rel_path : string) (lineno : positive) : Finding :=
  mkFinding rel_path lineno WARNING 75
    "print() statement in production code"
    "Replace with logging.info() or logging.debug()".

Definition eval_exec_finding (rel_path : string) (site : string * positive)
  : Finding :=
  mkFinding rel_path (snd site) CRITICAL 95
    (fst site ++ "() can execute arbitrary code — code injection risk")
    ("Replace " ++ fst site
     ++ "() with safe alternatives (ast.literal_eval, importlib, etc.)").

(** The shape of a call's positional arguments, as the injection rule reads
    it: only the first one counts. *)
Inductive query_shape : Type := Interpolated | Concatenated | Harmless.

Definition first_arg_shape (args : list expr) : query_shape :=
  match args with
  | JoinedStr _ _ :: _ => Interpolated
  | BinOp _ Add _ _ :: _ => Concatenated
  | BinOp _ Mod _ _ :: _ => Concatenated
  | _ => Harmless
  end.

Definition query_methods : list string :=
  ["execute"; "raw"; "extra"; "executemany"].

Definition sql_fstring (rel_path method_name : string) (lineno : positive)
  : Finding :=
  mkFinding rel_path lineno CRITICAL 95
    ("SQL injection: f-string passed to ." ++ method_name ++ "()")
    "Use parameterized queries: cursor.execute('SELECT ... WHERE id = %s', [user_id])".

Definition sql_concat (rel_path method_name : string) (lineno : positive)
  : Finding :=
  mkFinding rel_path lineno CRITICAL 90
    ("SQL injection: string concatenation/format in ." ++ method_name ++ "()")
    "Use parameterized queries instead of string concatenation".

Definition sql_expected (rel_path : string) (n : node) : list Finding :=
  match n with
  | NExpr (Call (Attribute _ attr _) args _ lineno) =>
      if existsb (String.eqb attr) query_methods then
        match first_arg_shape args with
        | Interpolated => [sql_fstring rel_path attr lineno]
        | Concatenated => [sql_concat rel_path attr lineno]
        | Harmless => []
        end
      else []
  | _ => []
  end.

(** The name a decorator contributes: a plain name, the attribute of an
    attribute access, or either of these as the target of a decorator call. *)
Definition decorator_name (dec : expr) : option string :=
  match dec with
  | Name id _ => Some id
  | Attribute _ attr _ => Some attr
  | Call (Name id _) _ _ _ => Some id
  | Call (Attribute _ attr _) _ _ _ => Some attr
  | _ => None
  end.

Definition is_auth_decorator (dec : expr) : bool :=
  match decorator_name dec with
  | Some nm => existsb (String.eqb nm) AUTH_DECORATORS
  | None => false
  end.

Definition has_auth_decorator (decorator_list : list expr) : bool :=
  existsb is_auth_decorator decorator_list.

Definition missing_auth_finding (rel_path name : string) (lineno : positive)
  : Finding :=
  mkFinding rel_path lineno CRITICAL 85
    ("Function '" ++ name ++ "' appears to be a view but has no auth decorator")
    "Add @login_required, @permission_required, or equivalent auth decorator".

(** Function-like definitions: [def] and [async def]. *)
Definition function_like (s : stmt)
  : option (string * list expr * option expr * positive) :=
  match s with
  | FunctionDef name _ _ decorator_list returns lineno
  | AsyncFunctionDef name _ _ decorator_list returns lineno =>
      Some (name, decorator_list, returns, lineno)
  | _ => None
  end.

(** What the missing-auth rule reports for one node: [def] only. *)
Definition missing_auth_expected (rel_path : string) (n : node)
  : list Finding :=
  match n with
  | NStmt (FunctionDef name _ _ decorator_list _ lineno) =>
      if is_view name && negb (has_auth_decorator decorator_list)
      then [missing_auth_finding rel_path name lineno] else []
  | _ => []
  end.

Definition type_hint_finding (kind rel_path name : string) (lineno : positive)
  : Finding :=
  mkFinding rel_path lineno WARNING 70
    ("Public " ++ kind ++ " '" ++ name ++ "' has no return type hint")
    ("Add return type: def " ++ name ++ "(...) -> ReturnType:").

(** A [def] that is public and has no return annotation. *)
Definition unannotated_public (kind rel_path : string) (s : stmt)
  : list Finding :=
  match s with
  | FunctionDef name _ _ _ None lineno =>
      if startswith name "_" then []
      else [type_hint_finding kind rel_path name lineno]
  | _ => []
  end.

(** What the return-annotation rule reports for one statement of the module
    body. *)
Definition type_hint_expected (rel_path : string) (s : stmt) : list Finding :=
  match s with
  | ClassDef _ _ _ body _ _ =>
      flat_map (unannotated_public "method" rel_path) body
  | _ => unannotated_public "function" rel_path s
  end.

Definition bare_except_finding (rel_path : string) (lineno : positive)
  : Finding :=
  mkFinding rel_path lineno WARNING 90
    "Bare except: block catches all exceptions including SystemExit/KeyboardInterrupt"
    "Use 'except Exception:' or catch specific exception types".

Definition empty_except_finding (rel_path : string) (lineno : positive)
  : Finding :=
  mkFinding rel_path lineno WARNING 85
    "Empty except block silently swallows errors"
    "Add error logging, re-raise, or add a comment explaining why".

Definition bare_except_expected (rel_path : string) (n : node) : list Finding :=
  match n with
  | NHandler (ExceptHandler None _ _ lineno) =>
      [bare_except_finding rel_path lineno]
  | _ => []
  end.

Definition empty_except_expected (source_lines : list string)
  (rel_path : string) (n : node) : list Finding :=
  match n with
  | NHandler (ExceptHandler _ _ [Pass pass_lineno] lineno) =>
      match nth_error source_lines (Pos.to_nat pass_lineno - 1) with
      | Some line_text =>
          if contains "#" line_text then []
          else [empty_except_finding rel_path lineno]
      | None => []
      end
  | _ => []
  end.

Definition secret_finding (rel_path label : string) (i : positive) : Finding :=
  mkFinding rel_path i CRITICAL 90
    ("Hardcoded secret detected: " ++ label)
    "Move to environment variable or secrets manager".

(** The line is a comment: its stripped text begins with the marker. *)
Definition is_comment (line : string) : bool :=
  startswith (strip line) "#".

Definition at_line (i : positive) (f : Finding) : bool :=
  Pos.eqb (line f) i.

(** The verdict in the words of the specification: REQUEST CHANGES when there
    is a CRITICAL finding, APPROVE when there is no finding at all or no file
    to scan, COMMENT otherwise; the exit status is 1 for REQUEST CHANGES. *)
Definition spec_verdict (critical warning : nat) (no_files : bool)
  : Verdict * nat :=
  if 0 <? critical then (REQUEST_CHANGES, 1)
  else if ((critical =? 0) && (warning =? 0)) || no_files then (APPROVE, 0)
  else (COMMENT, 0).

(** A finding with its confidence replaced. *)
Definition with_confidence (g : Finding -> nat) (f : Finding) : Finding :=
  mkFinding (file f) (line f) (severity f) (g f) (issue f) (fix_ f).

Definition same_key (k : nat * string * positive) (f : Finding) : bool :=
  match key_compare (sort_key f) k with Eq => true | _ => false end.

(** What the secret rule reports for line [i] of the file. *)
Definition secret_expected (rel_path : string) (entry : positive * string)
  : list Finding :=
  let '(i, line) := entry in
  if is_comment line then []
  else
    match first_secret SECRET_PATTERNS line with
    | Some label => [secret_finding rel_path label i]
    | None => []
    end.

(** Everything the eight rules report for one parsed file, in the order
    [analyze_file] runs them. *)
Definition file_findings (source : string) (tree : ast_module)
  (rel_path : string) : list Finding :=
  let nodes := walk (NMod tree) in
  let lines := splitlines source in
  flat_map (missing_auth_expected rel_path) nodes
  ++ flat_map (bare_except_expected rel_path) nodes
  ++ flat_map (empty_except_expected lines rel_path) nodes
  ++ (let prints := map snd (flat_map (call_site ["print"]) nodes) in
      if 3 <? List.length prints
      then [print_aggregate rel_path (hd xH prints) (List.length prints)]
      else map (print_single rel_path) prints)
  ++ map (eval_exec_finding rel_path)
         (flat_map (call_site ["eval"; "exec"]) nodes)
  ++ flat_map (sql_expected rel_path) nodes
  ++ flat_map (secret_expected rel_path) (enumerate_from 1 lines)
  ++ (match tree with
      | AstModule body => flat_map (type_hint_expected rel_path) body
      end).

(** What becomes of one file of the scan list: the run ends on it, it is
    skipped, or it is scanned and the rules report [added] under
    [rel_path]. *)
Inductive file_result : Type :=
| Aborts
| Skipped
| Scanned (rel_path : string) (added : list Finding).

Definition per_file (read_text : string -> option string)
  (ast_parse : string -> parse_result)
  (relative_to : string -> option string) (filepath : string)
  : file_result :=
  match relative_to filepath with
  | None => Aborts
  | Some rel_path =>
      match read_text filepath with
      | None => Skipped
      | Some source =>
          match ast_parse source with
          | Parsed tree =>
              Scanned rel_path (file_findings source tree rel_path)
          | SyntaxError => Skipped
          | OtherError => Aborts
          end
      end
  end.

(** The order of the report: CRITICAL before WARNING, then the file path in
    lexicographic order, then the line. *)
Definition severity_rank (s : Severity) : nat :=
  match s with CRITICAL => 0 | WARNING => 1 end.

Definition finding_le (a b : Finding) : Prop :=
  severity_rank (severity a) < severity_rank (severity b) \/
  (severity_rank (severity a) = severity_rank (severity b) /\
   (String.compare (file a) (file b) = Lt \/
    (file a = file b /\ (line a <= line b)%positive))).

End Spec.

(* ------------------------------------------------------------------------- *)
(** ** Sample inputs *)

Module Demo.
Import PyAst PyStr Re Review.
Local Open Scope positive_scope.

Definition no_args : arguments := Arguments [] [].

Definition print_stmt (l : positive) : stmt :=
  Expr (Call (Name "print" l) [Constant l] [] l) l.

(** [[
def f():
    print(1)
print(2)
print(3)
print(4)
]] *)
Definition nested_prints : ast_module :=
  AstModule [ FunctionDef "f" no_args [print_stmt 2] [] None 1;
              print_stmt 3; print_stmt 4; print_stmt 5 ].

(** [[
print(1)
if x:
    print(2)
]] *)
Definition two_prints : ast_module :=
  AstModule [ print_stmt 1; If (Name "x" 2) [print_stmt 3] [] 2 ].

(** [[
async def get_profile(request):
    pass
]] *)
Definition async_def : stmt :=
  AsyncFunctionDef "get_profile" (Arguments [Arg "request" None] [])
    [Pass 2] [] None 1.

Definition async_view : ast_module := AstModule [async_def].

(** [[
@app.route("/users")
def list_users():
    pass
@login_required
def get_profile() -> dict:
    pass
class Api:
    def fetch(self):
        def inner():
            pass
]] *)
Definition views : ast_module :=
  AstModule
    [ FunctionDef "list_users" no_args [Pass 3]
        [Call (Attribute (Name "app" 1) "route" 1) [Constant 1] [] 1] None 2;
      FunctionDef "get_profile" no_args [Pass 6]
        [Name "login_required" 4] (Some (Name "dict" 5)) 5;
      ClassDef "Api" [] []
        [ FunctionDef "fetch" (Arguments [Arg "self" None] [])
            [FunctionDef "inner" no_args [Pass 10] [] None 9] [] None 8 ]
        [] 7 ].

(** [[
cursor.execute(f"SELECT * FROM t WHERE id={x}")
cursor.raw("SELECT " + col)
cursor.execute("SELECT 1", f"{x}")
eval(data)
obj.eval(data)
]] *)
Definition queries : ast_module :=
  AstModule
    [ Expr (Call (Attribute (Name "cursor" 1) "execute" 1)
              [JoinedStr [Constant 1; FormattedValue (Name "x" 1) 1] 1] [] 1) 1;
      Expr (Call (Attribute (Name "cursor" 2) "raw" 2)
              [BinOp (Constant 2) Add (Name "col" 2) 2] [] 2) 2;
      Expr (Call (Attribute (Name "cursor" 3) "execute" 3)
              [Constant 3; JoinedStr [FormattedValue (Name "x" 3) 3] 3] [] 3) 3;
      Expr (Call (Name "eval" 4) [Name "data" 4] [] 4) 4;
      Expr (Call (Attribute (Name "obj" 5) "eval" 5) [Name "data" 5] [] 5) 5 ].

(** A file with a swallowed exception and a live key, and its tree. *)
Definition app_source : string :=
"try:
    run()
except:
    pass
api_key = 'sk_live_abcdefghij'
# api_key = 'sk_live_abcdefghij'
".

Definition app_tree : ast_module :=
  AstModule
    [ Try [Expr (Call (Name "run" 2) [] [] 2) 2]
          [ExceptHandler None None [Pass 4] 3] [] [] 1;
      Assign [Name "api_key" 5] (Constant 5) 5 ].

Definition clean_source : string :=
"def _helper():
    return 1
".

Definition clean_tree : ast_module :=
  AstModule [ FunctionDef "_helper" no_args [Return (Some (Constant 2)) 2]
                [] None 1 ].

(** A small project below [/repo]: two files that parse, one with a syntax
    error, one that cannot be read, and one that holds a NUL character, on
    which [ast.parse] raises [ValueError]. *)
Definition nul_source : string := String (ascii_of_nat 0) EmptyString.

Definition read_text (filepath : string) : option string :=
  if String.eqb filepath "/repo/app.py" then Some app_source
  else if String.eqb filepath "/repo/util.py" then Some clean_source
  else if String.eqb filepath "/repo/broken.py" then Some "def ("
  else if String.eqb filepath "/repo/nul.py" then Some nul_source
  else None.

Definition ast_parse (source : string) : parse_result :=
  if String.eqb source app_source then Parsed app_tree
  else if String.eqb source clean_source then Parsed clean_tree
  else if String.eqb source nul_source then OtherError
  else SyntaxError.

Definition relative_to (filepath : string) : option string :=
  if String.prefix "/repo/" filepath
  then Some (substring 6 (String.length filepath - 6) filepath)
  else None.

Definition py_files : list string :=
  [ "/repo/app.py"; "/repo/broken.py"; "/repo/locked.py"; "/repo/util.py" ].

Definition sample_findings : list Finding :=
  [ mkFinding "b.py" 7 WARNING 75 "first" "f";
    mkFinding "b.py" 2 CRITICAL 95 "second" "f";
    mkFinding "a.py" 9 WARNING 90 "third" "f";
    mkFinding "b.py" 7 WARNING 85 "fourth" "f";
    mkFinding "a.py" 9 CRITICAL 90 "fifth" "f" ].

End Demo.

(* ------------------------------------------------------------------------- *)
(** ** The run as a whole: what the loop of [main] accumulates *)

Module RunSpec.
Import PyAst PyStr Review Spec.

Section Env.
Variable read_text : string -> option string.
Variable ast_parse : string -> parse_result.
Variable relative_to : string -> option string.

(** The run ends on this file. *)
Definition aborts (filepath : string) : bool :=
  match per_file read_text ast_parse relative_to filepath with
  | Aborts => true
  | _ => false
  end.

Definition findings_of (filepath : string) : list Finding :=
  match per_file read_text ast_parse relative_to filepath with
  | Scanned _ added => added
  | _ => []
  end.

Definition is_scanned (filepath : string) : bool :=
  match per_file read_text ast_parse relative_to filepath with
  | Scanned _ _ => true
  | _ => false
  end.

Definition is_clean (filepath : string) : bool :=
  match per_file read_text ast_parse relative_to filepath with
  | Scanned _ [] => true
  | _ => false
  end.

(** The entry the file adds to the list of clean files. *)
Definition clean_name (filepath : string) : list string :=
  match per_file read_text ast_parse relative_to filepath with
  | Scanned rel_path [] => [rel_path]
  | _ => []
  end.

Definition is_flagged (filepath : string) : bool :=
  match per_file read_text ast_parse relative_to filepath with
  | Scanned _ (_ :: _) => true
  | _ => false
  end.

End Env.

(** The confidence and severity pairs the rules use. *)
Definition rated (f : Finding) : Prop :=
  match severity f with
  | CRITICAL => In (confidence f) [85; 90; 95]
  | WARNING => In (confidence f) [70; 75; 80; 85; 90]
  end.

Definition well_formed (rel_path : string) (f : Finding) : Prop :=
  file f = rel_path /\ rated f.

End RunSpec.

(* ------------------------------------------------------------------------- *)
(** ** More string primitives, paths, dictionaries *)

Module PyText.
Import PyStr Re.

(** [s.endswith(suffix)]: some tail of [s] is [suffix]. *)
Fixpoint endswith (s suffix : string) : bool :=
  String.eqb s suffix ||
  match s with
  | EmptyString => false
  | String _ s' => endswith s' suffix
  end.

(** [s.find(sub)]: index of the first occurrence, [None] for [-1]. *)
Fixpoint find (sub s : string) : option nat :=
  if String.prefix sub s then Some 0
  else
    match s with
    | EmptyString => None
    | String _ s' => option_map S (find sub s')
    end.

(** [s[:i]] and [s[i:]] for [0 <= i]. *)
Definition take (i : nat) (s : string) : string := substring 0 i s.
Definition drop (i : nat) (s : string) : string :=
  substring i (String.length s - i) s.

(** [s.partition(sep)]: the text before the first [sep], [sep] itself and
    the text after it; [(s, '', '')] when [sep] does not occur. *)
Definition partition (sep s : string) : string * string * string :=
  match find sep s with
  | Some i => (take i s, sep, drop (i + String.length sep) s)
  | None => (s, EmptyString, EmptyString)
  end.

(** [s.split(sep)] for a one-character separator: the pieces between the
    separators, empty ones included; never an empty list. *)
Fixpoint split_from (sep : ascii) (cur : string) (s : string) : list string :=
  match s with
  | EmptyString => [cur]
  | String c s' =>
      if Ascii.eqb c sep then cur :: split_from sep EmptyString s'
      else split_from sep (cur ++ String c EmptyString)%string s'
  end.

Definition split (sep : ascii) (s : string) : list string :=
  split_from sep EmptyString s.

(** [s.lstrip(chars)], [s.rstrip(chars)], [s.strip(chars)]. *)
Fixpoint lstrip_chars (chars : string) (s : string) : string :=
  match s with
  | EmptyString => EmptyString
  | String c s' => if one_of chars c then lstrip_chars chars s' else s
  end.

Fixpoint rstrip_chars (chars : string) (s : string) : string :=
  match s with
  | EmptyString => EmptyString
  | String c s' =>
      match rstrip_chars chars s' with
      | EmptyString =>
          if one_of chars c then EmptyString else String c EmptyString
      | t => String c t
      end
  end.

Definition strip_chars (chars s : string) : string :=
  rstrip_chars chars (lstrip_chars chars s).

(** Truth value of a string: non-empty. *)
Definition truthy (s : string) : bool :=
  match s with EmptyString => false | String _ _ => true end.

(** [enumerate(l, i)] with natural indices. *)
Fixpoint enumerate_nat (A : Type) (i : nat) (l : list A) : list (nat * A) :=
  match l with
  | [] => []
  | x :: l' => (i, x) :: enumerate_nat (S i) l'
  end.

(** Bytes at and above [0x80]: they are not ASCII. *)
Definition high (c : ascii) : bool := 128 <=? nat_of_ascii c.

(** The text is empty or starts with an ASCII character. *)
Definition head_ascii (s : string) : Prop :=
  match s with
  | EmptyString => True
  | String c _ => high c = false
  end.

(** A [dict] with string keys, in insertion order.  [d[k] = v] keeps the
    position of a key that is already there. *)
Definition dict : Type := list (string * string).

Fixpoint dict_set (k v : string) (d : dict) : dict :=
  match d with
  | [] => [(k, v)]
  | (k', v') :: d' =>
      if String.eqb k' k then (k', v) :: d' else (k', v') :: dict_set k v d'
  end.

Fixpoint dict_lookup (k : string) (d : dict) : option string :=
  match d with
  | [] => None
  | (k', v') :: d' => if String.eqb k' k then Some v' else dict_lookup k d'
  end.

(** [d.get(k, default)]. *)
Definition dict_get (d : dict) (k default : string) : string :=
  match dict_lookup k d with Some v => v | None => default end.

(** A [pathlib] path: its components below the file system root. *)
Definition path : Type := list string.

(** [d.parent]; the root is its own parent. *)
Definition parent (d : path) : path := removelast d.

Definition slash : ascii := "/"%char.

(** The components of a path written as text: empty and [.] components are
    dropped, [..] is kept. *)
Definition components (s : string) : path :=
  filter (fun c => negb (String.eqb c EmptyString || String.eqb c "."))
         (split slash s).

(** [base / s]: a text that starts with a slash replaces the base. *)
Definition join (base : path) (s : string) : path :=
  if String.prefix "/" s then components s else base ++ components s.

End PyText.

(* ------------------------------------------------------------------------- *)
(** ** The collaborators of the engine: root, manifest, arguments, files *)

Module Setup.
Import PyStr Re PyText.

(** [$] without [re.MULTILINE]: the end of the text, or just before a
    newline that ends it. *)
Definition at_end (s : string) : bool :=
  match s with
  | EmptyString => true
  | String c EmptyString => Ascii.eqb c newline
  | _ => false
  end.

(** A match of [r] starting here; with [to_end] it must stop where [$]
    holds. *)
Fixpoint match_here (to_end : bool) (r : regex) (s : string) : bool :=
  (nullable r && (if to_end then at_end s else true)) ||
  match s with
  | EmptyString => false
  | String a s' => match_here to_end (deriv a r) s'
  end.

Fixpoint search_from (to_end : bool) (r : regex) (s : string) : bool :=
  match_here to_end r s ||
  match s with
  | EmptyString => false
  | String _ s' => search_from to_end r s'
  end.

(** One branch of an alternation, with its [^] and [$]. *)
Record branch : Type := Branch {
  anchored_start : bool;
  body : regex;
  anchored_end : bool
}.

Definition search_branch (b : branch) (s : string) : bool :=
  if anchored_start b then match_here (anchored_end b) (body b) s
  else search_from (anchored_end b) (body b) s.

(** [pattern.search(s)] as a truth value, for an alternation of anchored
    branches. *)
Definition search_any (branches : list branch) (s : string) : bool :=
  existsb (fun b => search_branch b s) branches.

Definition EXCLUDE_DIRS : list string :=
  [ "__pycache__"; "venv"; ".venv"; "env"; ".env"; "node_modules";
    ".git"; "dist"; "build"; ".tox"; ".mypy_cache"; ".pytest_cache";
    "migrations"; "site-packages"; ".eggs" ].

(** [(^test_|_test\.py$|^conftest\.py$)]. *)
Definition EXCLUDE_FILES : list branch :=
  [ Branch true (lit "test_") false;
    Branch false (lit "_test.py") true;
    Branch true (lit "conftest.py") true ].

(** [find_project_root], from the working directory [cwd]; [is_dir] is
    [Path.is_dir].  [fuel] bounds the turns of the loop. *)
Fixpoint find_root_loop (is_dir : path -> bool) (fuel : nat) (d cwd : path)
  : path :=
  match fuel with
  | O => cwd
  | S fuel' =>
      match d with
      | [] => cwd
      | _ :: _ =>
          if is_dir (d ++ [".git"]) then d
          else find_root_loop is_dir fuel' (parent d) cwd
      end
  end.

Definition find_project_root (is_dir : path -> bool) (cwd : path) : path :=
  find_root_loop is_dir (S (List.length cwd)) cwd cwd.

(** One turn of the loop of [read_manifest] over the lines of the file: the
    dictionary and the current section. *)
Definition manifest_step (st : dict * string) (line : string)
  : dict * string :=
  let '(result, current_section) := st in
  let stripped := rstrip line in
  if negb (truthy stripped) || startswith stripped "#" then st
  else
    let indent := len line - len (lstrip line) in
    let key_val := strip stripped in
    if negb (contains ":" key_val) then st
    else
      let '(key, _, val) := partition ":" key_val in
      let key := strip key in
      let val :=
        strip_chars "'" (strip_chars (String Review.dquote EmptyString)
                                     (strip val)) in
      let val :=
        if contains "  #" val
        then strip (take (match find "  #" val with
                          | Some i => i
                          | None => 0
                          end) val)
        else val in
      if indent =? 0 then
        (if truthy val then dict_set key val result else result, key)
      else if (2 <=? indent) && truthy current_section then
        let full_key := (current_section ++ "." ++ key)%string in
        (if truthy val then dict_set full_key val result else result,
         current_section)
      else st.

(** The key the loop reads in a line; [None] for the lines it passes over
    before it looks for a key: blank lines, comments, lines without a
    colon. *)
Definition line_key (line : string) : option string :=
  let stripped := rstrip line in
  if negb (truthy stripped) || startswith stripped "#" then None
  else
    let key_val := strip stripped in
    if negb (contains ":" key_val) then None
    else Some (strip (fst (fst (partition ":" key_val)))).

(** Number of dots in a key. *)
Definition dots (s : string) : nat :=
  count_occ ascii_dec (list_ascii_of_string s) "."%char.

(** A word of a plain manifest: not empty, without a blank anywhere, and
    free of colons, hashes and quotes. *)
Fixpoint blank_free (s : string) : bool :=
  match s with
  | EmptyString => true
  | String _ s' =>
      match skip_space s with
      | Some _ => false
      | None => blank_free s'
      end
  end.

Definition plain_char (c : ascii) : bool :=
  negb (one_of ":#'" c) && negb (Ascii.eqb c Review.dquote).

Definition plain (s : string) : bool :=
  truthy s && blank_free s && forallb plain_char (list_ascii_of_string s).

Definition parse_manifest (lines : list string) : dict :=
  fst (fold_left manifest_step lines ([], EmptyString)).

Definition manifest_candidates (root : path) : list path :=
  [ root ++ ["saascode-kit"; "manifest.yaml"];
    root ++ [".saascode"; "manifest.yaml"];
    root ++ ["manifest.yaml"];
    root ++ ["saascode-kit.yaml"] ].

(** [read_manifest]: [None] when opening the manifest raises. *)
Definition read_manifest (is_file : path -> bool)
  (read_text : path -> option string) (root : path) : option dict :=
  match List.find is_file (manifest_candidates root) with
  | None => Some []
  | Some manifest =>
      match read_text manifest with
      | None => None
      | Some text => Some (parse_manifest (splitlines text))
      end
  end.

(** A directory as [os.walk] sees it: its sub-directories and its other
    entries, in the order the system lists them. *)
Inductive dirtree : Type :=
| Dir (dirnames : list (string * dirtree)) (filenames : list string).

Definition keep_file (fn : string) : bool :=
  endswith fn ".py" && negb (search_any EXCLUDE_FILES fn).

(** The loop over [os.walk(search_dir)]: the kept files of [dirpath], then
    the walk of its sub-directories that the pruning of [dirnames] left. *)
Fixpoint walk_files (dirpath : path) (t : dirtree) : list path :=
  match t with
  | Dir dirnames filenames =>
      map (fun fn => dirpath ++ [fn]) (filter keep_file filenames)
      ++ flat_map (fun entry =>
                     match entry with
                     | (d, sub) =>
                         if existsb (String.eqb d) EXCLUDE_DIRS then []
                         else walk_files (dirpath ++ [d]) sub
                     end) dirnames
  end.

(** The tree has a file named [fn] in the directory reached by descending
    through [dirs]. *)
Fixpoint has_file (dirs : list string) (t : dirtree) (fn : string) : Prop :=
  match dirs, t with
  | [], Dir _ filenames => In fn filenames
  | d :: ds, Dir dirnames _ =>
      exists sub, In (d, sub) dirnames /\ has_file ds sub fn
  end.

(** [collect_py_files].  [lookup_dir p] is the directory at [p], [None] when
    [p] is not a directory; [git_diff] is the standard output of
    [git diff --name-only HEAD], [None] when running it raises. *)
Definition collect_py_files (lookup_dir : path -> option dirtree)
  (is_file : path -> bool) (git_diff : option string)
  (root : path) (backend_path : string) (changed_only : bool) : list path :=
  let search_dir :=
    match lookup_dir (join root backend_path) with
    | Some _ => join root backend_path
    | None => root
    end in
  let full_scan :=
    match lookup_dir search_dir with
    | Some t => walk_files search_dir t
    | None => []
    end in
  if changed_only then
    match git_diff with
    | Some stdout =>
        flat_map (fun f =>
                    if endswith f ".py" then
                      let p := join root f in
                      if is_file p then [p] else []
                    else [])
                 (split newline (strip stdout))
    | None => full_scan
    end
  else full_scan.

(** The arguments of [main]. *)
Definition changed_only (argv : list string) : bool :=
  existsb (String.eqb "--changed-only") argv.

(** One turn of [for i, arg in enumerate(sys.argv[1:], 1)]. *)
Definition path_step (argv : list string) (custom_path : option string)
  (entry : nat * string) : option string :=
  match entry with
  | (i, arg) =>
      if String.eqb arg "--path" && (i <? List.length argv - 1)
      then Some (nth (i + 1) argv EmptyString)
      else custom_path
  end.

Definition custom_path (argv : list string) : option string :=
  fold_left (path_step argv) (enumerate_nat 1 (tl argv)) None.

(** The three values [main] takes from the manifest, and the path it scans. *)
Definition backend_path (manifest : dict) (argv : list string) : string :=
  let backend_path := dict_get manifest "paths.backend" "." in
  match custom_path argv with
  | Some p => if truthy p then p else backend_path
  | None => backend_path
  end.

Definition project_name (manifest : dict) : string :=
  dict_get manifest "project.name" "Python Project".

Definition framework (manifest : dict) : string :=
  dict_get manifest "stack.backend.framework" "generic".

End Setup.

(* ------------------------------------------------------------------------- *)
(** ** More sample inputs *)

Module Samples.
Import PyStr PyText Setup.

(** A manifest with a third level of nesting. *)
Definition nested_manifest : list string :=
  splitlines
"# kit manifest v1.0
project:
  name: Shop
stack:
  backend:
    framework: django
paths:
  backend: apps/api
".

(** A file that calls [eval], beside the sample project. *)
Definition run_source : string :=
"eval(data)
".

Definition run_tree : PyAst.ast_module :=
  PyAst.AstModule
    [ PyAst.Expr
        (PyAst.Call (PyAst.Name "eval" 1%positive)
                    [PyAst.Name "data" 1%positive] [] 1%positive)
        1%positive ].

Definition read_text (filepath : string) : option string :=
  if String.eqb filepath "/repo/run.py" then Some run_source
  else Demo.read_text filepath.

Definition ast_parse (source : string) : Review.parse_result :=
  if String.eqb source run_source then Review.Parsed run_tree
  else Demo.ast_parse source.

End Samples.

(* ------------------------------------------------------------------------- *)
(** ** Facts about the traversal *)

Module WalkFacts.
Import PyAst.

Lemma flat_map_map (A B C : Type) (f : B -> list C) (g : A -> B) (l : list A) :
  flat_map f (map g l) = flat_map (fun x => f (g x)) l.
Proof.
  induction l as [|x l IH]; simpl; [reflexivity | now rewrite IH].
Qed.

Lemma descendants_opt_expr (o : option expr) :
  flat_map descendants (opt_expr o) = opt_expr_nodes o.
Proof.
  destruct o; simpl; [apply app_nil_r | reflexivity].
Qed.

(** A node's enumeration is the node followed by the enumerations of its
    children, in [iter_child_nodes] order. *)
Lemma descendants_unfold (n : node) :
  descendants n = n :: flat_map descendants (iter_child_nodes n).
Proof.
  destruct n as [[body]|s|e|[type name body l]|[a v]|[args dflt]|[nm ann]];
    simpl.
  - now rewrite flat_map_map.
  - destruct s; simpl; f_equal;
      repeat (rewrite ?flat_map_app, ?flat_map_map, ?descendants_opt_expr;
              simpl);
      rewrite ?app_nil_r; reflexivity.
  - destruct e; simpl; f_equal;
      repeat (rewrite ?flat_map_app, ?flat_map_map; simpl);
      rewrite ?app_nil_r; reflexivity.
  - f_equal. now rewrite flat_map_app, flat_map_map, descendants_opt_expr.
  - now rewrite app_nil_r.
  - unfold arguments_nodes; simpl. f_equal.
    now rewrite flat_map_app, !flat_map_map.
  - unfold arg_nodes; simpl. now rewrite descendants_opt_expr.
Qed.

Lemma descendants_nonempty (n : node) : 0 < List.length (descendants n).
Proof. rewrite descendants_unfold; simpl; lia. Qed.

(** With fuel for every node reachable from the queue, the walk yields each
    of them exactly once. *)
Lemma walk_queue_perm (fuel : nat) : forall todo,
  List.length (flat_map descendants todo) <= fuel ->
  Permutation (walk_queue fuel todo) (flat_map descendants todo).
Proof.
  induction fuel as [|fuel IH]; intros todo Hlen.
  - destruct (flat_map descendants todo) eqn:E; simpl in Hlen; [|lia].
    simpl. constructor.
  - destruct todo as [|n rest]; simpl; [constructor|].
    rewrite descendants_unfold. simpl. constructor.
    simpl in Hlen. rewrite descendants_unfold in Hlen. simpl in Hlen.
    rewrite length_app in Hlen.
    etransitivity.
    + apply IH. rewrite flat_map_app, length_app. lia.
    + rewrite flat_map_app. apply Permutation_app_comm.
Qed.

(** More fuel than needed changes nothing: the loop has stopped on the empty
    queue. *)
Lemma walk_queue_fuel (fuel : nat) : forall fuel' todo,
  List.length (flat_map descendants todo) <= fuel -> fuel <= fuel' ->
  walk_queue fuel' todo = walk_queue fuel todo.
Proof.
  induction fuel as [|fuel IH]; intros fuel' todo Hlen Hle.
  - destruct todo as [|n rest].
    + destruct fuel'; reflexivity.
    + simpl in Hlen. pose proof (descendants_nonempty n).
      rewrite length_app in Hlen. lia.
  - destruct fuel' as [|fuel']; [lia|].
    destruct todo as [|n rest]; simpl; [reflexivity|].
    f_equal. apply IH; [|lia].
    simpl in Hlen. rewrite descendants_unfold in Hlen. simpl in Hlen.
    rewrite length_app in Hlen. rewrite flat_map_app, length_app. lia.
Qed.

(** [ast.walk] visits every node of the tree exactly once. *)
Lemma walk_perm (tree : node) : Permutation (walk tree) (descendants tree).
Proof.
  unfold walk.
  rewrite <- (app_nil_r (descendants tree)) at 2.
  change (descendants tree ++ []) with (flat_map descendants [tree]).
  apply walk_queue_perm. simpl. rewrite app_nil_r. lia.
Qed.

(** A loop that only appends to its accumulator appends, in order, what each
    turn contributes. *)
Lemma fold_left_emit (A B : Type) (step : list B -> A -> list B)
  (emit : A -> list B) :
  (forall acc x, step acc x = acc ++ emit x) ->
  forall l acc, fold_left step l acc = acc ++ flat_map emit l.
Proof.
  intros Hstep l. induction l as [|x l IH]; intros acc; simpl.
  - now rewrite app_nil_r.
  - rewrite Hstep, IH, app_assoc. reflexivity.
Qed.

Lemma walk_emit_perm (B : Type) (emit : node -> list B) (tree : node) :
  Permutation (flat_map emit (walk tree)) (flat_map emit (descendants tree)).
Proof. apply Permutation_flat_map, walk_perm. Qed.

(** *** The walk is a level-order traversal *)

Lemma descendants_children_length (todo : list node) :
  List.length (flat_map descendants todo) =
  List.length todo
  + List.length (flat_map descendants (flat_map iter_child_nodes todo)).
Proof.
  induction todo as [|n todo IH]; simpl; [reflexivity|].
  rewrite descendants_unfold at 1. simpl.
  rewrite flat_map_app, !length_app, IH. lia.
Qed.

(** Popping a whole prefix of the queue yields it and leaves its children
    behind what was already pending. *)
Lemma walk_queue_shift (todo : list node) : forall pending fuel,
  List.length (flat_map descendants (todo ++ pending)) <= fuel ->
  walk_queue fuel (todo ++ pending) =
  todo ++ walk_queue (fuel - List.length todo)
            (pending ++ flat_map iter_child_nodes todo).
Proof.
  induction todo as [|n todo IH]; intros pending fuel Hfuel.
  - simpl. now rewrite app_nil_r, Nat.sub_0_r.
  - destruct fuel as [|fuel].
    + simpl in Hfuel. pose proof (descendants_nonempty n).
      rewrite length_app in Hfuel. lia.
    + cbn [app walk_queue flat_map List.length Nat.sub]. f_equal.
      rewrite <- app_assoc, IH.
      * now rewrite <- app_assoc.
      * simpl in Hfuel. rewrite descendants_unfold in Hfuel. simpl in Hfuel.
        rewrite !flat_map_app, !length_app in *. lia.
Qed.

Lemma level_order_nil (depth : nat) : level_order depth [] = [].
Proof. induction depth; simpl; auto. Qed.

Lemma walk_queue_level_order (depth : nat) : forall todo fuel,
  List.length (flat_map descendants todo) <= fuel ->
  List.length (flat_map descendants todo) <= depth ->
  walk_queue fuel todo = level_order depth todo.
Proof.
  induction depth as [|depth IH]; intros todo fuel Hfuel Hdepth.
  - destruct todo as [|n todo].
    + now destruct fuel.
    + simpl in Hdepth. pose proof (descendants_nonempty n).
      rewrite length_app in Hdepth. lia.
  - destruct todo as [|n todo].
    + simpl. rewrite level_order_nil. now destruct fuel.
    + cbn [level_order].
      rewrite <- (app_nil_r (n :: todo)) at 1.
      rewrite walk_queue_shift by now rewrite app_nil_r.
      f_equal. cbn [app]. rewrite descendants_children_length in Hfuel, Hdepth.
      cbn [List.length] in *. apply IH; lia.
Qed.

(** [ast.walk] yields the nodes by increasing depth. *)
Lemma walk_breadth_first (tree : node) : walk tree = breadth_first tree.
Proof.
  unfold walk, breadth_first.
  apply walk_queue_level_order; simpl; rewrite app_nil_r; lia.
Qed.

End WalkFacts.

(* ------------------------------------------------------------------------- *)
(** ** The matcher finds exactly the occurrences of a pattern *)

Module ReFacts.
Import Re.

Lemma append_nil_r (s : string) : (s ++ EmptyString)%string = s.
Proof. induction s; simpl; congruence. Qed.

Lemma append_assoc (s t u : string) :
  ((s ++ t) ++ u)%string = (s ++ t ++ u)%string.
Proof. induction s; simpl; congruence. Qed.

Lemma append_eq_nil (s t : string) :
  (s ++ t)%string = EmptyString -> s = EmptyString /\ t = EmptyString.
Proof. destruct s; simpl; [auto | discriminate]. Qed.

Lemma nullable_matches (r : regex) :
  nullable r = true <-> matches r EmptyString.
Proof.
  induction r; simpl.
  - split; [discriminate | inversion 1].
  - split; [constructor | reflexivity].
  - split; [discriminate | inversion 1].
  - rewrite andb_true_iff, IHr1, IHr2. split.
    + intros [H1 H2]. apply (MCat H1 H2).
    + inversion 1; subst.
      match goal with
      | E : (_ ++ _)%string = EmptyString |- _ =>
          apply append_eq_nil in E as [-> ->]
      end. auto.
  - rewrite orb_true_iff, IHr1, IHr2. split.
    + intros [H | H]; [now apply MAltL | now apply MAltR].
    + inversion 1; auto.
  - split; [constructor | reflexivity].
Qed.

Lemma cat_matches (r s : regex) (w : string) :
  matches (cat r s) w <-> matches (Cat r s) w.
Proof.
  assert (Hvoid : forall x, ~ matches Void x) by (intros x H; inversion H).
  assert (Heps : forall t x, matches t x <-> matches (Cat Eps t) x).
  { intros t x. split.
    - intros H. apply (MCat MEps H).
    - inversion 1 as [| |? ? u v Hu Hv E| | | |]; subst.
      inversion Hu; subst. exact Hv. }
  destruct r; destruct s; simpl; try tauto; try apply Heps;
    (split; [intros H; exfalso; eapply Hvoid; eassumption
            | inversion 1; subst; exfalso; eapply Hvoid; eassumption]).
Qed.

Lemma alt_matches (r s : regex) (w : string) :
  matches (alt r s) w <-> matches (Alt r s) w.
Proof.
  assert (Hvoid : forall x, ~ matches Void x) by (intros x H; inversion H).
  destruct r; destruct s; simpl; try tauto;
    (split; [intros H; first [now apply MAltL | now apply MAltR]
            | inversion 1; subst; try assumption;
              exfalso; eapply Hvoid; eassumption]).
Qed.

(** A non-empty word of [r*] starts with a non-empty word of [r]. *)
Lemma star_cons_inv (r : regex) (w : string) :
  matches (Star r) w -> forall a s, w = String a s ->
  exists u v, s = (u ++ v)%string /\ matches r (String a u) /\
              matches (Star r) v.
Proof.
  intros H. remember (Star r) as sr eqn:E. revert E.
  induction H as [| | | | | |r' u v Hu _ Hv IHv]; try discriminate.
  intros E. injection E as ->. intros a s Hw.
  destruct u as [|b u]; simpl in Hw.
  - apply (IHv eq_refl a s Hw).
  - injection Hw as -> <-. exists u, v. auto.
Qed.

Ltac split_word :=
  match goal with
  | E : (?u ++ _)%string = String _ _ |- _ =>
      destruct u as [|? u]; simpl in E; [subst | injection E as -> <-]
  end.

Lemma deriv_matches (r : regex) : forall a s,
  matches (deriv a r) s <-> matches r (String a s).
Proof.
  induction r; intros a s; simpl.
  - split; inversion 1.
  - split; inversion 1.
  - destruct (p a) eqn:E; split; inversion 1; subst.
    + now apply MChr.
    + constructor.
    + congruence.
  - rewrite alt_matches. split.
    + inversion 1 as [| | |? ? ? Hl|? ? ? Hr| |]; subst.
      * apply cat_matches in Hl. inversion Hl; subst.
        match goal with
        | Hu : matches (deriv a r1) ?u, Hv : matches r2 ?v |- _ =>
            apply IHr1 in Hu; apply (MCat Hu Hv)
        end.
      * destruct (nullable r1) eqn:En; [|inversion Hr].
        apply nullable_matches in En. apply IHr2 in Hr.
        apply (MCat En Hr).
    + inversion 1; subst. split_word.
      * apply MAltR.
        match goal with
        | Hu : matches r1 EmptyString |- _ =>
            apply nullable_matches in Hu; rewrite Hu
        end. now apply IHr2.
      * apply MAltL, cat_matches.
        apply MCat; [now apply IHr1 | assumption].
  - rewrite alt_matches. split.
    + inversion 1; subst; [apply MAltL | apply MAltR];
        [now apply IHr1 | now apply IHr2].
    + inversion 1; subst; [apply MAltL | apply MAltR];
        [now apply IHr1 | now apply IHr2].
  - rewrite cat_matches. split.
    + inversion 1; subst.
      match goal with
      | Hu : matches (deriv a r) ?u, Hv : matches (Star r) ?v |- _ =>
          apply IHr in Hu; apply (MStarCons Hu Hv)
      end.
    + intros H.
      destruct (star_cons_inv H eq_refl) as (u & v & -> & Hu & Hv).
      apply MCat; [now apply IHr | exact Hv].
Qed.

(** [match_prefix]: some prefix of the text is a word of the pattern. *)
Lemma match_prefix_matches (s : string) : forall r,
  match_prefix r s = true <->
  exists u v, s = (u ++ v)%string /\ matches r u.
Proof.
  induction s as [|a s IH]; intros r; simpl.
  - rewrite orb_false_r, nullable_matches. split.
    + intros H. now exists EmptyString, EmptyString.
    + intros (u & v & E & H). symmetry in E.
      apply append_eq_nil in E as [-> _]. exact H.
  - rewrite orb_true_iff, nullable_matches, IH. split.
    + intros [H | (u & v & -> & H)].
      * now exists EmptyString, (String a s).
      * exists (String a u), v. split; [reflexivity|].
        now apply deriv_matches.
    + intros (u & v & E & H). destruct u as [|b u]; simpl in E.
      * now left.
      * injection E as <- ->. right. exists u, v. split; [reflexivity|].
        now apply deriv_matches.
Qed.

(** [search]: a word of the pattern occurs somewhere in the text. *)
Lemma search_matches (r : regex) (s : string) :
  search r s = true <->
  exists pre u post, s = (pre ++ u ++ post)%string /\ matches r u.
Proof.
  induction s as [|a s IH]; cbn [search].
  - rewrite orb_false_r, match_prefix_matches. split.
    + intros (u & v & E & H). now exists EmptyString, u, v.
    + intros (pre & u & post & E & H). symmetry in E.
      apply append_eq_nil in E as [-> E]. now exists u, post.
  - rewrite orb_true_iff, match_prefix_matches, IH. split.
    + intros [(u & v & E & H) | (pre & u & post & -> & H)].
      * now exists EmptyString, u, v.
      * now exists (String a pre), u, post.
    + intros (pre & u & post & E & H). destruct pre as [|b pre]; simpl in E.
      * left. now exists u, post.
      * injection E as <- ->. right. now exists pre, u, post.
Qed.

End ReFacts.

(* ------------------------------------------------------------------------- *)
(** ** The tree rules, node by node *)

Module RuleFacts.
Import PyAst PyStr Re Review Spec WalkFacts.

Lemma map_flat_map (A B C : Type) (g : B -> C) (f : A -> list B) (l : list A) :
  flat_map (fun x => map g (f x)) l = map g (flat_map f l).
Proof.
  induction l as [|x l IH]; simpl; [reflexivity|].
  now rewrite IH, map_app.
Qed.

Lemma set_mem_existsb (a : string) (l : set string) :
  set_mem string_dec a l = existsb (String.eqb a) l.
Proof.
  induction l as [|b l IH]; simpl; [reflexivity|].
  destruct (string_dec a b) as [->|Hne].
  - now rewrite String.eqb_refl.
  - apply String.eqb_neq in Hne. now rewrite Hne.
Qed.

Lemma check_eval_exec_emit tree filepath rel_path findings :
  check_eval_exec tree filepath rel_path findings =
  findings ++ map (eval_exec_finding rel_path)
                  (flat_map (call_site ["eval"; "exec"]) (walk (NMod tree))).
Proof.
  unfold check_eval_exec. rewrite <- map_flat_map.
  apply fold_left_emit. intros acc n.
  destruct n as [m|s|e|h|k|a|a]; simpl; rewrite ?app_nil_r; try reflexivity.
  destruct e as [l|id l|v at' l|func args kws l|vs l|v l|x op y l|v l|es l];
    simpl; rewrite ?app_nil_r; try reflexivity.
  destruct func; simpl; rewrite ?app_nil_r; try reflexivity.
  rewrite orb_false_r.
  destruct (String.eqb id "eval" || String.eqb id "exec");
    simpl; rewrite ?app_nil_r; reflexivity.
Qed.

Lemma check_print_lines tree :
  fold_left (fun prints node =>
      match node with
      | NExpr (Call (Name id _) _ _ lineno) =>
          if String.eqb id "print" then prints ++ [lineno] else prints
      | _ => prints
      end) (walk (NMod tree)) [] =
  map snd (flat_map (call_site ["print"]) (walk (NMod tree))).
Proof.
  rewrite <- map_flat_map.
  rewrite fold_left_emit
    with (emit := fun n => map snd (call_site ["print"] n)); [reflexivity|].
  intros acc n.
  destruct n as [m|s|e|h|k|a|a]; simpl; rewrite ?app_nil_r; try reflexivity.
  destruct e as [l|id l|v at' l|func args kws l|vs l|v l|x op y l|v l|es l];
    simpl; rewrite ?app_nil_r; try reflexivity.
  destruct func; simpl; rewrite ?app_nil_r; try reflexivity.
  rewrite orb_false_r.
  destruct (String.eqb id "print"); simpl; rewrite ?app_nil_r; reflexivity.
Qed.

Lemma check_bare_except_emit tree filepath rel_path findings :
  check_bare_except tree filepath rel_path findings =
  findings ++ flat_map (bare_except_expected rel_path) (walk (NMod tree)).
Proof.
  unfold check_bare_except. apply fold_left_emit. intros acc n.
  destruct n as [m|s|e|[[t|] nm body l]|k|a|a]; simpl;
    rewrite ?app_nil_r; reflexivity.
Qed.

Lemma check_sql_injection_emit tree filepath rel_path findings :
  check_sql_injection tree filepath rel_path findings =
  findings ++ flat_map (sql_expected rel_path) (walk (NMod tree)).
Proof.
  unfold check_sql_injection. apply fold_left_emit. intros acc n.
  destruct n as [m|s|e|h|k|a|a]; simpl; rewrite ?app_nil_r; try reflexivity.
  destruct e as [l|id l|v at' l|func args kws l|vs l|v l|x op y l|v l|es l];
    simpl; rewrite ?app_nil_r; try reflexivity.
  destruct func as [l'|id l'|v attr l'|f' a' k' l'|vs l'|v l'|x op y l'|v l'|es l'];
    simpl; rewrite ?app_nil_r; try reflexivity.
  pose proof (set_mem_existsb attr dangerous_methods) as Hmem.
  simpl in Hmem. rewrite Hmem. clear Hmem.
  match goal with |- context [if ?b then Some attr else None] =>
    destruct b end;
    simpl; rewrite ?app_nil_r; try reflexivity.
  destruct args as [|arg rest]; simpl; rewrite ?app_nil_r; try reflexivity.
  destruct arg as [l0|id l0|v0 at0 l0|f0 a0 k0 l0|vs l0|v0 l0|x op y l0|v0 l0|es l0];
    simpl; rewrite ?app_nil_r; try reflexivity.
  destruct op; simpl; rewrite ?app_nil_r; reflexivity.
Qed.

Lemma add_decorator_name (acc : set string) (dec : expr) :
  add_decorator acc dec =
  match decorator_name dec with
  | Some nm => set_add string_dec nm acc
  | None => acc
  end.
Proof.
  destruct dec as [l|id l|v a l|func args kws l|vs l|v l|x op y l|v l|es l];
    try reflexivity.
  destruct func; reflexivity.
Qed.

(** The set built by the decorator loop holds exactly the names the
    decorators contribute. *)
Lemma decorator_names_In (decs : list expr) : forall (acc : set string) x,
  In x (fold_left add_decorator decs acc) <->
  In x acc \/ exists d, In d decs /\ decorator_name d = Some x.
Proof.
  induction decs as [|d decs IH]; intros acc x; simpl.
  - split; [auto | intros [H | (d & [] & _)]; exact H].
  - rewrite IH, add_decorator_name. split.
    + intros [H | (d' & Hin & Hn)].
      * destruct (decorator_name d) as [nm|] eqn:E; [|auto].
        apply set_add_iff in H as [-> | H]; [|auto].
        right. exists d. auto.
      * right. exists d'. auto.
    + intros [H | (d' & [<- | Hin] & Hn)].
      * left. destruct (decorator_name d); [apply set_add_iff|]; auto.
      * left. rewrite Hn. apply set_add_iff. auto.
      * right. exists d'. auto.
Qed.

Lemma has_auth_decorator_iff (decs : list expr) :
  has_auth_decorator decs = true <->
  exists d nm, In d decs /\ decorator_name d = Some nm /\ In nm AUTH_DECORATORS.
Proof.
  unfold has_auth_decorator, is_auth_decorator. rewrite existsb_exists. split.
  - intros (d & Hin & H). destruct (decorator_name d) as [nm|] eqn:E;
      [|discriminate].
    apply existsb_exists in H as (a & Ha & Heq).
    apply String.eqb_eq in Heq. subst a. exists d, nm. auto.
  - intros (d & nm & Hin & Hn & Ha). exists d. split; [exact Hin|].
    rewrite Hn. apply existsb_exists. exists nm. split; [exact Ha|].
    apply String.eqb_refl.
Qed.

(** The intersection test of the rule is empty exactly when no decorator
    contributes an allow-listed name. *)
Lemma decorator_inter_nil (decs : list expr) :
  set_inter string_dec (fold_left add_decorator decs (empty_set string))
            AUTH_DECORATORS = [] <->
  has_auth_decorator decs = false.
Proof.
  split.
  - intros Hnil. destruct (has_auth_decorator decs) eqn:E; [|reflexivity].
    apply has_auth_decorator_iff in E as (d & nm & Hin & Hn & Ha).
    assert (Hx : set_In nm (set_inter string_dec
              (fold_left add_decorator decs (empty_set string))
              AUTH_DECORATORS)).
    { apply set_inter_intro; [|exact Ha].
      apply decorator_names_In. right. exists d. auto. }
    rewrite Hnil in Hx. destruct Hx.
  - intros Hno.
    destruct (set_inter string_dec
                (fold_left add_decorator decs (empty_set string))
                AUTH_DECORATORS) as [|x rest] eqn:E; [reflexivity|].
    assert (Hx : set_In x (set_inter string_dec
              (fold_left add_decorator decs (empty_set string))
              AUTH_DECORATORS)) by (rewrite E; left; reflexivity).
    apply set_inter_elim in Hx as [H1 H2].
    apply decorator_names_In in H1 as [[] | (d & Hin & Hn)].
    assert (has_auth_decorator decs = true)
      by (apply has_auth_decorator_iff; exists d, x; auto).
    congruence.
Qed.

Lemma check_missing_auth_emit tree filepath rel_path findings :
  check_missing_auth tree filepath rel_path findings =
  findings ++ flat_map (missing_auth_expected rel_path) (walk (NMod tree)).
Proof.
  unfold check_missing_auth. apply fold_left_emit. intros acc n.
  destruct n as [m|s|e|h|k|a|a]; try (simpl; now rewrite app_nil_r).
  destruct s; try (simpl; now rewrite app_nil_r).
  cbn [missing_auth_expected].
  destruct (is_view name); cbn [negb andb]; [|now rewrite app_nil_r].
  destruct (has_auth_decorator decorator_list) eqn:E.
  - destruct (set_inter string_dec
                (fold_left add_decorator decorator_list (empty_set string))
                AUTH_DECORATORS) eqn:Hi.
    + apply decorator_inter_nil in Hi. congruence.
    + cbn [negb]. now rewrite app_nil_r.
  - apply decorator_inter_nil in E. rewrite E. reflexivity.
Qed.

Lemma flat_map_nil (A B : Type) (f : A -> list B) (l : list A) :
  (forall x, In x l -> f x = []) -> flat_map f l = [].
Proof.
  induction l as [|x l IH]; intros H; simpl; [reflexivity|].
  rewrite (H x (or_introl eq_refl)), IH; [reflexivity|].
  intros y Hy. apply H. now right.
Qed.

Lemma unannotated_public_step kind rel_path acc name returns lineno :
  forall a body decs,
  (if negb (startswith name "_") then
     match returns with
     | None => acc ++ [type_hint_finding kind rel_path name lineno]
     | Some _ => acc
     end
   else acc) =
  acc ++ unannotated_public kind rel_path
           (FunctionDef name a body decs returns lineno).
Proof.
  intros a body decs. simpl.
  destruct returns; destruct (startswith name "_"); simpl;
    rewrite ?app_nil_r; reflexivity.
Qed.

Lemma check_missing_type_hints_emit body filepath rel_path findings :
  check_missing_type_hints (AstModule body) filepath rel_path findings =
  findings ++ flat_map (type_hint_expected rel_path) body.
Proof.
  unfold check_missing_type_hints. cbn [iter_child_nodes].
  rewrite fold_left_emit
    with (emit := fun n => match n with
                           | NStmt s => type_hint_expected rel_path s
                           | _ => []
                           end).
  - now rewrite flat_map_map.
  - intros acc n.
    destruct n as [m|s|e|h|k|a|a]; try (now rewrite app_nil_r).
    destruct s; try (now rewrite app_nil_r).
    + apply (unannotated_public_step "function").
    + cbn [type_hint_expected iter_child_nodes].
      rewrite fold_left_emit
        with (emit := fun n => match n with
                               | NStmt s => unannotated_public "method" rel_path s
                               | _ => []
                               end).
      * f_equal. rewrite !flat_map_app, !flat_map_map.
        rewrite (flat_map_nil _ bases), (flat_map_nil _ keywords),
          (flat_map_nil _ decorator_list) by reflexivity.
        now rewrite app_nil_r.
      * intros acc' n.
        destruct n as [m|s|e|h|k|a|a]; try (now rewrite app_nil_r).
        destruct s; try (now rewrite app_nil_r).
        apply (unannotated_public_step "method").
Qed.

Lemma nth_error_nth_default (A : Type) (l : list A) (i : nat) (d : A) :
  nth_error l i = if i <? List.length l then Some (nth i l d) else None.
Proof.
  destruct (Nat.ltb_spec i (List.length l)) as [Hlt|Hge].
  - now apply nth_error_nth'.
  - now apply nth_error_None.
Qed.

Lemma check_empty_except_body_emit read_text tree filepath rel_path findings :
  check_empty_except_body read_text tree filepath rel_path findings =
  match readlines read_text filepath with
  | None => findings
  | Some source_lines =>
      findings ++ flat_map (empty_except_expected source_lines rel_path)
                           (walk (NMod tree))
  end.
Proof.
  unfold check_empty_except_body.
  destruct (readlines read_text filepath) as [source_lines|]; [|reflexivity].
  apply fold_left_emit. intros acc n.
  destruct n as [m|s|e|[t nm body l]|k|a|a]; try (simpl; now rewrite app_nil_r).
  destruct body as [|[] [|]]; try (simpl; now rewrite app_nil_r).
  cbn [empty_except_expected].
  rewrite (nth_error_nth_default source_lines _ EmptyString).
  destruct (Pos.to_nat lineno0 - 1 <? List.length source_lines);
    [|now rewrite app_nil_r].
  cbv zeta.
  destruct (contains "#" (nth (Pos.to_nat lineno0 - 1) source_lines EmptyString));
    simpl; rewrite ?app_nil_r; reflexivity.
Qed.

Lemma check_hardcoded_secrets_emit read_text filepath rel_path findings :
  check_hardcoded_secrets read_text filepath rel_path findings =
  match readlines read_text filepath with
  | None => findings
  | Some lines =>
      findings ++ flat_map (secret_expected rel_path) (enumerate_from 1 lines)
  end.
Proof.
  unfold check_hardcoded_secrets.
  destruct (readlines read_text filepath) as [lines|]; [|reflexivity].
  apply fold_left_emit. intros acc [i line].
  unfold secret_expected, is_comment.
  destruct (startswith (strip line) "#"); [now rewrite app_nil_r|].
  destruct (first_secret SECRET_PATTERNS line); simpl;
    rewrite ?app_nil_r; reflexivity.
Qed.

Lemma check_print_statements_emit tree filepath rel_path findings :
  check_print_statements tree filepath rel_path findings =
  findings ++
  (let prints := map snd (flat_map (call_site ["print"]) (walk (NMod tree))) in
   if 3 <? List.length prints
   then [print_aggregate rel_path (hd xH prints) (List.length prints)]
   else map (print_single rel_path) prints).
Proof.
  unfold check_print_statements. rewrite check_print_lines. cbv zeta.
  destruct (3 <? _); [reflexivity|].
  rewrite fold_left_emit with (emit := fun l => [print_single rel_path l]);
    [|reflexivity].
  apply (f_equal (app findings)).
  generalize (map snd (flat_map (call_site ["print"]) (walk (NMod tree)))).
  intros l. induction l as [|x l IH]; simpl; [reflexivity | now rewrite IH].
Qed.

(** *** The secret scan, line by line *)

Lemma secret_expected_line rel_path i text f :
  In f (secret_expected rel_path (i, text)) -> line f = i.
Proof.
  unfold secret_expected.
  destruct (is_comment text); [intros []|].
  destruct (first_secret SECRET_PATTERNS text); [|intros []].
  intros [<- | []]. reflexivity.
Qed.

Lemma enumerate_from_lines rel_path (lines : list string) : forall k f,
  In f (flat_map (secret_expected rel_path) (enumerate_from k lines)) ->
  (k <= line f)%positive.
Proof.
  induction lines as [|x lines IH]; intros k f; simpl; [intros []|].
  rewrite in_app_iff. intros [H | H].
  - apply secret_expected_line in H. lia.
  - apply IH in H. lia.
Qed.

Lemma filter_none (A : Type) (p : A -> bool) (l : list A) :
  (forall x, In x l -> p x = false) -> filter p l = [].
Proof.
  induction l as [|x l IH]; intros H; simpl; [reflexivity|].
  rewrite (H x (or_introl eq_refl)). apply IH. intros y Hy. apply H. now right.
Qed.

Lemma filter_all (A : Type) (p : A -> bool) (l : list A) :
  (forall x, In x l -> p x = true) -> filter p l = l.
Proof.
  induction l as [|x l IH]; intros H; simpl; [reflexivity|].
  rewrite (H x (or_introl eq_refl)). f_equal. apply IH.
  intros y Hy. apply H. now right.
Qed.

(** The findings located at line [i + 1] are those of the [i]-th line read. *)
Lemma secret_findings_at_line rel_path (lines : list string) :
  forall k i text,
  nth_error lines i = Some text ->
  filter (at_line (Nat.iter i Pos.succ k))
         (flat_map (secret_expected rel_path) (enumerate_from k lines)) =
  secret_expected rel_path (Nat.iter i Pos.succ k, text).
Proof.
  induction lines as [|x lines IH]; intros k i text Hnth.
  - destruct i; discriminate.
  - cbn [enumerate_from flat_map]. rewrite filter_app.
    destruct i as [|i]; cbn [nth_error] in Hnth.
    + injection Hnth as ->. change (Nat.iter 0 Pos.succ k) with k.
      rewrite (@filter_all _ _ (secret_expected rel_path (k, text))).
      * rewrite filter_none; [apply app_nil_r|].
        intros f Hf. apply enumerate_from_lines in Hf.
        unfold at_line. apply Pos.eqb_neq. lia.
      * intros f Hf. apply secret_expected_line in Hf.
        unfold at_line. apply Pos.eqb_eq. exact Hf.
    + rewrite Nat.iter_succ_r. rewrite (IH _ _ _ Hnth).
      rewrite filter_none; [reflexivity|].
      intros f Hf. apply secret_expected_line in Hf.
      unfold at_line. apply Pos.eqb_neq. rewrite Hf.
      clear. assert (H : forall j n, (j <= Nat.iter n Pos.succ j)%positive).
      { intros j n. induction n; simpl; lia. }
      specialize (H (Pos.succ k) i). lia.
Qed.

Lemma iter_succ_of_succ_nat (i : nat) :
  Nat.iter i Pos.succ 1%positive = Pos.of_succ_nat i.
Proof. induction i; simpl; congruence. Qed.

(** The inner loop stops at the first pattern found in the line. *)
Lemma first_secret_first (patterns : list (regex * string)) (text : string) :
  forall k pattern label,
  nth_error patterns k = Some (pattern, label) ->
  search pattern text = true ->
  (forall j p l, j < k -> nth_error patterns j = Some (p, l) ->
                 search p text = false) ->
  first_secret patterns text = Some label.
Proof.
  induction patterns as [|[p0 l0] patterns IH]; intros k pattern label Hk Hs Hbefore.
  - destruct k; discriminate.
  - destruct k as [|k]; simpl in *.
    + injection Hk as -> ->. now rewrite Hs.
    + rewrite (Hbefore 0 p0 l0) by (lia || reflexivity).
      apply (IH k pattern label Hk Hs).
      intros j p l Hj. apply (Hbefore (S j)). lia.
Qed.

Lemma first_secret_none (patterns : list (regex * string)) (text : string) :
  (forall p l, In (p, l) patterns -> search p text = false) ->
  first_secret patterns text = None.
Proof.
  induction patterns as [|[p0 l0] patterns IH]; intros H; simpl; [reflexivity|].
  rewrite (H p0 l0) by now left. apply IH. intros p l Hin. apply (H p l).
  now right.
Qed.

(** [c in s] for a one-character needle. *)
Lemma contains_char (c : ascii) (s : string) :
  contains (String c EmptyString) s = true <-> In c (list_ascii_of_string s).
Proof.
  induction s as [|a s IH]; simpl.
  - split; [discriminate | intros []].
  - destruct (ascii_dec c a) as [->|Hne].
    + split; [auto | intros _; destruct s; reflexivity].
    + simpl. rewrite IH. split; [auto | intros [H | H]; congruence].
Qed.

End RuleFacts.

(* ------------------------------------------------------------------------- *)
(** ** The final sort *)

Module SortFacts.
Import PyAst PyStr Review Spec.

Lemma string_compare_refl (s : string) : String.compare s s = Eq.
Proof.
  pose proof (String.compare_antisym s s) as H.
  destruct (String.compare s s); simpl in H; congruence.
Qed.

Lemma key_compare_antisym a b : key_compare a b = CompOpp (key_compare b a).
Proof.
  destruct a as [[r1 f1] l1], b as [[r2 f2] l2]; simpl.
  assert (Hr : (r2 ?= r1) = CompOpp (r1 ?= r2)) by apply Nat.compare_antisym.
  assert (Hf : String.compare f2 f1 = CompOpp (String.compare f1 f2))
    by apply String.compare_antisym.
  assert (Hl : (l2 ?= l1)%positive = CompOpp (l1 ?= l2)%positive)
    by apply Pos.compare_antisym.
  rewrite Hr, Hf, Hl.
  destruct (r1 ?= r2); simpl; try reflexivity.
  destruct (String.compare f1 f2); simpl; try reflexivity.
  now rewrite CompOpp_involutive.
Qed.

Lemma key_compare_eq a b : key_compare a b = Eq -> a = b.
Proof.
  destruct a as [[r1 f1] l1], b as [[r2 f2] l2]; simpl.
  destruct (r1 ?= r2) eqn:Er; try discriminate.
  destruct (String.compare f1 f2) eqn:Ef; try discriminate.
  intros El. apply Nat.compare_eq in Er. apply String.compare_eq_iff in Ef.
  apply Pos.compare_eq in El. congruence.
Qed.

Lemma key_compare_refl a : key_compare a a = Eq.
Proof.
  destruct a as [[r f] l]; simpl.
  now rewrite Nat.compare_refl, string_compare_refl, Pos.compare_refl.
Qed.

Lemma key_lt_asym a b : key_lt a b = true -> key_lt b a = false.
Proof.
  unfold key_lt. rewrite (key_compare_antisym b a).
  destruct (key_compare a b); simpl; congruence.
Qed.

(** The comparison of the keys is the lexicographic order of the report. *)
Lemma key_le_finding_le (a b : Finding) :
  key_le (sort_key a) (sort_key b) = true <-> finding_le a b.
Proof.
  unfold key_le, key_lt, finding_le, sort_key.
  rewrite (key_compare_antisym (_, file b, line b)). simpl.
  fold (severity_rank (severity a)) (severity_rank (severity b)).
  destruct (Nat.compare_spec (severity_rank (severity a))
                             (severity_rank (severity b))) as [Hr|Hr|Hr];
    simpl.
  - destruct (String.compare (file a) (file b)) eqn:Ef; simpl.
    + apply String.compare_eq_iff in Ef.
      destruct (Pos.compare_spec (line a) (line b)) as [Hl|Hl|Hl]; simpl;
        split; intros H; try reflexivity; try discriminate.
      * right. split; [exact Hr|]. right. split; [exact Ef|]. lia.
      * right. split; [exact Hr|]. right. split; [exact Ef|]. lia.
      * destruct H as [H | [_ [H | [_ H]]]]; try lia; discriminate.
    + split; [intros _|reflexivity]. right. split; [exact Hr|]. now left.
    + split; [discriminate|].
      intros [H | [_ [H | [H _]]]]; [lia|discriminate|].
      rewrite H, string_compare_refl in Ef. discriminate.
  - split; [intros _; now left | reflexivity].
  - split; [discriminate|]. intros [H | [H _]]; lia.
Qed.

Lemma insert_finding_perm x l : Permutation (insert_finding x l) (x :: l).
Proof.
  induction l as [|y l IH]; simpl; [reflexivity|].
  destruct (key_lt (sort_key y) (sort_key x)); [|reflexivity].
  rewrite IH. apply perm_swap.
Qed.

Lemma sort_findings_perm l : Permutation (sort_findings l) l.
Proof.
  induction l as [|x l IH]; simpl; [constructor|].
  rewrite insert_finding_perm. now constructor.
Qed.

Lemma insert_finding_sorted x l :
  Sorted finding_le l -> Sorted finding_le (insert_finding x l).
Proof.
  induction l as [|y l IH]; intros Hs; simpl.
  - repeat constructor.
  - destruct (key_lt (sort_key y) (sort_key x)) eqn:E.
    + inversion Hs as [|? ? Hs' Hhd]; subst.
      constructor; [now apply IH|].
      assert (Hyx : finding_le y x).
      { apply key_le_finding_le. unfold key_le.
        now rewrite (key_lt_asym _ _ E). }
      destruct l as [|z l]; simpl.
      * now constructor.
      * destruct (key_lt (sort_key z) (sort_key x)); constructor;
          [now inversion Hhd | exact Hyx].
    + constructor; [exact Hs|]. constructor.
      apply key_le_finding_le. unfold key_le. now rewrite E.
Qed.

Lemma sort_findings_sorted l : Sorted finding_le (sort_findings l).
Proof.
  induction l as [|x l IH]; simpl; [constructor|].
  now apply insert_finding_sorted.
Qed.

(** Insertion never moves a finding past one with the same key. *)
Lemma insert_finding_stable k x l :
  filter (same_key k) (insert_finding x l) = filter (same_key k) (x :: l).
Proof.
  induction l as [|y l IH]; [reflexivity|].
  cbn [insert_finding].
  destruct (key_lt (sort_key y) (sort_key x)) eqn:E; [|reflexivity].
  cbn [filter] in *. rewrite IH.
  destruct (same_key k x) eqn:Ex; [|reflexivity].
  destruct (same_key k y) eqn:Ey; [|reflexivity].
  exfalso. unfold same_key in Ex, Ey.
  destruct (key_compare (sort_key x) k) eqn:Cx; try discriminate.
  destruct (key_compare (sort_key y) k) eqn:Cy; try discriminate.
  apply key_compare_eq in Cx, Cy. unfold key_lt in E.
  rewrite Cx, Cy, key_compare_refl in E. discriminate.
Qed.

Lemma sort_findings_stable k l :
  filter (same_key k) (sort_findings l) = filter (same_key k) l.
Proof.
  induction l as [|x l IH]; [reflexivity|].
  cbn [sort_findings fold_right]. rewrite insert_finding_stable.
  cbn [filter]. fold (sort_findings l). now rewrite IH.
Qed.

Lemma filter_length_perm (A : Type) (p : A -> bool) (l l' : list A) :
  Permutation l l' -> List.length (filter p l) = List.length (filter p l').
Proof.
  induction 1; simpl; try congruence.
  - destruct (p x); simpl; congruence.
  - destruct (p x), (p y); reflexivity.
Qed.

(** *** The stable sorted arrangement is unique

    Whatever algorithm [list.sort] runs, its result is the one computed by
    [sort_findings]: a permutation that is sorted and keeps the order of
    equal keys is determined by these three properties. *)

Lemma string_lt_trans (a b c : string) :
  String.compare a b = Lt -> String.compare b c = Lt ->
  String.compare a c = Lt.
Proof.
  intros H1 H2. apply String_as_OT.cmp_lt.
  apply String_as_OT.cmp_lt in H1, H2.
  exact (String_as_OT.lt_trans _ _ _ H1 H2).
Qed.

Lemma finding_le_refl (a : Finding) : finding_le a a.
Proof. right. split; [reflexivity|]. right. split; [reflexivity | lia]. Qed.

Lemma finding_le_trans : Transitive finding_le.
Proof.
  intros a b c [H1 | [E1 [F1 | [G1 L1]]]] [H2 | [E2 [F2 | [G2 L2]]]];
    try (left; lia); right; (split; [lia|]).
  - left. exact (string_lt_trans _ _ _ F1 F2).
  - left. now rewrite <- G2.
  - left. now rewrite G1.
  - right. split; [congruence | lia].
Qed.

Lemma finding_le_antisym (a b : Finding) :
  finding_le a b -> finding_le b a -> sort_key a = sort_key b.
Proof.
  intros Hab Hba. apply key_le_finding_le in Hab, Hba.
  unfold key_le, key_lt in Hab, Hba.
  rewrite (key_compare_antisym (sort_key a) (sort_key b)) in Hba.
  destruct (key_compare (sort_key b) (sort_key a)) eqn:E;
    simpl in *; try discriminate.
  symmetry. now apply key_compare_eq.
Qed.

Lemma same_key_refl (a : Finding) : same_key (sort_key a) a = true.
Proof. unfold same_key. now rewrite key_compare_refl. Qed.

Lemma sorted_stable_unique (l1 : list Finding) : forall l2,
  Permutation l1 l2 ->
  Sorted finding_le l1 -> Sorted finding_le l2 ->
  (forall k, filter (same_key k) l1 = filter (same_key k) l2) ->
  l1 = l2.
Proof.
  induction l1 as [|x t1 IH]; intros l2 Hperm Hs1 Hs2 Hst.
  - now apply Permutation_nil in Hperm.
  - destruct l2 as [|y t2];
      [apply Permutation_sym, Permutation_nil in Hperm; discriminate|].
    pose proof (Sorted_StronglySorted finding_le_trans Hs1) as Hss1.
    pose proof (Sorted_StronglySorted finding_le_trans Hs2) as Hss2.
    inversion Hss1 as [|? ? _ Hx]; subst.
    inversion Hss2 as [|? ? _ Hy]; subst.
    rewrite Forall_forall in Hx, Hy.
    assert (Hxy : finding_le x y).
    { assert (Hin : In y (x :: t1))
        by (apply (Permutation_in _ (Permutation_sym Hperm)); now left).
      destruct Hin as [-> | Hin]; [apply finding_le_refl | now apply Hx]. }
    assert (Hyx : finding_le y x).
    { assert (Hin : In x (y :: t2))
        by (apply (Permutation_in _ Hperm); now left).
      destruct Hin as [-> | Hin]; [apply finding_le_refl | now apply Hy]. }
    pose proof (finding_le_antisym Hxy Hyx) as Hkey.
    pose proof (Hst (sort_key x)) as Hhead. cbn [filter] in Hhead.
    rewrite same_key_refl in Hhead.
    rewrite Hkey, same_key_refl in Hhead. injection Hhead as -> _.
    f_equal. apply IH.
    + now apply Permutation_cons_inv in Hperm.
    + now inversion Hs1.
    + now inversion Hs2.
    + intros k. specialize (Hst k). cbn [filter] in Hst.
      destruct (same_key k y); [now injection Hst | exact Hst].
Qed.

Lemma stable_sort_unique (l l' : list Finding) :
  Permutation l' l -> Sorted finding_le l' ->
  (forall k, filter (same_key k) l' = filter (same_key k) l) ->
  l' = sort_findings l.
Proof.
  intros Hperm Hsorted Hstable. apply sorted_stable_unique.
  - rewrite Hperm. apply Permutation_sym, sort_findings_perm.
  - exact Hsorted.
  - apply sort_findings_sorted.
  - intros k. now rewrite Hstable, sort_findings_stable.
Qed.

End SortFacts.

(* ------------------------------------------------------------------------- *)
(** ** The per-file pipeline and the loop of [main] *)

Module EngineFacts.
Import PyAst PyStr Review Spec RuleFacts SortFacts.

Section Env.
Variable read_text : string -> option string.
Variable ast_parse : string -> parse_result.
Variable relative_to : string -> option string.

Lemma analyze_file_parsed filepath rel_path source tree findings :
  relative_to filepath = Some rel_path ->
  read_text filepath = Some source -> ast_parse source = Parsed tree ->
  analyze_file read_text ast_parse relative_to filepath findings =
  Returned (findings ++ file_findings source tree rel_path, true).
Proof.
  intros Hrel Hr Hp. unfold analyze_file, rel_path_of. rewrite Hrel.
  cbn [bind]. rewrite Hr, Hp.
  rewrite check_hardcoded_secrets_emit, check_empty_except_body_emit.
  unfold readlines. rewrite Hr. cbn [option_map].
  destruct tree as [body].
  rewrite check_missing_type_hints_emit, check_sql_injection_emit,
    check_eval_exec_emit, check_print_statements_emit,
    check_bare_except_emit, check_missing_auth_emit.
  unfold file_findings. cbv zeta.
  rewrite <- !app_assoc. reflexivity.
Qed.

(** [analyze_file] by what becomes of the file. *)
Lemma analyze_file_cases filepath findings :
  analyze_file read_text ast_parse relative_to filepath findings =
  match per_file read_text ast_parse relative_to filepath with
  | Aborts => Raised
  | Skipped => Returned (findings, false)
  | Scanned _ added => Returned (findings ++ added, true)
  end.
Proof.
  unfold per_file.
  destruct (relative_to filepath) as [rel_path|] eqn:Hrel;
    [|unfold analyze_file, rel_path_of; now rewrite Hrel].
  destruct (read_text filepath) as [source|] eqn:Hr;
    [|unfold analyze_file, rel_path_of; now rewrite Hrel, Hr].
  destruct (ast_parse source) as [tree| |] eqn:Hp;
    [now apply analyze_file_parsed| |];
    unfold analyze_file, rel_path_of; now rewrite Hrel, Hr, Hp.
Qed.

Lemma scan_step_cases st filepath :
  scan_step read_text ast_parse relative_to st filepath =
  match per_file read_text ast_parse relative_to filepath with
  | Aborts => Raised
  | Skipped => Returned st
  | Scanned rel_path added =>
      Returned
        (mkScan (acc_findings st ++ added)
                (match added with
                 | [] => acc_clean_files st ++ [rel_path]
                 | _ :: _ => acc_clean_files st
                 end)
                (acc_scanned st + 1))
  end.
Proof.
  unfold scan_step. rewrite analyze_file_cases.
  assert (Hrel : forall rel_path added,
            per_file read_text ast_parse relative_to filepath =
              Scanned rel_path added ->
            relative_to filepath = Some rel_path).
  { unfold per_file. intros rel_path added.
    destruct (relative_to filepath) as [r|]; [|discriminate].
    destruct (read_text filepath) as [source|]; [|discriminate].
    destruct (ast_parse source); try discriminate.
    now intros [= -> _]. }
  destruct (per_file read_text ast_parse relative_to filepath)
    as [| |rel_path added] eqn:E; cbn [bind]; [reflexivity | now destruct st|].
  unfold rel_path_of. rewrite (Hrel rel_path added eq_refl).
  destruct added as [|f added].
  - now rewrite app_nil_r, Nat.eqb_refl.
  - destruct (Nat.eqb_spec (List.length (acc_findings st ++ f :: added))
                           (List.length (acc_findings st))) as [E'|E'];
      [|reflexivity].
    rewrite length_app in E'. simpl in E'. lia.
Qed.

Lemma scan_from_app pre post : forall st,
  scan_from read_text ast_parse relative_to st (pre ++ post) =
  (st' <- scan_from read_text ast_parse relative_to st pre ;;
   scan_from read_text ast_parse relative_to st' post).
Proof.
  induction pre as [|p pre IH]; intros st; [reflexivity|].
  cbn [app scan_from].
  destruct (scan_step read_text ast_parse relative_to st p) as [st'|];
    cbn [bind]; [apply IH | reflexivity].
Qed.

End Env.

Lemma count_with_confidence (p : Finding -> bool) g l :
  (forall f, p (with_confidence g f) = p f) ->
  List.length (filter p (sort_findings (map (with_confidence g) l))) =
  List.length (filter p (sort_findings l)).
Proof.
  intros Hp.
  rewrite (filter_length_perm p (sort_findings_perm _)),
    (filter_length_perm p (sort_findings_perm l)).
  induction l as [|x l IH]; simpl; [reflexivity|].
  rewrite Hp. destruct (p x); simpl; congruence.
Qed.

Lemma summarize_cases scanned findings clean_files :
  let r := summarize scanned findings clean_files in
  let c := List.length (filter is_critical (sort_findings findings)) in
  let w := List.length (filter is_warning (sort_findings findings)) in
  report_findings r = sort_findings findings /\
  critical_count r = c /\ warning_count r = w /\
  ((0 < c /\ verdict r = REQUEST_CHANGES /\ exit_status r = 1) \/
   (c = 0 /\ 0 < w /\ verdict r = COMMENT /\ exit_status r = 0) \/
   (c = 0 /\ w = 0 /\ verdict r = APPROVE /\ exit_status r = 0)).
Proof.
  unfold summarize. cbv zeta.
  destruct (Nat.ltb_spec 0
              (List.length (filter is_critical (sort_findings findings))));
    [|destruct (Nat.ltb_spec 0
              (List.length (filter is_warning (sort_findings findings))))];
    cbn [report_findings critical_count warning_count verdict exit_status];
    repeat split; try reflexivity.
  - left. auto.
  - right. left. repeat split; auto; lia.
  - right. right. repeat split; auto; lia.
Qed.

Lemma summarize_confidence (g : Finding -> nat) scanned findings clean_files :
  let r1 := summarize scanned findings clean_files in
  let r2 := summarize scanned (map (with_confidence g) findings) clean_files in
  verdict r2 = verdict r1 /\ exit_status r2 = exit_status r1.
Proof.
  cbv zeta.
  destruct (summarize_cases scanned findings clean_files)
    as (_ & _ & _ & Hv1).
  destruct (summarize_cases scanned (map (with_confidence g) findings)
              clean_files) as (_ & _ & _ & Hv2).
  cbv zeta in Hv1, Hv2.
  rewrite (@count_with_confidence is_critical g findings) in Hv2
    by reflexivity.
  rewrite (@count_with_confidence is_warning g findings) in Hv2
    by reflexivity.
  set (c := List.length (filter is_critical (sort_findings findings))) in *.
  set (w := List.length (filter is_warning (sort_findings findings))) in *.
  destruct Hv1 as [(? & E1 & E2) | [(? & ? & E1 & E2) | (? & ? & E1 & E2)]];
    destruct Hv2 as [(? & F1 & F2) | [(? & ? & F1 & F2) | (? & ? & F1 & F2)]];
    try lia; rewrite E1, E2, F1, F2; split; reflexivity.
Qed.

End EngineFacts.

Unset Implicit Arguments.

(* ------------------------------------------------------------------------- *)
(** ** Verdict, order of the report, file isolation *)

Module RunClaims.
Import PyAst PyStr Review Spec RuleFacts SortFacts EngineFacts.

(** C1. A run that reaches its end pools the findings of the loop; the
    report holds them, and its two counts are the numbers of CRITICAL and of
    WARNING findings among them.  The verdict is REQUEST CHANGES exactly when
    the CRITICAL count is positive, and then the exit status is 1; it is
    APPROVE exactly when both counts are zero or the scan list is empty; it
    is COMMENT in every other case; the exit status is 0 for APPROVE and
    COMMENT.  Verdict and status are the function [spec_verdict] of the two
    counts and the empty-scan-set flag, and replacing the confidence of the
    pooled findings by anything else changes neither.  [main] returns
    exactly when the loop does; otherwise the script exits with status 2 and
    gives no verdict. *)
Theorem verdict_from_counts
  (read_text : string -> option string)
  (ast_parse : string -> parse_result)
  (relative_to : string -> option string) (py_files : list string) :
  let no_files := match py_files with [] => true | _ :: _ => false end in
  match scan_loop read_text ast_parse relative_to py_files,
        main read_text ast_parse relative_to py_files with
  | Returned st, Returned r =>
      let pooled := acc_findings st in
      Permutation (report_findings r) pooled /\
      critical_count r = List.length (filter is_critical pooled) /\
      warning_count r = List.length (filter is_warning pooled) /\
      (verdict r = REQUEST_CHANGES <-> 0 < critical_count r) /\
      (verdict r = APPROVE <->
         (critical_count r = 0 /\ warning_count r = 0) \/ py_files = []) /\
      (verdict r = COMMENT <->
         ~ 0 < critical_count r /\
         ~ ((critical_count r = 0 /\ warning_count r = 0) \/ py_files = [])) /\
      exit_status r = (match verdict r with REQUEST_CHANGES => 1 | _ => 0 end) /\
      script_exit read_text ast_parse relative_to py_files = exit_status r /\
      (verdict r, exit_status r) =
        spec_verdict (critical_count r) (warning_count r) no_files
  | Raised, Raised =>
      script_exit read_text ast_parse relative_to py_files = 2
  | _, _ => False
  end /\
  (forall (g : Finding -> nat) scanned findings clean_files,
     let r1 := summarize scanned findings clean_files in
     let r2 := summarize scanned (map (with_confidence g) findings)
                         clean_files in
     verdict r2 = verdict r1 /\ exit_status r2 = exit_status r1).
Proof.
  cbv zeta. split; [|intros; apply summarize_confidence].
  destruct py_files as [|p rest].
  - cbn [scan_loop scan_from main script_exit acc_findings critical_count
         warning_count verdict exit_status report_findings filter
         List.length].
    split; [constructor|]. split; [reflexivity|]. split; [reflexivity|].
    split; [split; [discriminate | intros H; inversion H]|].
    split; [split; [intros _; right; reflexivity | reflexivity]|].
    split; [split; [discriminate | intros [_ H]; exfalso; apply H; now right]|].
    split; [reflexivity|]. split; reflexivity.
  - unfold script_exit. cbn [main].
    destruct (scan_loop read_text ast_parse relative_to (p :: rest))
      as [st|]; cbn [bind]; [|reflexivity].
    destruct (summarize_cases (acc_scanned st) (acc_findings st)
                (acc_clean_files st)) as (Hf & Hc & Hw & Hv).
    cbv zeta in Hf, Hc, Hw, Hv.
    rewrite <- (filter_length_perm is_critical
                  (sort_findings_perm (acc_findings st))),
            <- (filter_length_perm is_warning
                  (sort_findings_perm (acc_findings st))).
    set (r := summarize (acc_scanned st) (acc_findings st)
                (acc_clean_files st)) in *.
    split; [rewrite Hf; apply sort_findings_perm|].
    rewrite <- Hc, <- Hw in Hv |- *.
    split; [reflexivity|]. split; [reflexivity|].
    unfold spec_verdict.
    destruct Hv as [(H0 & Hv1 & Hv2) | [(H0 & H1 & Hv1 & Hv2)
                                       | (H0 & H1 & Hv1 & Hv2)]];
      rewrite Hv1, Hv2.
    + destruct (Nat.ltb_spec 0 (critical_count r)); [|lia].
      split; [split; [intros _; exact H0 | reflexivity]|].
      split; [split; [discriminate | intros [[? ?] | ?]; [lia | discriminate]]|].
      split; [split; [discriminate | intros [? _]; contradiction]|].
      split; [reflexivity|]. split; reflexivity.
    + rewrite H0. destruct (Nat.eqb_spec (warning_count r) 0); [lia|].
      split; [split; [discriminate | intros ?; lia]|].
      split; [split; [discriminate | intros [[? ?] | ?]; [lia | discriminate]]|].
      split; [split; [intros _; split; [lia|];
                      intros [[? ?] | ?]; [lia | discriminate]
                     | reflexivity]|].
      split; [reflexivity|]. split; reflexivity.
    + rewrite H0, H1.
      split; [split; [discriminate | intros ?; lia]|].
      split; [split; [intros _; left; split; reflexivity | reflexivity]|].
      split; [split; [discriminate
                     | intros [_ H]; exfalso; apply H; left; split; reflexivity]|].
      split; [reflexivity|]. split; reflexivity.
Qed.

(** C3. The findings of the report are the pooled findings, reordered so
    that every adjacent pair is non-decreasing in (severity rank, file path,
    line), CRITICAL ranking before WARNING, paths compared as strings and
    lines as numbers; findings with the same three keys stay in the order in
    which they were appended.  No other arrangement of the pooled findings
    has these properties.  There is a report exactly when the loop reaches
    its end. *)
Theorem report_sorted_and_stable
  (read_text : string -> option string)
  (ast_parse : string -> parse_result)
  (relative_to : string -> option string) (py_files : list string) :
  match scan_loop read_text ast_parse relative_to py_files,
        main read_text ast_parse relative_to py_files with
  | Returned st, Returned r =>
      let pooled := acc_findings st in
      let out := report_findings r in
      Sorted finding_le out /\
      Permutation out pooled /\
      (forall k, filter (same_key k) out = filter (same_key k) pooled) /\
      (forall l,
         Permutation l pooled -> Sorted finding_le l ->
         (forall k, filter (same_key k) l = filter (same_key k) pooled) ->
         l = out) /\
      severity_rank CRITICAL < severity_rank WARNING
  | Raised, Raised => True
  | _, _ => False
  end.
Proof.
  assert (Hsorted : forall pooled,
            Sorted finding_le (sort_findings pooled) /\
            Permutation (sort_findings pooled) pooled /\
            (forall k, filter (same_key k) (sort_findings pooled) =
                       filter (same_key k) pooled) /\
            (forall l,
               Permutation l pooled -> Sorted finding_le l ->
               (forall k, filter (same_key k) l = filter (same_key k) pooled) ->
               l = sort_findings pooled) /\
            severity_rank CRITICAL < severity_rank WARNING).
  { intros pooled. split; [apply sort_findings_sorted|].
    split; [apply sort_findings_perm|].
    split; [intros k; apply sort_findings_stable|].
    split; [intros l; apply stable_sort_unique|].
    simpl. lia. }
  destruct py_files as [|p rest]; [exact (Hsorted [])|].
  cbn [main].
  destruct (scan_loop read_text ast_parse relative_to (p :: rest)) as [st|];
    cbn [bind]; [|exact I].
  cbv zeta.
  replace (report_findings
             (summarize (acc_scanned st) (acc_findings st)
                        (acc_clean_files st)))
    with (sort_findings (acc_findings st))
    by (symmetry; apply summarize_cases).
  apply Hsorted.
Qed.

(** C9. A file of the scan list that cannot be read, or whose parsing raises
    [SyntaxError], leaves the loop state as it was: no finding, no count, no
    clean-file entry, and the files after it are processed as if it had not
    been listed.  A file that parses adds one to the scanned total, appends
    what the rules report for it, and joins the clean list exactly when they
    report nothing.  A file on which the parser raises another exception, or
    whose path is not below the root, is not isolated: the exception leaves
    the loop and the script exits with status 2. *)
Theorem unparsed_files_are_isolated
  (read_text : string -> option string)
  (ast_parse : string -> parse_result)
  (relative_to : string -> option string)
  (pre post : list string) (filepath : string) (st : ScanState) :
  let loop := scan_loop read_text ast_parse relative_to in
  let step := scan_step read_text ast_parse relative_to in
  let after :=
    analyze_file read_text ast_parse relative_to filepath (acc_findings st) in
  let skipped :=
    after = Returned (acc_findings st, false) /\
    step st filepath = Returned st /\
    loop (pre ++ filepath :: post) = loop (pre ++ post) in
  let ended :=
    after = Raised /\ step st filepath = Raised /\
    loop (pre ++ filepath :: post) = Raised /\
    script_exit read_text ast_parse relative_to (pre ++ filepath :: post) = 2 in
  match relative_to filepath with
  | None => ended
  | Some rel_path =>
      match read_text filepath with
      | None => skipped
      | Some source =>
          match ast_parse source with
          | SyntaxError => skipped
          | OtherError => ended
          | Parsed tree =>
              exists added,
                after = Returned (acc_findings st ++ added, true) /\
                step st filepath =
                  Returned
                    (mkScan (acc_findings st ++ added)
                            (match added with
                             | [] => acc_clean_files st ++ [rel_path]
                             | _ :: _ => acc_clean_files st
                             end)
                            (acc_scanned st + 1)) /\
                loop (pre ++ filepath :: post) =
                  (st0 <- loop pre ;;
                   st1 <- step st0 filepath ;;
                   scan_from read_text ast_parse relative_to st1 post)
          end
      end
  end.
Proof.
  cbv zeta.
  pose proof (analyze_file_cases read_text ast_parse relative_to filepath
                (acc_findings st)) as Hafter.
  pose proof (scan_step_cases read_text ast_parse relative_to st filepath)
    as Hstep.
  assert (Hloop : scan_loop read_text ast_parse relative_to
                    (pre ++ filepath :: post) =
                  (st0 <- scan_loop read_text ast_parse relative_to pre ;;
                   st1 <- scan_step read_text ast_parse relative_to st0
                            filepath ;;
                   scan_from read_text ast_parse relative_to st1 post))
    by (unfold scan_loop; now rewrite scan_from_app).
  assert (Hskip : per_file read_text ast_parse relative_to filepath = Skipped ->
                  scan_loop read_text ast_parse relative_to
                    (pre ++ filepath :: post) =
                  scan_loop read_text ast_parse relative_to (pre ++ post)).
  { intros E. rewrite Hloop. unfold scan_loop. rewrite scan_from_app.
    destruct (scan_from read_text ast_parse relative_to (mkScan [] [] 0) pre)
      as [st0|]; cbn [bind]; [|reflexivity].
    now rewrite scan_step_cases, E. }
  assert (Hend : per_file read_text ast_parse relative_to filepath = Aborts ->
                 scan_loop read_text ast_parse relative_to
                   (pre ++ filepath :: post) = Raised /\
                 script_exit read_text ast_parse relative_to
                   (pre ++ filepath :: post) = 2).
  { intros E.
    assert (Hr : scan_loop read_text ast_parse relative_to
                   (pre ++ filepath :: post) = Raised).
    { rewrite Hloop.
      destruct (scan_loop read_text ast_parse relative_to pre) as [st0|];
        cbn [bind]; [|reflexivity].
      now rewrite scan_step_cases, E. }
    split; [exact Hr|]. unfold script_exit.
    destruct (pre ++ filepath :: post) eqn:El;
      [now destruct pre|].
    cbn [main]. now rewrite Hr. }
  unfold per_file in Hafter, Hstep, Hskip, Hend.
  destruct (relative_to filepath) as [rel_path|];
    [|rewrite Hafter, Hstep; destruct (Hend eq_refl); auto].
  destruct (read_text filepath) as [source|];
    [|rewrite Hafter, Hstep; auto].
  destruct (ast_parse source) as [tree| |].
  - exists (file_findings source tree rel_path).
    rewrite Hafter, Hstep. auto.
  - rewrite Hafter, Hstep. auto.
  - rewrite Hafter, Hstep. destruct (Hend eq_refl); auto.
Qed.

(** The file with a NUL character does not parse, and the run ends on it:
    the file listed after it, which alone gives a report, is not processed.
    The same happens with a file that cannot be read and lies outside the
    root. *)
Lemma parse_error_other_than_syntax_ends_run :
  (Demo.read_text "/repo/nul.py" = Some Demo.nul_source /\
   Demo.ast_parse Demo.nul_source = OtherError /\
   main Demo.read_text Demo.ast_parse Demo.relative_to
        ["/repo/nul.py"; "/repo/app.py"] = Raised /\
   script_exit Demo.read_text Demo.ast_parse Demo.relative_to
        ["/repo/nul.py"; "/repo/app.py"] = 2) /\
  (Demo.read_text "/srv/app.py" = None /\
   main Demo.read_text Demo.ast_parse Demo.relative_to
        ["/srv/app.py"; "/repo/app.py"] = Raised /\
   script_exit Demo.read_text Demo.ast_parse Demo.relative_to
        ["/srv/app.py"; "/repo/app.py"] = 2) /\
  exists r,
    main Demo.read_text Demo.ast_parse Demo.relative_to ["/repo/app.py"] =
      Returned r /\
    files_scanned r = 1 /\ List.length (report_findings r) = 3.
Proof.
  split; [repeat split; vm_compute; reflexivity|].
  split; [repeat split; vm_compute; reflexivity|].
  eexists. split; [vm_compute; reflexivity|]. split; reflexivity.
Qed.

End RunClaims.

(* ------------------------------------------------------------------------- *)
(** ** The rules *)

Module RuleClaims.
Import PyAst PyStr Re Review Spec WalkFacts RuleFacts EngineFacts.

Lemma prefix_app (sub s : string) :
  String.prefix sub s = true <-> exists post, s = (sub ++ post)%string.
Proof.
  revert s. induction sub as [|a sub IH]; intros s; simpl.
  - split; [intros _; now exists s | intros _; destruct s; reflexivity].
  - destruct s as [|b s]; [split; [discriminate | intros [post H]; discriminate]|].
    simpl. destruct (ascii_dec a b) as [->|Hne].
    + rewrite IH. split; intros [post H]; exists post; simpl in *; congruence.
    + split; [discriminate | intros [post H]; congruence].
Qed.

(** [sub in s] holds exactly when [s] is some text, [sub], some text. *)
Lemma contains_app (sub s : string) :
  contains sub s = true <->
  exists pre post, s = (pre ++ sub ++ post)%string.
Proof.
  induction s as [|a s IH]; cbn [contains].
  - rewrite orb_false_r, prefix_app. split.
    + intros [post H]. now exists EmptyString, post.
    + intros (pre & post & H). destruct pre; [now exists post | discriminate].
  - rewrite orb_true_iff, prefix_app, IH. split.
    + intros [[post H] | (pre & post & H)].
      * now exists EmptyString, post.
      * exists (String a pre), post. simpl. congruence.
    + intros (pre & post & H). destruct pre as [|b pre]; simpl in H.
      * left. now exists post.
      * right. exists pre, post. congruence.
Qed.

Lemma is_view_iff (name : string) :
  is_view name = true <->
  exists kw pre post, In kw view_keywords /\ name = (pre ++ kw ++ post)%string.
Proof.
  unfold is_view. rewrite existsb_exists. split.
  - intros (kw & Hin & H). apply contains_app in H as (pre & post & H).
    now exists kw, pre, post.
  - intros (kw & pre & post & Hin & H). exists kw. split; [exact Hin|].
    apply contains_app. now exists pre, post.
Qed.

(** C5. Every call whose callee is the plain name [eval] or [exec] gets one
    CRITICAL finding of confidence 95 at the line of the call, whatever its
    arguments; a call with any other callee contributes nothing. *)
Theorem eval_exec_one_finding_per_call
  (tree : ast_module) (filepath rel_path : string) (findings : list Finding) :
  let sites := call_sites ["eval"; "exec"] tree in
  exists added,
    check_eval_exec tree filepath rel_path findings = findings ++ added /\
    Permutation added (map (eval_exec_finding rel_path) sites) /\
    List.length added = List.length sites /\
    Forall (fun f => severity f = CRITICAL /\ confidence f = 95) added /\
    (forall func args kws lineno,
       call_site ["eval"; "exec"] (NExpr (Call func args kws lineno)) =
       match func with
       | Name id _ =>
           if String.eqb id "eval" || String.eqb id "exec"
           then [(id, lineno)] else []
       | _ => []
       end).
Proof.
  cbv zeta.
  exists (map (eval_exec_finding rel_path)
              (flat_map (call_site ["eval"; "exec"]) (walk (NMod tree)))).
  assert (Hperm : Permutation
            (map (eval_exec_finding rel_path)
               (flat_map (call_site ["eval"; "exec"]) (walk (NMod tree))))
            (map (eval_exec_finding rel_path)
               (call_sites ["eval"; "exec"] tree)))
    by apply Permutation_map, walk_emit_perm.
  split; [apply check_eval_exec_emit|].
  split; [exact Hperm|].
  split; [rewrite (Permutation_length Hperm); apply length_map|].
  split.
  - apply Forall_forall. intros f Hf. apply in_map_iff in Hf as (s & <- & _).
    split; reflexivity.
  - intros func args kws lineno. destruct func; try reflexivity.
    simpl. now rewrite orb_false_r.
Qed.

(** C6. Every call of a method named [execute], [raw], [extra] or
    [executemany] gets one CRITICAL finding naming the method: confidence 95
    when the first positional argument is an f-string, 90 when it is a [+] or
    [%] operation; nothing for any other first argument or without positional
    arguments, and the later arguments are not looked at. *)
Theorem sql_injection_first_argument
  (tree : ast_module) (filepath rel_path : string) (findings : list Finding) :
  exists added,
    check_sql_injection tree filepath rel_path findings = findings ++ added /\
    Permutation added
      (flat_map (sql_expected rel_path) (descendants (NMod tree))) /\
    (forall value attr l args kws lineno,
       sql_expected rel_path
         (NExpr (Call (Attribute value attr l) args kws lineno)) =
       if existsb (String.eqb attr) ["execute"; "raw"; "extra"; "executemany"]
       then
         match args with
         | JoinedStr _ _ :: _ =>
             [mkFinding rel_path lineno CRITICAL 95
                ("SQL injection: f-string passed to ." ++ attr ++ "()")
                "Use parameterized queries: cursor.execute('SELECT ... WHERE id = %s', [user_id])"]
         | BinOp _ (Add | Mod) _ _ :: _ =>
             [mkFinding rel_path lineno CRITICAL 90
                ("SQL injection: string concatenation/format in ." ++ attr ++ "()")
                "Use parameterized queries instead of string concatenation"]
         | _ => []
         end
       else []) /\
    (forall func args kws lineno,
       match func with
       | Attribute _ _ _ => True
       | _ => sql_expected rel_path (NExpr (Call func args kws lineno)) = []
       end).
Proof.
  exists (flat_map (sql_expected rel_path) (walk (NMod tree))).
  split; [apply check_sql_injection_emit|].
  split; [apply walk_emit_perm|].
  split.
  - intros value attr l args kws lineno. cbn [sql_expected].
    change query_methods with ["execute"; "raw"; "extra"; "executemany"].
    destruct (existsb (String.eqb attr) _); [|reflexivity].
    destruct args as [|[] rest]; try reflexivity.
    destruct op; reflexivity.
  - intros func args kws lineno. destruct func; first [reflexivity | exact I].
Qed.

(** C2 as stated fails: with one print inside a function on line 2 and three
    at top level on lines 3 to 5, the walk meets the top-level calls first,
    and the aggregated finding is located at line 3 although the first print
    call of the file is on line 2. *)
Lemma print_aggregate_not_at_first_occurrence :
  print_lines Demo.nested_prints = [2; 3; 4; 5]%positive /\
  earliest_line (print_lines Demo.nested_prints) = Some 2%positive /\
  check_print_statements Demo.nested_prints "/repo/app.py" "app.py" [] =
    [print_aggregate "app.py" 3%positive 4] /\
  (forall f,
     In f (check_print_statements Demo.nested_prints "/repo/app.py" "app.py" []) ->
     Some (line f) <> earliest_line (print_lines Demo.nested_prints)).
Proof.
  assert (Hrun : check_print_statements Demo.nested_prints
                   "/repo/app.py" "app.py" [] =
                 [print_aggregate "app.py" 3%positive 4])
    by (vm_compute; reflexivity).
  assert (Hlines : print_lines Demo.nested_prints = [2; 3; 4; 5]%positive)
    by (vm_compute; reflexivity).
  rewrite Hrun, Hlines.
  split; [reflexivity|]. split; [reflexivity|]. split; [reflexivity|].
  intros f [<- | []]. discriminate.
Qed.

(** C2, amended.  Let [n] be the number of calls of the plain name [print] in
    the tree.  If [n > 3] the rule reports one WARNING of confidence 80 whose
    text begins with [n] in decimal, located at the line of the first print
    call in breadth-first order of the tree (nodes by increasing depth, left
    to right within a depth); that call is one of the call sites, but need
    not be the one with the smallest line.  If [1 <= n <= 3] it reports [n]
    WARNINGs of confidence 75, one at each call site's line.  If [n = 0] it
    reports nothing. *)
Theorem print_rule_aggregates_above_three
  (tree : ast_module) (filepath rel_path : string) (findings : list Finding) :
  let n := List.length (print_lines tree) in
  let prints :=
    map snd (flat_map (call_site ["print"]) (breadth_first (NMod tree))) in
  exists added,
    check_print_statements tree filepath rel_path findings =
      findings ++ added /\
    Permutation prints (print_lines tree) /\
    added =
      (if 3 <? n
       then [mkFinding rel_path (hd xH prints) WARNING 80
               (str_of_nat n ++ " print() statements found in production code")
               "Replace with logging module (import logging; logger = logging.getLogger(__name__))"]
       else map (print_single rel_path) prints) /\
    (if 3 <? n then In (hd xH prints) (print_lines tree)
     else List.length added = n /\
          Forall (fun f => severity f = WARNING /\ confidence f = 75) added /\
          Permutation (map line added) (print_lines tree)).
Proof.
  cbv zeta. rewrite <- walk_breadth_first.
  assert (Hperm : Permutation
            (map snd (flat_map (call_site ["print"]) (walk (NMod tree))))
            (print_lines tree))
    by apply Permutation_map, walk_emit_perm.
  pose proof (Permutation_length Hperm) as Hlen.
  eexists. split; [apply check_print_statements_emit|].
  split; [exact Hperm|]. cbv zeta. rewrite Hlen.
  split; [reflexivity|].
  destruct (Nat.ltb_spec 3 (List.length (print_lines tree))) as [Hn|Hn].
  - apply (Permutation_in _ Hperm).
    destruct (map snd (flat_map (call_site ["print"]) (walk (NMod tree))));
      [simpl in Hlen; lia | now left].
  - split; [now rewrite length_map|]. split.
    + apply Forall_forall. intros f Hf. apply in_map_iff in Hf as (l & <- & _).
      split; reflexivity.
    + rewrite map_map. cbn [print_single line]. now rewrite map_id.
Qed.

(** C7 as stated fails: an [async def] whose name contains [get] and that
    has no decorator at all is a function-like definition of the tree, and
    the rule reports nothing for it. *)
Lemma async_view_without_auth_not_flagged :
  In (NStmt Demo.async_def) (descendants (NMod Demo.async_view)) /\
  function_like Demo.async_def = Some ("get_profile", [], None, 1%positive) /\
  is_view "get_profile" = true /\
  has_auth_decorator [] = false /\
  check_missing_auth Demo.async_view "/repo/api.py" "api.py" [] = [].
Proof. repeat split; vm_compute; auto. Qed.

(** C7, amended.  Every [def] node of the tree ([ast.FunctionDef]; [async def]
    nodes are not inspected) whose name contains one of the eleven substrings
    and none of whose decorators contributes an allow-listed name gets one
    CRITICAL finding of confidence 85 at the line of the definition; a [def]
    with a recognized decorator, or whose name contains none of the
    substrings, gets nothing. *)
Theorem missing_auth_on_def_nodes
  (tree : ast_module) (filepath rel_path : string) (findings : list Finding) :
  exists added,
    check_missing_auth tree filepath rel_path findings = findings ++ added /\
    Permutation added
      (flat_map (missing_auth_expected rel_path) (descendants (NMod tree))) /\
    (forall name a body decorator_list returns lineno,
       missing_auth_expected rel_path
         (NStmt (FunctionDef name a body decorator_list returns lineno)) =
       if is_view name && negb (has_auth_decorator decorator_list)
       then [mkFinding rel_path lineno CRITICAL 85
               ("Function '" ++ name
                ++ "' appears to be a view but has no auth decorator")
               "Add @login_required, @permission_required, or equivalent auth decorator"]
       else []) /\
    (forall name,
       is_view name = true <->
       exists kw pre post,
         In kw ["view"; "get"; "post"; "put"; "delete"; "patch"; "list";
                "create"; "update"; "destroy"; "retrieve"] /\
         name = (pre ++ kw ++ post)%string) /\
    (forall decorator_list,
       has_auth_decorator decorator_list = true <->
       exists dec nm, In dec decorator_list /\ decorator_name dec = Some nm /\
                      In nm AUTH_DECORATORS).
Proof.
  exists (flat_map (missing_auth_expected rel_path) (walk (NMod tree))).
  split; [apply check_missing_auth_emit|].
  split; [apply walk_emit_perm|].
  split; [reflexivity|].
  split; [apply is_view_iff | apply has_auth_decorator_iff].
Qed.

Lemma unannotated_public_In kind rel_path s f :
  In f (unannotated_public kind rel_path s) <->
  exists name a body decs lineno,
    s = FunctionDef name a body decs None lineno /\
    startswith name "_" = false /\
    f = type_hint_finding kind rel_path name lineno.
Proof.
  split.
  - destruct s; try (intros []). simpl.
    destruct returns; [intros []|].
    destruct (startswith name "_") eqn:E; [intros []|].
    intros [<- | []]. now exists name, args, body, decorator_list, lineno0.
  - intros (name & a & body & decs & lineno & -> & E & ->).
    simpl. rewrite E. now left.
Qed.

(** C8 as stated fails: a public [async def] without return annotation that
    is an immediate child of the module is not reported. *)
Lemma async_def_without_annotation_not_flagged :
  Demo.async_view = AstModule [Demo.async_def] /\
  function_like Demo.async_def = Some ("get_profile", [], None, 1%positive) /\
  startswith "get_profile" "_" = false /\
  check_missing_type_hints Demo.async_view "/repo/api.py" "api.py" [] = [].
Proof. repeat split. Qed.

(** C8, amended.  The rule reports a WARNING of confidence 70 exactly for the
    [def] nodes ([ast.FunctionDef]; [async def] nodes are not inspected) that
    are statements of the module body, or statements of the body of a class
    that is itself a statement of the module body, whose name does not start
    with an underscore and that have no return annotation.  Nothing deeper
    in the tree is looked at. *)
Theorem return_annotation_rule_scope
  (body : list stmt) (filepath rel_path : string) (findings : list Finding) :
  exists added,
    check_missing_type_hints (AstModule body) filepath rel_path findings =
      findings ++ added /\
    added = flat_map (type_hint_expected rel_path) body /\
    Forall (fun f => severity f = WARNING /\ confidence f = 70) added /\
    (forall f,
       In f added <->
       (exists name a b decs lineno,
          In (FunctionDef name a b decs None lineno) body /\
          startswith name "_" = false /\
          f = type_hint_finding "function" rel_path name lineno) \/
       (exists cname bases kws cbody cdecs cline name a b decs lineno,
          In (ClassDef cname bases kws cbody cdecs cline) body /\
          In (FunctionDef name a b decs None lineno) cbody /\
          startswith name "_" = false /\
          f = type_hint_finding "method" rel_path name lineno)).
Proof.
  exists (flat_map (type_hint_expected rel_path) body).
  split; [apply check_missing_type_hints_emit|].
  split; [reflexivity|].
  assert (Hin : forall f,
    In f (flat_map (type_hint_expected rel_path) body) <->
    (exists name a b decs lineno,
          In (FunctionDef name a b decs None lineno) body /\
          startswith name "_" = false /\
          f = type_hint_finding "function" rel_path name lineno) \/
    (exists cname bases kws cbody cdecs cline name a b decs lineno,
          In (ClassDef cname bases kws cbody cdecs cline) body /\
          In (FunctionDef name a b decs None lineno) cbody /\
          startswith name "_" = false /\
          f = type_hint_finding "method" rel_path name lineno)).
  { intros f. rewrite in_flat_map. split.
    - intros (s & Hs & Hf).
      destruct s; cbn [type_hint_expected] in Hf;
        try (apply unannotated_public_In in Hf
               as (? & ? & ? & ? & ? & ? & _); discriminate).
      + apply unannotated_public_In in Hf
          as (nm & a & b & d & l & E & Hpub & ->).
        left. exists nm, a, b, d, l. rewrite <- E. auto.
      + apply in_flat_map in Hf as (m & Hm & Hf).
        apply unannotated_public_In in Hf
          as (nm & a & b & d & l & -> & Hpub & ->).
        right. exists name, bases, keywords, body0, decorator_list, lineno0,
                 nm, a, b, d, l. auto.
    - intros [(nm & a & b & d & l & Hs & Hpub & ->)
             | (cn & bs & ks & cb & cd & cl & nm & a & b & d & l
                & Hc & Hs & Hpub & ->)].
      + eexists. split; [exact Hs|]. simpl. rewrite Hpub. now left.
      + eexists. split; [exact Hc|]. cbn [type_hint_expected].
        apply in_flat_map. eexists. split; [exact Hs|].
        simpl. rewrite Hpub. now left. }
  split; [|exact Hin].
  apply Forall_forall. intros f Hf. apply Hin in Hf.
  destruct Hf as [(? & ? & ? & ? & ? & _ & _ & ->)
                 | (? & ? & ? & ? & ? & ? & ? & ? & ? & ? & ? & _ & _ & _ & ->)];
    split; reflexivity.
Qed.

(** C4. For the line of index [i] (line number [i + 1]) of a file that can
    be read: if the line is not a comment and some pattern of the table is
    found in it, the rule reports exactly one finding at that line, CRITICAL
    with confidence 90, labelled by the first such pattern of the table; a
    comment line and a line in which no pattern is found get no finding. *)
Theorem secret_rule_first_pattern_wins
  (read_text : string -> option string)
  (filepath rel_path : string) (findings : list Finding)
  (source : string) (i : nat) (text : string)
  (Hread : read_text filepath = Some source)
  (Hline : nth_error (splitlines source) i = Some text) :
  exists added,
    check_hardcoded_secrets read_text filepath rel_path findings =
      findings ++ added /\
    (is_comment text = true ->
       filter (at_line (Pos.of_succ_nat i)) added = []) /\
    ((forall p l, In (p, l) SECRET_PATTERNS -> search p text = false) ->
       filter (at_line (Pos.of_succ_nat i)) added = []) /\
    (forall k pattern label,
       is_comment text = false ->
       nth_error SECRET_PATTERNS k = Some (pattern, label) ->
       search pattern text = true ->
       (forall j p l, j < k -> nth_error SECRET_PATTERNS j = Some (p, l) ->
                      search p text = false) ->
       filter (at_line (Pos.of_succ_nat i)) added =
         [mkFinding rel_path (Pos.of_succ_nat i) CRITICAL 90
            ("Hardcoded secret detected: " ++ label)
            "Move to environment variable or secrets manager"]).
Proof.
  exists (flat_map (secret_expected rel_path)
                   (enumerate_from 1 (splitlines source))).
  split.
  - rewrite check_hardcoded_secrets_emit. unfold readlines.
    now rewrite Hread.
  - pose proof (@secret_findings_at_line rel_path (splitlines source)
                  1%positive i text Hline) as Hat.
    rewrite iter_succ_of_succ_nat in Hat. rewrite Hat.
    unfold secret_expected. split; [|split].
    + intros ->. reflexivity.
    + intros Hnone. rewrite (first_secret_none _ _ Hnone).
      now destruct (is_comment text).
    + intros k pattern label -> Hk Hs Hbefore.
      now rewrite (@first_secret_first _ _ k _ _ Hk Hs Hbefore).
Qed.

(** In the sample file, line 5 holds a key that both the first and the
    second pattern find, line 6 is the same text commented out. *)
Lemma secret_rule_first_pattern_wins_witness :
  (exists p1 p2,
     nth_error SECRET_PATTERNS 0 = Some (p1, "Stripe key") /\
     nth_error SECRET_PATTERNS 1 = Some (p2, "Hardcoded secret") /\
     search p1 "api_key = 'sk_live_abcdefghij'" = true /\
     search p2 "api_key = 'sk_live_abcdefghij'" = true) /\
  exists added,
    check_hardcoded_secrets Demo.read_text "/repo/app.py" "app.py" [] = added /\
    filter (at_line 5) added =
      [secret_finding "app.py" "Stripe key" 5] /\
    filter (at_line 6) added = [].
Proof.
  split.
  - eexists. eexists. repeat split; vm_compute; reflexivity.
  - destruct (secret_rule_first_pattern_wins Demo.read_text
                "/repo/app.py" "app.py" [] Demo.app_source 4
                (String.append "api_key = 'sk_live_abcdefghij'"
                               (String PyStr.newline EmptyString))
                eq_refl eq_refl) as (added & Hrun & _ & _ & Hfirst).
    destruct (secret_rule_first_pattern_wins Demo.read_text
                "/repo/app.py" "app.py" [] Demo.app_source 5
                (String.append "# api_key = 'sk_live_abcdefghij'"
                               (String PyStr.newline EmptyString))
                eq_refl eq_refl) as (added' & Hrun' & Hcomment & _ & _).
    exists added. split; [exact Hrun|]. split.
    + eapply (Hfirst 0); [reflexivity | reflexivity | vm_compute; reflexivity|].
      intros j p l Hj. exfalso. inversion Hj.
    + assert (E : added' = added)
        by (apply (app_inv_head []); rewrite <- Hrun'; exact Hrun).
      rewrite <- E. apply Hcomment. reflexivity.
Defined.

(** C10. A handler without exception type whose body is a single [pass] on a
    line without [#] gets two findings at the line of the handler, both
    WARNING: the bare-except one with confidence 90 and the empty-body one
    with confidence 85.  Each rule reports its own, and the empty-body
    finding carries the line of the [except] clause, not that of [pass]. *)
Theorem bare_and_empty_except_both_fire
  (read_text : string -> option string)
  (ast_parse : string -> parse_result)
  (relative_to : string -> option string)
  (filepath rel_path source : string) (tree : ast_module)
  (findings : list Finding)
  (name : option string) (pass_lineno lineno : positive) (line_text : string)
  (Hrel : relative_to filepath = Some rel_path)
  (Hread : read_text filepath = Some source)
  (Hparse : ast_parse source = Parsed tree)
  (Hnode : In (NHandler (ExceptHandler None name [Pass pass_lineno] lineno))
              (descendants (NMod tree)))
  (Hline : nth_error (splitlines source) (Pos.to_nat pass_lineno - 1) =
           Some line_text)
  (Hplain : ~ In "#"%char (list_ascii_of_string line_text)) :
  let bare :=
    mkFinding rel_path lineno WARNING 90
      "Bare except: block catches all exceptions including SystemExit/KeyboardInterrupt"
      "Use 'except Exception:' or catch specific exception types" in
  let empty :=
    mkFinding rel_path lineno WARNING 85
      "Empty except block silently swallows errors"
      "Add error logging, re-raise, or add a comment explaining why" in
  exists added,
    analyze_file read_text ast_parse relative_to filepath findings =
      Returned (findings ++ added, true) /\
    In bare added /\ In empty added /\ bare <> empty /\
    In bare (check_bare_except tree filepath rel_path []) /\
    In empty (check_empty_except_body read_text tree filepath rel_path []).
Proof.
  cbv zeta.
  assert (Hwalk : In (NHandler (ExceptHandler None name [Pass pass_lineno] lineno))
                     (walk (NMod tree)))
    by (apply (Permutation_in _ (Permutation_sym (walk_perm (NMod tree))));
        exact Hnode).
  assert (Hhash : contains "#" line_text = false).
  { destruct (contains "#" line_text) eqn:E; [|reflexivity].
    apply contains_char in E. contradiction. }
  assert (Hbare : In (bare_except_finding rel_path lineno)
                     (flat_map (bare_except_expected rel_path)
                               (walk (NMod tree)))).
  { apply in_flat_map. eexists. split; [exact Hwalk|]. now left. }
  assert (Hempty : In (empty_except_finding rel_path lineno)
                      (flat_map (empty_except_expected (splitlines source)
                                   rel_path)
                                (walk (NMod tree)))).
  { apply in_flat_map. eexists. split; [exact Hwalk|].
    cbn [empty_except_expected]. rewrite Hline, Hhash. now left. }
  exists (file_findings source tree rel_path).
  split; [now apply analyze_file_parsed|].
  unfold file_findings. cbv zeta.
  split; [rewrite !in_app_iff; right; left; exact Hbare|].
  split; [rewrite !in_app_iff; right; right; left; exact Hempty|].
  split; [discriminate|].
  split.
  - rewrite check_bare_except_emit. exact Hbare.
  - rewrite check_empty_except_body_emit. unfold readlines.
    rewrite Hread. exact Hempty.
Qed.

(** The sample file: [except:] on line 3, [pass] on line 4. *)
Lemma bare_and_empty_except_both_fire_witness :
  exists added,
    analyze_file Demo.read_text Demo.ast_parse Demo.relative_to
      "/repo/app.py" [] = Returned (added, true) /\
    In (bare_except_finding "app.py" 3) added /\
    In (empty_except_finding "app.py" 3) added.
Proof.
  destruct (bare_and_empty_except_both_fire
              Demo.read_text Demo.ast_parse Demo.relative_to
              "/repo/app.py" "app.py" Demo.app_source Demo.app_tree [] None
              4 3
              (String.append "    pass" (String PyStr.newline EmptyString))
              eq_refl eq_refl eq_refl
              (or_intror (or_intror (or_intror (or_intror (or_intror
                 (or_introl eq_refl))))))
              eq_refl
              ltac:(vm_compute; intuition discriminate))
    as (added & Hrun & Hbare & Hempty & _).
  exists added. split; [exact Hrun|]. split; [exact Hbare | exact Hempty].
Defined.

End RuleClaims.

(* ------------------------------------------------------------------------- *)
(** ** The engine on the sample project *)

Module Runs.
Import PyAst PyStr Re Review Spec.

(** Breadth first: the statement on line 3 is yielded before the call on
    line 1, which is one level deeper. *)
Example walk_is_level_order :
  map (fun n => match n with
                | NStmt (Expr _ l) | NStmt (If _ _ _ l) => Some (true, l)
                | NExpr (Call _ _ _ l) => Some (false, l)
                | _ => None
                end)
      (firstn 6 (walk (NMod Demo.two_prints))) =
  [ None; Some (true, 1); Some (true, 2); Some (false, 1); None;
    Some (true, 3) ]%positive.
Proof. vm_compute. reflexivity. Qed.

Example two_prints_reported_one_by_one :
  check_print_statements Demo.two_prints "/repo/m.py" "m.py" [] =
  [print_single "m.py" 1; print_single "m.py" 3].
Proof. vm_compute. reflexivity. Qed.

Example queries_injection_findings :
  check_sql_injection Demo.queries "/repo/q.py" "q.py" [] =
  [sql_fstring "q.py" "execute" 1; sql_concat "q.py" "raw" 2].
Proof. vm_compute. reflexivity. Qed.

Example queries_eval_findings :
  check_eval_exec Demo.queries "/repo/q.py" "q.py" [] =
  [eval_exec_finding "q.py" ("eval", 4%positive)].
Proof. vm_compute. reflexivity. Qed.

Example views_missing_auth :
  check_missing_auth Demo.views "/repo/v.py" "v.py" [] =
  [missing_auth_finding "v.py" "list_users" 2].
Proof. vm_compute. reflexivity. Qed.

Example views_missing_hints :
  check_missing_type_hints Demo.views "/repo/v.py" "v.py" [] =
  [type_hint_finding "function" "v.py" "list_users" 2;
   type_hint_finding "method" "v.py" "fetch" 8].
Proof. vm_compute. reflexivity. Qed.

Example sample_sort :
  map issue (sort_findings Demo.sample_findings) =
  ["fifth"; "second"; "third"; "first"; "fourth"].
Proof. vm_compute. reflexivity. Qed.

(** Two of the four files are skipped; the run ends in REQUEST CHANGES. *)
Example sample_run :
  exists r,
    main Demo.read_text Demo.ast_parse Demo.relative_to Demo.py_files =
      Returned r /\
    report_findings r =
      [secret_finding "app.py" "Stripe key" 5;
       bare_except_finding "app.py" 3;
       empty_except_finding "app.py" 3] /\
    files_scanned r = 2 /\ report_clean_files r = ["util.py"] /\
    critical_count r = 1 /\ warning_count r = 2 /\
    verdict r = REQUEST_CHANGES /\ exit_status r = 1 /\
    script_exit Demo.read_text Demo.ast_parse Demo.relative_to Demo.py_files
      = 1.
Proof. eexists. split; [vm_compute; reflexivity|]. vm_compute. repeat split. Qed.

Example empty_run :
  exists r,
    main Demo.read_text Demo.ast_parse Demo.relative_to [] = Returned r /\
    verdict r = APPROVE /\ exit_status r = 0 /\ report_findings r = [].
Proof. eexists. split; [reflexivity|]. repeat split. Qed.

(** A file outside the root ends the run before it is opened. *)
Example file_outside_root :
  script_exit Demo.read_text Demo.ast_parse Demo.relative_to
    ["/repo/util.py"; "/srv/app.py"] = 2.
Proof. vm_compute. reflexivity. Qed.

(** Blanks beyond ASCII: a NO-BREAK SPACE before the marker makes a comment,
    an EM SPACE and a NO-BREAK SPACE are taken by [\s], IDEOGRAPHIC SPACE
    too. *)
Example blanks_beyond_ascii :
  is_comment (chr 160 ++ "# api_key = 'abcdefgh'") = true /\
  first_secret SECRET_PATTERNS
    ("API-KEY" ++ chr 8195 ++ "=" ++ chr 160 ++ "'abcdefgh'") =
    Some "Hardcoded secret"%string /\
  first_secret SECRET_PATTERNS
    ("Bearer" ++ chr 12288 ++ "abcdefghijklmnopqrst") =
    Some "Hardcoded Bearer token"%string /\
  strip (chr 8232 ++ " x " ++ chr 133) = "x"%string.
Proof. vm_compute. repeat split. Qed.

(** [chr] gives the UTF-8 encoding: one to four bytes. *)
Example chr_is_utf8 :
  map (fun cp => map nat_of_ascii (list_ascii_of_string (chr cp)))
      [ 35; 160; 8195; 12288; 128512 ]%N =
  [ [35]; [194; 160]; [226; 128; 131]; [227; 128; 128];
    [240; 159; 152; 128] ].
Proof. vm_compute. reflexivity. Qed.

(** Characters whose encodings start like that of a blank are kept: ZERO
    WIDTH SPACE (U+200B), EURO SIGN, IDEOGRAPHIC COMMA (U+3001), the control
    character U+0084; [len] counts characters, not bytes. *)
Example strip_keeps_neighbours :
  strip (chr 8203 ++ " " ++ chr 8364) = (chr 8203 ++ " " ++ chr 8364)%string /\
  strip (chr 160 ++ chr 12289 ++ chr 132 ++ chr 8232) =
    (chr 12289 ++ chr 132)%string /\
  len (chr 160 ++ "a" ++ chr 8364 ++ chr 128512) = 4.
Proof. vm_compute. repeat split. Qed.

(** Case folding beyond ASCII: LONG S for [s], KELVIN SIGN for [k], dotted
    and dotless I inside the value; an accented letter is in no class. *)
Example folds_beyond_ascii :
  first_secret SECRET_PATTERNS (chr 383 ++ "ecret_key = 'abcdefgh'") =
    Some "Hardcoded secret"%string /\
  first_secret SECRET_PATTERNS ("api_" ++ chr 8490 ++ "ey = 'abcdefgh'") =
    Some "Hardcoded secret"%string /\
  first_secret SECRET_PATTERNS
    ("apikey = 'abcd" ++ chr 305 ++ chr 304 ++ "fg'") =
    Some "Hardcoded secret"%string /\
  first_secret SECRET_PATTERNS ("apikey = 'abcdefg" ++ chr 233 ++ "'") = None.
Proof. vm_compute. repeat split. Qed.

End Runs.

(* ------------------------------------------------------------------------- *)
(** ** Invariants of a run *)

Module RunFacts.
Import PyAst PyStr Re Review Spec RunSpec WalkFacts RuleFacts SortFacts
       EngineFacts.

Section Env.
Variable read_text : string -> option string.
Variable ast_parse : string -> parse_result.
Variable relative_to : string -> option string.

#[local] Abbreviation per_file := (per_file read_text ast_parse relative_to).
#[local] Abbreviation aborts := (aborts read_text ast_parse relative_to).
#[local] Abbreviation findings_of := (findings_of read_text ast_parse relative_to).
#[local] Abbreviation clean_name := (clean_name read_text ast_parse relative_to).
#[local] Abbreviation is_scanned := (is_scanned read_text ast_parse relative_to).
#[local] Abbreviation is_clean := (is_clean read_text ast_parse relative_to).
#[local] Abbreviation is_flagged := (is_flagged read_text ast_parse relative_to).
#[local] Abbreviation scan_step := (scan_step read_text ast_parse relative_to).
#[local] Abbreviation scan_from := (scan_from read_text ast_parse relative_to).
#[local] Abbreviation scan_loop := (scan_loop read_text ast_parse relative_to).
#[local] Abbreviation main := (main read_text ast_parse relative_to).
#[local] Abbreviation script_exit :=
  (script_exit read_text ast_parse relative_to).

Lemma per_file_scanned filepath rel_path added :
  per_file filepath = Scanned rel_path added ->
  relative_to filepath = Some rel_path /\
  exists source tree,
    read_text filepath = Some source /\ ast_parse source = Parsed tree /\
    added = file_findings source tree rel_path.
Proof.
  unfold Spec.per_file.
  destruct (relative_to filepath) as [r|]; [|discriminate].
  destruct (read_text filepath) as [source|]; [|discriminate].
  destruct (ast_parse source) as [tree| |] eqn:Hp; try discriminate.
  intros [= -> <-]. split; [reflexivity|]. now exists source, tree.
Qed.

(** The run ends on a file whose path is not below the root, and on a file
    that is read and on which the parser raises something else than
    [SyntaxError]. *)
Lemma aborts_iff filepath :
  aborts filepath = true <->
  relative_to filepath = None \/
  exists source,
    read_text filepath = Some source /\ ast_parse source = OtherError.
Proof.
  unfold RunSpec.aborts, Spec.per_file.
  destruct (relative_to filepath) as [r|]; [|split; [now left | reflexivity]].
  destruct (read_text filepath) as [source|].
  - destruct (ast_parse source) eqn:Hp; split;
      try discriminate; try reflexivity;
      try (intros [H | (s & [= <-] & H)]; congruence).
    intros _. right. now exists source.
  - split; [discriminate | intros [H | (s & H & _)]; discriminate].
Qed.

Lemma scan_step_per_file st filepath :
  scan_step st filepath =
  if aborts filepath then Raised
  else
    Returned
      (mkScan (acc_findings st ++ findings_of filepath)
              (acc_clean_files st ++ clean_name filepath)
              (acc_scanned st + (if is_scanned filepath then 1 else 0))).
Proof.
  rewrite scan_step_cases.
  unfold RunSpec.aborts, RunSpec.findings_of, RunSpec.clean_name,
    RunSpec.is_scanned.
  destruct (per_file filepath) as [| |rel_path added]; [reflexivity| |].
  - destruct st; simpl. now rewrite !app_nil_r, Nat.add_0_r.
  - destruct added; [reflexivity | now rewrite app_nil_r].
Qed.

(** The loop pools the findings of the files in scan order, lists the clean
    files in scan order and counts the files that parsed; it is left by an
    exception exactly when the run ends on one of the files. *)
Lemma scan_from_totals (l : list string) : forall st,
  scan_from st l =
  if existsb aborts l then Raised
  else
    Returned
      (mkScan (acc_findings st ++ flat_map findings_of l)
              (acc_clean_files st ++ flat_map clean_name l)
              (acc_scanned st + List.length (filter is_scanned l))).
Proof.
  induction l as [|p l IH]; intros st; cbn [Review.scan_from existsb].
  - destruct st; simpl. now rewrite !app_nil_r, Nat.add_0_r.
  - rewrite scan_step_per_file.
    destruct (aborts p); cbn [bind orb]; [reflexivity|].
    rewrite IH. cbn [acc_findings acc_clean_files acc_scanned].
    destruct (existsb aborts l); [reflexivity|].
    cbn [flat_map filter]. rewrite <- !app_assoc, <- Nat.add_assoc.
    now destruct (is_scanned p).
Qed.

Lemma clean_names (l : list string) :
  map Some (flat_map clean_name l) = map relative_to (filter is_clean l).
Proof.
  induction l as [|p l IH]; [reflexivity|].
  cbn [flat_map filter]. rewrite map_app, IH.
  unfold RunSpec.clean_name, RunSpec.is_clean.
  destruct (per_file p) as [| |rel_path [|f added]] eqn:E; try reflexivity.
  apply per_file_scanned in E as [E _]. cbn [map app]. now rewrite E.
Qed.

Lemma filter_scanned_split (l : list string) :
  List.length (filter is_scanned l) =
  List.length (filter is_clean l) + List.length (filter is_flagged l).
Proof.
  induction l as [|p l IH]; simpl; [reflexivity|].
  unfold RunSpec.is_scanned, RunSpec.is_clean, RunSpec.is_flagged in *.
  destruct (per_file p) as [| |rel_path [|f fs]]; simpl; lia.
Qed.

(** The report of a run, from what becomes of each file. *)
Lemma main_report (py_files : list string) :
  match main py_files with
  | Returned r =>
      (forall p, In p py_files -> aborts p = false) /\
      report_findings r = sort_findings (flat_map findings_of py_files) /\
      report_clean_files r = flat_map clean_name py_files /\
      files_scanned r = List.length (filter is_scanned py_files) /\
      critical_count r = List.length (filter is_critical (report_findings r)) /\
      warning_count r = List.length (filter is_warning (report_findings r)) /\
      ((0 < critical_count r /\ verdict r = REQUEST_CHANGES /\
        exit_status r = 1) \/
       (critical_count r = 0 /\ 0 < warning_count r /\ verdict r = COMMENT /\
        exit_status r = 0) \/
       (critical_count r = 0 /\ warning_count r = 0 /\ verdict r = APPROVE /\
        exit_status r = 0))
  | Raised => exists p, In p py_files /\ aborts p = true
  end.
Proof.
  destruct py_files as [|p rest].
  - cbn. split; [intros p []|]. repeat split. right. right. repeat split.
  - cbn [Review.main]. unfold Review.scan_loop. rewrite scan_from_totals.
    destruct (existsb aborts (p :: rest)) eqn:E; cbn [bind].
    + apply existsb_exists in E. exact E.
    + cbn [acc_findings acc_clean_files acc_scanned app Nat.add].
      split.
      { intros q Hq. destruct (aborts q) eqn:Eq; [|reflexivity].
        assert (existsb aborts (p :: rest) = true)
          by (apply existsb_exists; now exists q).
        congruence. }
      destruct (summarize_cases
                  (List.length (filter is_scanned (p :: rest)))
                  (flat_map findings_of (p :: rest))
                  (flat_map clean_name (p :: rest)))
        as (Hf & Hc & Hw & Hv).
      cbv zeta in Hf, Hc, Hw, Hv.
      rewrite <- Hc, <- Hw in Hv. rewrite <- Hf in Hc, Hw.
      split; [exact Hf|].
      split; [unfold summarize;
              repeat match goal with
                     | |- context [if ?b then _ else _] => destruct b
                     end; reflexivity|].
      split; [unfold summarize;
              repeat match goal with
                     | |- context [if ?b then _ else _] => destruct b
                     end; reflexivity|].
      split; [exact Hc|]. split; [exact Hw | exact Hv].
Qed.

Lemma script_exit_cases (py_files : list string) :
  match main py_files with
  | Returned r => script_exit py_files = exit_status r
  | Raised => script_exit py_files = 2
  end.
Proof. unfold Review.script_exit. now destruct (main py_files). Qed.

(** X1. In a run that reaches its end, every file that parses is counted
    once and is either listed as clean or has findings in the report; the
    report holds the findings of the parsed files, none dropped and none
    added.  The run reaches its end exactly when it ends on none of the
    files. *)
Theorem run_accounts_for_every_file (py_files : list string) :
  match main py_files with
  | Returned r =>
      files_scanned r =
        List.length (report_clean_files r)
        + List.length (filter is_flagged py_files) /\
      map Some (report_clean_files r) =
        map relative_to (filter is_clean py_files) /\
      Permutation (report_findings r) (flat_map findings_of py_files) /\
      critical_count r + warning_count r = List.length (report_findings r) /\
      forall p, In p py_files -> aborts p = false
  | Raised => exists p, In p py_files /\ aborts p = true
  end.
Proof.
  pose proof (main_report py_files) as H.
  destruct (main py_files) as [r|]; [|exact H].
  destruct H as (Hab & Hf & Hc & Hs & Hcc & Hww & _).
  assert (Hnames : map Some (report_clean_files r) =
                   map relative_to (filter is_clean py_files))
    by (rewrite Hc; apply clean_names).
  split.
  { rewrite Hs, filter_scanned_split. f_equal.
    rewrite <- (length_map relative_to), <- Hnames. apply length_map. }
  split; [exact Hnames|].
  split; [rewrite Hf; apply sort_findings_perm|].
  split; [|exact Hab].
  rewrite Hcc, Hww.
  generalize (report_findings r). intros l.
  induction l as [|f l IH]; simpl; [reflexivity|].
  unfold is_critical, is_warning in *.
  destruct (severity f); simpl; lia.
Qed.

End Env.

(** *** What every finding looks like *)

Lemma Forall_flat_map_nodes (A : Type) (P : Finding -> Prop)
  (emit : A -> list Finding) (l : list A) :
  (forall x, Forall P (emit x)) -> Forall P (flat_map emit l).
Proof.
  intros H. apply Forall_flat_map. apply Forall_forall. intros x _. apply H.
Qed.

Ltac wf_one :=
  apply Forall_cons;
  [split; [reflexivity | unfold rated; simpl; auto 10] | apply Forall_nil].

Lemma file_findings_well_formed source tree rel_path :
  Forall (well_formed rel_path) (file_findings source tree rel_path).
Proof.
  unfold file_findings. cbv zeta.
  repeat (apply Forall_app; split).
  - apply Forall_flat_map_nodes. intros n. unfold missing_auth_expected.
    destruct n as [m|s|e|h|k|a|a]; try apply Forall_nil.
    destruct s; try apply Forall_nil.
    destruct (is_view name && negb (has_auth_decorator decorator_list));
      [wf_one | apply Forall_nil].
  - apply Forall_flat_map_nodes. intros n. unfold bare_except_expected.
    destruct n as [m|s|e|[[t|] nm b l]|k|a|a]; try apply Forall_nil. wf_one.
  - apply Forall_flat_map_nodes. intros n. unfold empty_except_expected.
    destruct n as [m|s|e|[t nm b l]|k|a|a]; try apply Forall_nil.
    destruct b as [|[] [|]]; try apply Forall_nil.
    destruct (nth_error _ _); [|apply Forall_nil].
    destruct (contains "#" s); [apply Forall_nil | wf_one].
  - destruct (3 <? _); [wf_one|].
    apply Forall_forall. intros f Hf. apply in_map_iff in Hf as (l & <- & _).
    split; [reflexivity | unfold rated; simpl; auto 10].
  - apply Forall_forall. intros f Hf. apply in_map_iff in Hf as (l & <- & _).
    split; [reflexivity | unfold rated; simpl; auto 10].
  - apply Forall_flat_map_nodes. intros n. unfold sql_expected.
    destruct n as [m|s|e|h|k|a|a]; try apply Forall_nil.
    destruct e; try apply Forall_nil. destruct e; try apply Forall_nil.
    destruct (existsb _ _); [|apply Forall_nil].
    destruct (first_arg_shape args); [wf_one | wf_one | apply Forall_nil].
  - apply Forall_flat_map_nodes. intros [i text]. unfold secret_expected.
    destruct (is_comment text); [apply Forall_nil|].
    destruct (first_secret SECRET_PATTERNS text); [wf_one | apply Forall_nil].
  - destruct tree as [body]. apply Forall_flat_map_nodes. intros s.
    assert (Hpub : forall kind s',
               Forall (well_formed rel_path)
                      (unannotated_public kind rel_path s')).
    { intros kind s'. destruct s'; try apply Forall_nil. simpl.
      destruct returns; [apply Forall_nil|].
      destruct (startswith name "_"); [apply Forall_nil | wf_one]. }
    destruct s; try apply Hpub. simpl.
    apply Forall_flat_map_nodes. intros s'. apply Hpub.
Qed.

Section Env2.
Variable read_text : string -> option string.
Variable ast_parse : string -> parse_result.
Variable relative_to : string -> option string.

#[local] Abbreviation findings_of' :=
  (RunSpec.findings_of read_text ast_parse relative_to).
#[local] Abbreviation is_scanned' :=
  (RunSpec.is_scanned read_text ast_parse relative_to).
#[local] Abbreviation aborts' :=
  (RunSpec.aborts read_text ast_parse relative_to).
#[local] Abbreviation main' := (main read_text ast_parse relative_to).

Lemma findings_of_well_formed filepath f :
  In f (findings_of' filepath) ->
  relative_to filepath = Some (file f) /\ rated f /\
  is_scanned' filepath = true.
Proof.
  unfold RunSpec.findings_of, RunSpec.is_scanned.
  destruct (per_file read_text ast_parse relative_to filepath)
    as [| |rel_path added] eqn:E; try (intros []).
  intros Hf.
  apply per_file_scanned in E as (Hrel & source & tree & _ & _ & ->).
  pose proof (file_findings_well_formed source tree rel_path) as Hwf.
  rewrite Forall_forall in Hwf. destruct (Hwf f Hf) as [Hfile Hrated].
  rewrite Hfile. auto.
Qed.

Lemma report_findings_In (py_files : list string) (r : Report) (f : Finding) :
  main' py_files = Returned r ->
  (In f (report_findings r) <->
   exists filepath, In filepath py_files /\ In f (findings_of' filepath)).
Proof.
  intros Hr.
  pose proof (main_report read_text ast_parse relative_to py_files) as H.
  rewrite Hr in H. destruct H as (_ & Hf & _).
  rewrite Hf. rewrite <- in_flat_map. split.
  - apply Permutation_in, sort_findings_perm.
  - apply Permutation_in, Permutation_sym, sort_findings_perm.
Qed.

(** A CRITICAL finding is counted exactly when one of the files has one. *)
Lemma critical_count_positive (py_files : list string) (r : Report) :
  main' py_files = Returned r ->
  (0 < critical_count r <->
   exists filepath f,
     In filepath py_files /\ In f (findings_of' filepath) /\
     severity f = CRITICAL).
Proof.
  intros Hr.
  pose proof (main_report read_text ast_parse relative_to py_files) as H.
  rewrite Hr in H. destruct H as (_ & _ & _ & _ & -> & _).
  split.
  - intros Hpos.
    destruct (filter is_critical (report_findings r)) as [|f fs] eqn:E;
      [simpl in Hpos; lia|].
    assert (Hin : In f (filter is_critical (report_findings r)))
      by (rewrite E; now left).
    apply filter_In in Hin as [Hin Hc].
    apply (report_findings_In py_files r f Hr) in Hin as (p & Hp & Hf).
    exists p, f. repeat split; try assumption.
    unfold is_critical in Hc. now destruct (severity f).
  - intros (p & f & Hp & Hf & Hc).
    assert (Hin : In f (filter is_critical (report_findings r))).
    { apply filter_In. split.
      - apply (report_findings_In py_files r f Hr). now exists p.
      - unfold is_critical. now rewrite Hc. }
    destruct (filter is_critical _); [destruct Hin | simpl; lia].
Qed.

(** X2. Every finding of the report is about a file of the scan list that
    parsed, and names it by its path relative to the root; its severity and
    confidence are one of the pairs the rules use: CRITICAL with 85, 90 or
    95, WARNING with 70, 75, 80, 85 or 90. *)
Theorem findings_name_scanned_files (py_files : list string) :
  match main' py_files with
  | Returned r =>
      Forall (fun f =>
                (exists filepath,
                   In filepath py_files /\ is_scanned' filepath = true /\
                   relative_to filepath = Some (file f)) /\
                match severity f with
                | CRITICAL => In (confidence f) [85; 90; 95]
                | WARNING => In (confidence f) [70; 75; 80; 85; 90]
                end /\
                70 <= confidence f <= 95)
             (report_findings r)
  | Raised => exists p, In p py_files /\ aborts' p = true
  end.
Proof.
  pose proof (main_report read_text ast_parse relative_to py_files) as H.
  destruct (main' py_files) as [r|] eqn:Hr; [clear H | exact H].
  apply Forall_forall. intros f Hf.
  apply (report_findings_In py_files r f Hr) in Hf as (p & Hp & Hf).
  destruct (findings_of_well_formed p f Hf) as (Hfile & Hrated & Hsc).
  split; [|split; [exact Hrated|]].
  - now exists p.
  - unfold rated in Hrated. destruct (severity f); simpl in Hrated;
      intuition lia.
Qed.

(** X3. The exit status of the script.  It is 2 exactly when the scan list
    holds a file whose path is not below the root, or a file that is read
    and on which the parser raises something else than [SyntaxError].
    Otherwise it is 1 exactly when some file of the scan list parses and one
    of the rules reports a CRITICAL finding for it, and 0 in every other
    case. *)
Theorem exit_status_gates_on_critical (py_files : list string) :
  let code := script_exit read_text ast_parse relative_to py_files in
  let ends_run :=
    exists filepath,
      In filepath py_files /\
      (relative_to filepath = None \/
       exists source,
         read_text filepath = Some source /\ ast_parse source = OtherError) in
  let has_critical :=
    exists filepath f,
      In filepath py_files /\ In f (findings_of' filepath) /\
      severity f = CRITICAL in
  (code = 2 <-> ends_run) /\
  (code = 1 <-> ~ ends_run /\ has_critical) /\
  (code = 0 <-> ~ ends_run /\ ~ has_critical).
Proof.
  cbv zeta.
  pose proof (main_report read_text ast_parse relative_to py_files) as H.
  pose proof (script_exit_cases read_text ast_parse relative_to py_files)
    as Hexit.
  assert (Hends : (exists p, In p py_files /\ aborts' p = true) <->
                  exists filepath,
                    In filepath py_files /\
                    (relative_to filepath = None \/
                     exists source,
                       read_text filepath = Some source /\
                       ast_parse source = OtherError)).
  { split; intros (p & Hp & Ha); exists p; (split; [exact Hp|]);
      now apply aborts_iff. }
  destruct (main' py_files) as [r|] eqn:Hr.
  - destruct H as (Hab & _ & _ & _ & _ & _ & Hv).
    assert (Hno : ~ exists filepath,
                    In filepath py_files /\
                    (relative_to filepath = None \/
                     exists source,
                       read_text filepath = Some source /\
                       ast_parse source = OtherError)).
    { rewrite <- Hends. intros (p & Hp & Ha). rewrite (Hab p Hp) in Ha.
      discriminate. }
    rewrite <- (critical_count_positive py_files r Hr). rewrite Hexit.
    destruct Hv as [(H0 & _ & E) | [(H0 & _ & _ & E) | (H0 & _ & _ & E)]];
      rewrite E;
      (split; [split; [discriminate | intros ?; contradiction]|]);
      split; split; try discriminate; try (intros [_ ?]; lia);
        try (intros _; split; [exact Hno | lia]).
  - rewrite Hexit. apply Hends in H.
    split; [split; [intros _; exact H | reflexivity]|].
    split; split; try discriminate; intros [Hno _]; contradiction.
Qed.

End Env2.

(** *** The order of the scan list does not show in the report *)

Lemma all_equal_perm (A : Type) (a : list A) : forall b,
  (forall x y, In x a -> In y a -> x = y) -> Permutation a b -> a = b.
Proof.
  induction a as [|x t IH]; intros b Heq Hperm.
  - now apply Permutation_nil in Hperm.
  - destruct b as [|y b'];
      [apply Permutation_sym, Permutation_nil in Hperm; discriminate|].
    assert (Hy : In y (x :: t))
      by (apply (Permutation_in _ (Permutation_sym Hperm)); now left).
    assert (y = x) by (apply Heq; [exact Hy | now left]). subst y.
    f_equal. apply IH.
    + intros u v Hu Hv. apply Heq; now right.
    + now apply Permutation_cons_inv in Hperm.
Qed.

Lemma filter_perm (A : Type) (p : A -> bool) (l l' : list A) :
  Permutation l l' -> Permutation (filter p l) (filter p l').
Proof.
  induction 1; simpl.
  - constructor.
  - destruct (p x); [now constructor | assumption].
  - destruct (p x), (p y); try reflexivity. apply perm_swap.
  - etransitivity; eassumption.
Qed.

Lemma filter_flat_map (A B : Type) (p : B -> bool) (g : A -> list B)
  (l : list A) :
  filter p (flat_map g l) = flat_map (fun x => filter p (g x)) l.
Proof.
  induction l as [|x l IH]; simpl; [reflexivity|].
  now rewrite filter_app, IH.
Qed.

Lemma flat_map_filter_some (A B : Type) (h : A -> list B) (q : A -> bool)
  (l : list A) :
  (forall x, q x = false -> h x = []) ->
  flat_map h l = flat_map h (filter q l).
Proof.
  intros H. induction l as [|x l IH]; simpl; [reflexivity|].
  destruct (q x) eqn:E; simpl; [now rewrite IH|].
  now rewrite (H x E).
Qed.

Section Env3.
Variable read_text : string -> option string.
Variable ast_parse : string -> parse_result.
Variable relative_to : string -> option string.

#[local] Abbreviation findings_of3 :=
  (RunSpec.findings_of read_text ast_parse relative_to).
#[local] Abbreviation aborts3 :=
  (RunSpec.aborts read_text ast_parse relative_to).
#[local] Abbreviation main3 := (main read_text ast_parse relative_to).

(** The file a sort key names. *)
#[local] Abbreviation named k :=
  (fun p => match relative_to p with
            | Some rel_path => String.eqb rel_path (snd (fst k))
            | None => false
            end).

Lemma same_key_other_file (k : nat * string * positive) (filepath : string) :
  named k filepath = false ->
  filter (same_key k) (findings_of3 filepath) = [].
Proof.
  intros Hne. apply filter_none. intros f Hf.
  destruct (findings_of_well_formed read_text ast_parse relative_to
              filepath f Hf) as (Hfile & _).
  unfold same_key. destruct (key_compare (sort_key f) k) eqn:E; try reflexivity.
  apply key_compare_eq in E. subst k. simpl in Hne.
  rewrite Hfile, String.eqb_refl in Hne. discriminate.
Qed.

Lemma pooled_same_key (l l' : list string) (k : nat * string * positive) :
  Permutation l l' ->
  (forall p q rel_path, In p l -> In q l ->
     relative_to p = Some rel_path -> relative_to q = Some rel_path ->
     p = q) ->
  filter (same_key k) (flat_map findings_of3 l') =
  filter (same_key k) (flat_map findings_of3 l).
Proof.
  intros Hperm Hinj. rewrite !filter_flat_map.
  rewrite (flat_map_filter_some _ _ _ (named k) l')
    by apply same_key_other_file.
  rewrite (flat_map_filter_some _ _ _ (named k) l)
    by apply same_key_other_file.
  f_equal. symmetry. apply all_equal_perm; [|now apply filter_perm].
  intros x y Hx Hy. apply filter_In in Hx as [Hx Ex], Hy as [Hy Ey].
  destruct (relative_to x) as [rx|] eqn:Erx; [|discriminate].
  destruct (relative_to y) as [ry|] eqn:Ery; [|discriminate].
  apply String.eqb_eq in Ex, Ey.
  apply (Hinj x y rx Hx Hy Erx). congruence.
Qed.

(** X4. Listing the same files in another order changes nothing in the
    report but the order of the clean-file list: the sorted findings, the
    counts, the verdict, the exit status and the scanned total are the same,
    and the run reaches its end for the one order exactly when it does for
    the other.  The files are told apart by their relative paths. *)
Theorem report_independent_of_scan_order (l l' : list string)
  (Hperm : Permutation l l')
  (Hinj : forall p q rel_path, In p l -> In q l ->
            relative_to p = Some rel_path -> relative_to q = Some rel_path ->
            p = q) :
  match main3 l, main3 l' with
  | Returned r, Returned r' =>
      report_findings r' = report_findings r /\
      critical_count r' = critical_count r /\
      warning_count r' = warning_count r /\
      verdict r' = verdict r /\
      exit_status r' = exit_status r /\
      files_scanned r' = files_scanned r /\
      Permutation (report_clean_files r') (report_clean_files r)
  | Raised, Raised => True
  | _, _ => False
  end /\
  script_exit read_text ast_parse relative_to l' =
  script_exit read_text ast_parse relative_to l.
Proof.
  pose proof (main_report read_text ast_parse relative_to l) as H.
  pose proof (main_report read_text ast_parse relative_to l') as H'.
  pose proof (script_exit_cases read_text ast_parse relative_to l) as He.
  pose proof (script_exit_cases read_text ast_parse relative_to l') as He'.
  destruct (main3 l) as [r|], (main3 l') as [r'|].
  - destruct H as (_ & Hf & Hc & Hs & Hcc & Hww & Hv).
    destruct H' as (_ & Hf' & Hc' & Hs' & Hcc' & Hww' & Hv').
    assert (Hsame : report_findings r' = report_findings r).
    { rewrite Hf, Hf'. apply stable_sort_unique.
      - rewrite sort_findings_perm. apply Permutation_flat_map.
        now apply Permutation_sym.
      - apply sort_findings_sorted.
      - intros k. rewrite sort_findings_stable. now apply pooled_same_key. }
    assert (Hcsame : critical_count r' = critical_count r)
      by (now rewrite Hcc, Hcc', Hsame).
    assert (Hwsame : warning_count r' = warning_count r)
      by (now rewrite Hww, Hww', Hsame).
    assert (Hve : verdict r' = verdict r /\ exit_status r' = exit_status r).
    { destruct Hv as [(? & E1 & E2) | [(? & ? & E1 & E2)
                                      | (? & ? & E1 & E2)]];
        destruct Hv' as [(? & F1 & F2) | [(? & ? & F1 & F2)
                                         | (? & ? & F1 & F2)]];
        try lia; rewrite E1, E2, F1, F2; split; reflexivity. }
    split; [|rewrite He, He'; apply Hve].
    split; [exact Hsame|]. split; [exact Hcsame|]. split; [exact Hwsame|].
    split; [apply Hve|]. split; [apply Hve|].
    split.
    + rewrite Hs, Hs'. apply filter_length_perm. now apply Permutation_sym.
    + rewrite Hc, Hc'. apply Permutation_flat_map.
      now apply Permutation_sym.
  - destruct H as (Hab & _). destruct H' as (p & Hp & Ha).
    apply (Permutation_in _ (Permutation_sym Hperm)) in Hp.
    rewrite (Hab p Hp) in Ha. discriminate.
  - destruct H' as (Hab & _). destruct H as (p & Hp & Ha).
    apply (Permutation_in _ Hperm) in Hp.
    rewrite (Hab p Hp) in Ha. discriminate.
  - split; [exact I | now rewrite He, He'].
Qed.

End Env3.

Lemma report_independent_of_scan_order_witness :
  exists r r',
    main Demo.read_text Demo.ast_parse Demo.relative_to Demo.py_files =
      Returned r /\
    main Demo.read_text Demo.ast_parse Demo.relative_to (rev Demo.py_files) =
      Returned r' /\
    report_findings r' = report_findings r /\ verdict r' = verdict r /\
    files_scanned r' = files_scanned r.
Proof.
  assert (Hinj : forall p q rel_path,
                   In p Demo.py_files -> In q Demo.py_files ->
                   Demo.relative_to p = Some rel_path ->
                   Demo.relative_to q = Some rel_path -> p = q).
  { intros p q rel_path Hp Hq.
    simpl in Hp, Hq.
    repeat match goal with
           | H : _ \/ _ |- _ => destruct H as [<- | H]
           | H : False |- _ => destruct H
           end;
      intros E F; first [reflexivity
                        | vm_compute in E, F; rewrite <- F in E;
                          discriminate E]. }
  pose proof (report_independent_of_scan_order
                Demo.read_text Demo.ast_parse Demo.relative_to
                Demo.py_files (rev Demo.py_files)
                (Permutation_rev Demo.py_files) Hinj) as [H _].
  destruct (main Demo.read_text Demo.ast_parse Demo.relative_to Demo.py_files)
    as [r|] eqn:Er; [|vm_compute in Er; discriminate Er].
  destruct (main Demo.read_text Demo.ast_parse Demo.relative_to
                 (rev Demo.py_files)) as [r'|]; [|destruct H].
  destruct H as (H1 & _ & _ & H2 & _ & H3 & _).
  exists r, r'. repeat split; assumption.
Defined.

(** *** The secret rule reports in line order *)

Lemma secret_expected_cases rel_path i text :
  secret_expected rel_path (i, text) = [] \/
  exists f, secret_expected rel_path (i, text) = [f] /\ line f = i.
Proof.
  unfold secret_expected. destruct (is_comment text); [now left|].
  destruct (first_secret SECRET_PATTERNS text); [|now left].
  right. eexists. split; reflexivity.
Qed.

Lemma secret_lines_increasing rel_path (lines : list string) : forall k,
  StronglySorted Pos.lt
    (map line (flat_map (secret_expected rel_path) (enumerate_from k lines))) /\
  Forall (fun f => (Pos.to_nat (line f) < Pos.to_nat k + List.length lines))
         (flat_map (secret_expected rel_path) (enumerate_from k lines)) /\
  List.length (flat_map (secret_expected rel_path) (enumerate_from k lines))
    <= List.length lines.
Proof.
  induction lines as [|x lines IH]; intros k.
  - split; [constructor | split; [constructor | apply Nat.le_refl]].
  - cbn [enumerate_from flat_map List.length].
    destruct (IH (Pos.succ k)) as (Hs & Hb & Hl).
    assert (Hge : Forall (fun f => (Pos.succ k <= line f)%positive)
                    (flat_map (secret_expected rel_path)
                              (enumerate_from (Pos.succ k) lines)))
      by (apply Forall_forall; intros f Hf;
          now apply enumerate_from_lines in Hf).
    assert (Hb' : Forall
              (fun f => Pos.to_nat (line f) < Pos.to_nat k + S (List.length lines))
              (flat_map (secret_expected rel_path)
                        (enumerate_from (Pos.succ k) lines)))
      by (eapply Forall_impl; [|exact Hb]; cbv beta; intros f Hf; lia).
    destruct (secret_expected_cases rel_path k x) as [-> | (f & -> & Hf)].
    + cbn [app]. split; [exact Hs|]. split; [exact Hb' | lia].
    + cbn [app map List.length]. split; [|split].
      * constructor; [exact Hs|].
        apply Forall_forall. intros l Hl'.
        apply in_map_iff in Hl' as (g & <- & Hg).
        rewrite Forall_forall in Hge. specialize (Hge g Hg). lia.
      * constructor; [lia | exact Hb'].
      * lia.
Qed.

(** X5. The secret rule reports at most one finding per line, in increasing
    line order and with line numbers inside the file; for a file that cannot
    be read again it reports nothing. *)
Theorem secret_findings_in_line_order
  (read_text : string -> option string)
  (filepath rel_path : string) (findings : list Finding) :
  exists added,
    check_hardcoded_secrets read_text filepath rel_path findings =
      findings ++ added /\
    StronglySorted Pos.lt (map line added) /\
    match read_text filepath with
    | Some source =>
        List.length added <= List.length (splitlines source) /\
        Forall (fun f => Pos.to_nat (line f) <= List.length (splitlines source))
               added
    | None => added = []
    end.
Proof.
  rewrite check_hardcoded_secrets_emit. unfold readlines.
  destruct (read_text filepath) as [source|]; cbn [option_map].
  - exists (flat_map (secret_expected rel_path)
                     (enumerate_from 1 (splitlines source))).
    destruct (secret_lines_increasing rel_path (splitlines source) 1)
      as (Hs & Hb & Hl).
    split; [reflexivity|]. split; [exact Hs|]. split; [exact Hl|].
    eapply Forall_impl; [|exact Hb]. cbv beta. intros f Hf. lia.
  - exists []. split; [now rewrite app_nil_r|].
    split; [constructor | reflexivity].
Qed.

(** *** From a dangerous construct to the exit status *)

Lemma enumerate_from_In (A : Type) (x : A) (l : list A) : forall k,
  In x l -> exists i, In (i, x) (enumerate_from k l).
Proof.
  induction l as [|y l IH]; intros k Hin; [destruct Hin|].
  destruct Hin as [-> | Hin].
  - exists k. now left.
  - destruct (IH (Pos.succ k) Hin) as (i & Hi). exists i. now right.
Qed.

Lemma first_secret_some (patterns : list (regex * string)) (text : string)
  (pattern : regex) (label : string) :
  In (pattern, label) patterns -> search pattern text = true ->
  exists label', first_secret patterns text = Some label'.
Proof.
  induction patterns as [|[p0 l0] patterns IH]; intros Hin Hs;
    [destruct Hin|].
  cbn [first_secret]. destruct (search p0 text) eqn:E0; [now exists l0|].
  destruct Hin as [Heq | Hin]; [|now apply IH].
  injection Heq as -> ->. congruence.
Qed.

Section Env4.
Variable read_text : string -> option string.
Variable ast_parse : string -> parse_result.
Variable relative_to : string -> option string.

(** X15. A dangerous construct in a file of the scan list that parses keeps
    the script from exit status 0: a call of the plain name [eval] or [exec]
    at any depth of the tree, a call of [.execute], [.raw], [.extra] or
    [.executemany] whose first argument is an f-string, or a line that is not
    a comment and matches one of the secret patterns.  When the run reaches
    its end, the report has a CRITICAL finding for that file, the verdict is
    REQUEST CHANGES and the status is 1, whatever the other files hold;
    otherwise the run has ended on another file, with status 2. *)
Theorem dangerous_construct_fails_the_run
  (py_files : list string) (filepath rel_path source : string)
  (tree : ast_module)
  (Hlisted : In filepath py_files)
  (Hrel : relative_to filepath = Some rel_path)
  (Hread : read_text filepath = Some source)
  (Hparse : ast_parse source = Parsed tree)
  (Hdanger :
     (exists id l0 args kws l,
        (id = "eval"%string \/ id = "exec"%string) /\
        In (NExpr (Call (Name id l0) args kws l)) (descendants (NMod tree)))
     \/
     (exists value attr l0 values lj rest kws l,
        In attr ["execute"; "raw"; "extra"; "executemany"]%string /\
        In (NExpr (Call (Attribute value attr l0)
                        (JoinedStr values lj :: rest) kws l))
           (descendants (NMod tree)))
     \/
     (exists text pattern label,
        In text (splitlines source) /\
        startswith (strip text) "#" = false /\
        In (pattern, label) SECRET_PATTERNS /\
        search pattern text = true)) :
  match main read_text ast_parse relative_to py_files with
  | Returned r =>
      verdict r = REQUEST_CHANGES /\ exit_status r = 1 /\
      script_exit read_text ast_parse relative_to py_files = 1 /\
      exists f,
        In f (report_findings r) /\ severity f = CRITICAL /\
        file f = rel_path /\ 90 <= confidence f
  | Raised =>
      script_exit read_text ast_parse relative_to py_files = 2 /\
      exists other,
        In other py_files /\ other <> filepath /\
        (relative_to other = None \/
         exists text,
           read_text other = Some text /\ ast_parse text = OtherError)
  end.
Proof.
  assert (Hfind : exists f,
            In f (file_findings source tree rel_path) /\
            severity f = CRITICAL /\ file f = rel_path /\
            90 <= confidence f).
  { unfold file_findings. cbv zeta.
    destruct Hdanger as [(id & l0 & args & kws & l & Hid & Hn)
                        | [(value & attr & l0 & values & lj & rest & kws & l
                            & Hattr & Hn)
                          | (text & pattern & label & Htext & Hc & Hpat & Hs)]].
    - exists (eval_exec_finding rel_path (id, l)).
      split; [|repeat split; simpl; lia].
      rewrite !in_app_iff. do 4 right. left.
      apply in_map. apply in_flat_map.
      exists (NExpr (Call (Name id l0) args kws l)). split.
      + eapply Permutation_in; [apply Permutation_sym, walk_perm | exact Hn].
      + destruct Hid as [-> | ->]; now left.
    - exists (sql_fstring rel_path attr l).
      split; [|repeat split; simpl; lia].
      rewrite !in_app_iff. do 5 right. left.
      apply in_flat_map.
      exists (NExpr (Call (Attribute value attr l0)
                          (JoinedStr values lj :: rest) kws l)). split.
      + eapply Permutation_in; [apply Permutation_sym, walk_perm | exact Hn].
      + cbn [sql_expected first_arg_shape].
        replace (existsb (String.eqb attr) query_methods) with true;
          [now left|].
        symmetry. apply existsb_exists. exists attr.
        split; [exact Hattr | apply String.eqb_refl].
    - destruct (first_secret_some SECRET_PATTERNS text pattern label Hpat Hs)
        as (label' & Hl).
      destruct (enumerate_from_In string text (splitlines source) 1 Htext)
        as (i & Hi).
      exists (secret_finding rel_path label' i).
      split; [|repeat split; simpl; lia].
      rewrite !in_app_iff. do 6 right. left.
      apply in_flat_map. exists (i, text). split; [exact Hi|].
      unfold secret_expected, is_comment. rewrite Hc, Hl. now left. }
  destruct Hfind as (f & Hf & Hc & Hfile & Hconf).
  assert (Hper : per_file read_text ast_parse relative_to filepath =
                 Scanned rel_path (file_findings source tree rel_path))
    by (unfold per_file; now rewrite Hrel, Hread, Hparse).
  assert (Hof : In f (RunSpec.findings_of read_text ast_parse relative_to
                                          filepath))
    by (unfold RunSpec.findings_of; now rewrite Hper).
  pose proof (main_report read_text ast_parse relative_to py_files) as H.
  pose proof (script_exit_cases read_text ast_parse relative_to py_files)
    as Hexit.
  destruct (main read_text ast_parse relative_to py_files) as [r|] eqn:Hr.
  - assert (Hpos : 0 < critical_count r)
      by (apply (critical_count_positive read_text ast_parse relative_to
                   py_files r Hr); now exists filepath, f).
    destruct H as (_ & _ & _ & _ & _ & _ & Hv).
    destruct Hv as [(_ & Hv & He) | [(H0 & _) | (H0 & _)]]; try lia.
    split; [exact Hv|]. split; [exact He|].
    split; [now rewrite Hexit|].
    exists f. split; [|auto].
    apply (report_findings_In read_text ast_parse relative_to py_files r f
             Hr).
    now exists filepath.
  - split; [exact Hexit|].
    destruct H as (other & Hother & Ha).
    exists other. split; [exact Hother|]. split.
    + intros ->. unfold RunSpec.aborts in Ha. rewrite Hper in Ha.
      discriminate.
    + now apply aborts_iff.
Qed.

End Env4.

Lemma dangerous_construct_fails_the_run_witness :
  exists r,
    main Samples.read_text Samples.ast_parse Demo.relative_to
         ["/repo/util.py"; "/repo/run.py"]%string = Returned r /\
    verdict r = REQUEST_CHANGES /\ exit_status r = 1.
Proof.
  assert (Hdanger :
     (exists id l0 args kws l,
        (id = "eval"%string \/ id = "exec"%string) /\
        In (NExpr (Call (Name id l0) args kws l))
           (descendants (NMod Samples.run_tree)))
     \/
     (exists value attr l0 values lj rest kws l,
        In attr ["execute"; "raw"; "extra"; "executemany"]%string /\
        In (NExpr (Call (Attribute value attr l0)
                        (JoinedStr values lj :: rest) kws l))
           (descendants (NMod Samples.run_tree)))
     \/
     (exists text pattern label,
        In text (splitlines Samples.run_source) /\
        startswith (strip text) "#" = false /\
        In (pattern, label) SECRET_PATTERNS /\
        search pattern text = true)).
  { left. exists "eval"%string, 1%positive, [Name "data" 1%positive], [],
      1%positive.
    split; [now left|]. vm_compute. tauto. }
  pose proof (dangerous_construct_fails_the_run
                Samples.read_text Samples.ast_parse Demo.relative_to
                ["/repo/util.py"; "/repo/run.py"]%string "/repo/run.py"
                "run.py" Samples.run_source Samples.run_tree
                (or_intror (or_introl eq_refl)) eq_refl eq_refl eq_refl
                Hdanger) as H.
  destruct (main Samples.read_text Samples.ast_parse Demo.relative_to
                 ["/repo/util.py"; "/repo/run.py"]%string) as [r|] eqn:Er;
    [|vm_compute in Er; discriminate Er].
  destruct H as (Hv & He & _).
  exists r. split; [reflexivity|]. split; [exact Hv | exact He].
Defined.

End RunFacts.

(* ------------------------------------------------------------------------- *)
(** ** The two rules about exception handlers *)

Module ExceptFacts.
Import PyAst PyStr Re Review Spec WalkFacts RuleFacts.

Lemma in_walk_emit (B : Type) (emit : node -> list B) (tree : node) (x : B) :
  In x (flat_map emit (walk tree)) <->
  exists n, In n (descendants tree) /\ In x (emit n).
Proof.
  rewrite <- in_flat_map. split; apply Permutation_in.
  - apply walk_emit_perm.
  - apply Permutation_sym, walk_emit_perm.
Qed.

(** X16. The bare-except rule reports the handlers without an exception
    type, wherever they are in the tree and whatever their body is, and no
    other node.  The empty-body rule reports the handlers, typed or not,
    whose body is a single [pass] on a line of the file that has no [#]; a
    [pass] line beyond the end of the file as read again, or a file that
    cannot be read again, gives nothing. *)
Theorem except_rules_scope
  (read_text : string -> option string) (tree : ast_module)
  (filepath rel_path : string) (findings : list Finding) :
  exists bare empty,
    check_bare_except tree filepath rel_path findings = findings ++ bare /\
    check_empty_except_body read_text tree filepath rel_path findings =
      findings ++ empty /\
    (forall f,
       In f bare <->
       exists name body lineno,
         In (NHandler (ExceptHandler None name body lineno))
            (descendants (NMod tree)) /\
         f = mkFinding rel_path lineno WARNING 90
               "Bare except: block catches all exceptions including SystemExit/KeyboardInterrupt"
               "Use 'except Exception:' or catch specific exception types") /\
    match read_text filepath with
    | Some source =>
        forall f,
          In f empty <->
          exists type name pass_lineno lineno line_text,
            In (NHandler (ExceptHandler type name [Pass pass_lineno] lineno))
               (descendants (NMod tree)) /\
            nth_error (splitlines source) (Pos.to_nat pass_lineno - 1) =
              Some line_text /\
            ~ In "#"%char (list_ascii_of_string line_text) /\
            f = mkFinding rel_path lineno WARNING 85
                  "Empty except block silently swallows errors"
                  "Add error logging, re-raise, or add a comment explaining why"
    | None => empty = []
    end.
Proof.
  exists (flat_map (bare_except_expected rel_path) (walk (NMod tree))).
  exists (match readlines read_text filepath with
          | Some source_lines =>
              flat_map (empty_except_expected source_lines rel_path)
                       (walk (NMod tree))
          | None => []
          end).
  split; [apply check_bare_except_emit|].
  split.
  { rewrite check_empty_except_body_emit.
    destruct (readlines read_text filepath); [reflexivity|].
    now rewrite app_nil_r. }
  split.
  - intros f. rewrite in_walk_emit. split.
    + intros (n & Hn & Hf).
      destruct n as [m|s|e|[[t|] nm b l]|k|a|a]; try destruct Hf.
      * exists nm, b, l. split; [exact Hn | now symmetry].
      * contradiction.
    + intros (nm & b & l & Hn & ->).
      eexists. split; [exact Hn|]. now left.
  - unfold readlines. destruct (read_text filepath) as [source|];
      cbn [option_map]; [|reflexivity].
    intros f. rewrite in_walk_emit. split.
    + intros (n & Hn & Hf).
      destruct n as [m|s|e|[t nm b l]|k|a|a]; try destruct Hf.
      destruct b as [|[| | | | | | | | |pl] [|]]; try destruct Hf.
      cbn [empty_except_expected] in Hf.
      destruct (nth_error (splitlines source) (Pos.to_nat pl - 1))
        as [line_text|] eqn:El; [|destruct Hf].
      destruct (contains "#" line_text) eqn:Eh; [destruct Hf|].
      destruct Hf as [<- | []].
      exists t, nm, pl, l, line_text.
      split; [exact Hn|]. split; [exact El|]. split; [|reflexivity].
      intros Hc. apply contains_char in Hc. congruence.
    + intros (t & nm & pl & l & line_text & Hn & El & Hh & ->).
      eexists. split; [exact Hn|].
      cbn [empty_except_expected]. rewrite El.
      destruct (contains "#" line_text) eqn:Eh; [|now left].
      apply contains_char in Eh. contradiction.
Qed.

End ExceptFacts.

(* ------------------------------------------------------------------------- *)
(** ** The project root and the arguments *)

Module SetupFacts.
Import PyStr Re PyText Setup.

Lemma parent_firstn (cwd : path) (n : nat) :
  n < List.length cwd -> parent (firstn (S n) cwd) = firstn n cwd.
Proof. intros H. unfold parent. now apply removelast_firstn. Qed.

Lemma firstn_S_cons (cwd : path) (n : nat) :
  n < List.length cwd -> exists c rest, firstn (S n) cwd = c :: rest.
Proof. destruct cwd as [|c cwd]; simpl; [lia | eauto]. Qed.

(** The loop, started at the ancestor of depth [n] once every deeper one has
    been found without [.git]. *)
Lemma find_root_loop_from (is_dir : path -> bool) (cwd : path) :
  forall n fuel,
  n <= List.length cwd -> n < fuel ->
  (forall m, n < m <= List.length cwd ->
             is_dir (firstn m cwd ++ [".git"]) = false) ->
  let root := find_root_loop is_dir fuel (firstn n cwd) cwd in
  (root = cwd /\
   forall m, 1 <= m <= List.length cwd ->
             is_dir (firstn m cwd ++ [".git"]) = false) \/
  (exists k, 1 <= k <= List.length cwd /\ root = firstn k cwd /\
             is_dir (root ++ [".git"]) = true /\
             forall m, k < m <= List.length cwd ->
                       is_dir (firstn m cwd ++ [".git"]) = false).
Proof.
  induction n as [|n IH]; intros fuel Hn Hfuel Hdeeper; cbv zeta.
  - destruct fuel as [|fuel]; [lia|]. simpl. left. split; [reflexivity|].
    intros m Hm. apply Hdeeper. lia.
  - destruct fuel as [|fuel]; [lia|].
    destruct (firstn_S_cons cwd n) as (c & rest & E); [lia|].
    cbn [find_root_loop]. rewrite E. rewrite <- E.
    destruct (is_dir (firstn (S n) cwd ++ [".git"])) eqn:Egit.
    + right. exists (S n). repeat split; try lia; assumption.
    + rewrite parent_firstn by lia. apply IH; try lia.
      intros m Hm. destruct (Nat.eq_dec m (S n)) as [-> | Hne];
        [exact Egit | apply Hdeeper; lia].
Qed.

(** X6. The project root is the closest directory, going up from the working
    directory, that holds a [.git] directory; the file system root itself is
    never tried, and when no directory qualifies the working directory is
    the root. *)
Theorem find_project_root_nearest_git (is_dir : path -> bool) (cwd : path) :
  let root := find_project_root is_dir cwd in
  (root = cwd /\
   forall m, 1 <= m <= List.length cwd ->
             is_dir (firstn m cwd ++ [".git"]) = false) \/
  (exists k, 1 <= k <= List.length cwd /\ root = firstn k cwd /\
             is_dir (root ++ [".git"]) = true /\
             forall m, k < m <= List.length cwd ->
                       is_dir (firstn m cwd ++ [".git"]) = false).
Proof.
  unfold find_project_root.
  pose proof (find_root_loop_from is_dir cwd (List.length cwd)
                (S (List.length cwd)) (Nat.le_refl _) (Nat.lt_succ_diag_r _))
    as H.
  rewrite firstn_all in H. apply H. intros m Hm. lia.
Qed.

(** *** [--path] *)

Lemma enumerate_nat_app (A : Type) (l1 l2 : list A) : forall i,
  enumerate_nat i (l1 ++ l2) =
  enumerate_nat i l1 ++ enumerate_nat (i + List.length l1) l2.
Proof.
  induction l1 as [|x l1 IH]; intros i; simpl.
  - now rewrite Nat.add_0_r.
  - rewrite IH. do 3 f_equal. lia.
Qed.

Lemma path_step_skips (argv : list string) (l : list string) :
  forall i acc,
  (forall j, nth_error l j = Some "--path" ->
             List.length argv - 1 <= i + j) ->
  fold_left (path_step argv) (enumerate_nat i l) acc = acc.
Proof.
  induction l as [|x l IH]; intros i acc H; simpl; [reflexivity|].
  assert (Hx : String.eqb x "--path" && (i <? List.length argv - 1) = false).
  { destruct (String.eqb_spec x "--path") as [-> | Hne]; [|reflexivity].
    specialize (H 0 eq_refl). simpl.
    apply Nat.ltb_ge. lia. }
  rewrite Hx. apply IH. intros j Hj. specialize (H (S j) Hj). lia.
Qed.

(** X7. The directory given after the last [--path] that is not the final
    argument replaces the manifest's backend path, unless it is the empty
    text, which leaves the manifest's path (or [.]) in place; a [--path]
    that ends the command line is ignored. *)
Theorem custom_path_last_wins (prog : string) (before : list string)
  (value : string) (after : list string)
  (Hlast : forall j, nth_error (value :: after) j = Some "--path" ->
                     j = List.length after) :
  custom_path (prog :: before ++ "--path" :: value :: after) = Some value /\
  forall manifest : dict,
    backend_path manifest (prog :: before ++ "--path" :: value :: after) =
    if truthy value then value else dict_get manifest "paths.backend" ".".
Proof.
  assert (Hcustom : custom_path (prog :: before ++ "--path" :: value :: after)
                    = Some value); [|split; [exact Hcustom|];
    intros manifest; unfold backend_path; cbv zeta; rewrite Hcustom;
    reflexivity].
  unfold custom_path. cbn [tl].
  set (argv := prog :: before ++ "--path" :: value :: after).
  assert (Hlen : List.length argv = 3 + List.length before + List.length after).
  { unfold argv. simpl. rewrite length_app. simpl. lia. }
  rewrite enumerate_nat_app, fold_left_app.
  change (enumerate_nat (1 + List.length before)
            ("--path" :: value :: after))
    with ((1 + List.length before, "--path")
          :: enumerate_nat (S (1 + List.length before)) (value :: after)).
  cbn [fold_left].
  assert (Hstep : forall acc,
            path_step argv acc (1 + List.length before, "--path") =
            Some value).
  { intros acc. unfold path_step. rewrite String.eqb_refl.
    replace (1 + List.length before <? List.length argv - 1) with true
      by (symmetry; apply Nat.ltb_lt; lia).
    cbn [andb]. f_equal. unfold argv.
    replace (1 + List.length before + 1)
      with (S (List.length before + 1)) by lia.
    cbn [nth]. rewrite app_nth2 by lia.
    replace (List.length before + 1 - List.length before) with 1 by lia.
    reflexivity. }
  rewrite Hstep.
  apply path_step_skips. intros j Hj.
  specialize (Hlast j Hj). lia.
Qed.

Lemma custom_path_last_wins_witness :
  custom_path ["review.py"; "--path"; "old"; "--changed-only"; "--path";
               "apps/api"; "--path"] = Some "apps/api".
Proof.
  apply (custom_path_last_wins "review.py" ["--path"; "old"; "--changed-only"]
           "apps/api" ["--path"]).
  intros [|[|j]] Hj; simpl in Hj;
    [discriminate | reflexivity | destruct j; discriminate].
Defined.

(** *** Which file names are kept *)

Lemma match_here_void (to_end : bool) (s : string) :
  match_here to_end Void s = false.
Proof. induction s; simpl; auto. Qed.

Lemma deriv_lit (a c : ascii) (p : string) :
  deriv a (lit (String c p)) = if Ascii.eqb a c then lit p else Void.
Proof.
  cbn [lit deriv nullable].
  destruct (Ascii.eqb a c); [|reflexivity].
  destruct (lit p); reflexivity.
Qed.

Lemma at_end_iff (s : string) :
  at_end s = true <-> s = EmptyString \/ s = String newline EmptyString.
Proof.
  destruct s as [|c [|d s]]; simpl.
  - tauto.
  - rewrite Ascii.eqb_eq. split; [intros ->; now right|].
    intros [H | H]; [discriminate | congruence].
  - split; [discriminate | intros [H | H]; discriminate].
Qed.

Lemma match_here_lit (to_end : bool) (p : string) : forall s,
  match_here to_end (lit p) s = true <->
  exists rest, s = (p ++ rest)%string /\
               (if to_end then at_end rest else true) = true.
Proof.
  induction p as [|c p IH]; intros s.
  - change (lit EmptyString) with Eps.
    destruct s as [|a s]; cbn [match_here nullable deriv andb orb append].
    + rewrite orb_false_r. split; [intros H; now exists EmptyString|].
      now intros (rest & <- & H).
    + rewrite match_here_void, orb_false_r.
      split; [intros H; now exists (String a s)|].
      now intros (rest & <- & H).
  - destruct s as [|a s].
    + simpl. split; [discriminate | intros (rest & H & _); discriminate].
    + cbn [match_here]. rewrite deriv_lit.
      replace (nullable (lit (String c p))) with false by reflexivity.
      cbn [andb orb].
      destruct (Ascii.eqb_spec a c) as [-> | Hne].
      * rewrite IH. split; intros (rest & E & H); exists rest;
          (split; [simpl in *; congruence | exact H]).
      * rewrite match_here_void. split; [discriminate|].
        intros (rest & E & _). simpl in E. congruence.
Qed.

Lemma search_from_lit (to_end : bool) (p s : string) :
  search_from to_end (lit p) s = true <->
  exists pre rest, s = (pre ++ p ++ rest)%string /\
                   (if to_end then at_end rest else true) = true.
Proof.
  induction s as [|a s IH]; cbn [search_from].
  - rewrite orb_false_r, match_here_lit. split.
    + intros (rest & E & H). now exists EmptyString, rest.
    + intros (pre & rest & E & H). destruct pre; [|discriminate].
      now exists rest.
  - rewrite orb_true_iff, match_here_lit, IH. split.
    + intros [(rest & E & H) | (pre & rest & -> & H)].
      * now exists EmptyString, rest.
      * now exists (String a pre), rest.
    + intros (pre & rest & E & H). destruct pre as [|b pre]; simpl in E.
      * left. now exists rest.
      * injection E as <- ->. right. now exists pre, rest.
Qed.

Lemma endswith_app (s suffix : string) :
  endswith s suffix = true <-> exists pre, s = (pre ++ suffix)%string.
Proof.
  induction s as [|a s IH]; cbn [endswith].
  - rewrite orb_false_r, String.eqb_eq. split.
    + intros <-. now exists EmptyString.
    + intros (pre & E). destruct pre; [exact E | discriminate].
  - rewrite orb_true_iff, String.eqb_eq, IH. split.
    + intros [<- | (pre & ->)]; [now exists EmptyString|].
      now exists (String a pre).
    + intros (pre & E). destruct pre as [|b pre]; simpl in E.
      * now left.
      * injection E as <- ->. right. now exists pre.
Qed.

Lemma list_ascii_app (s t : string) :
  list_ascii_of_string (s ++ t) =
  list_ascii_of_string s ++ list_ascii_of_string t.
Proof. induction s; simpl; congruence. Qed.

(** A name that ends in [.py] does not end in a newline. *)
Lemma py_name_no_newline (x y : string) :
  (x ++ ".py")%string = (y ++ String newline EmptyString)%string -> False.
Proof.
  intros E. apply (f_equal list_ascii_of_string) in E.
  rewrite !list_ascii_app in E.
  change (list_ascii_of_string ".py") with (["."; "p"]%char ++ ["y"%char]) in E.
  rewrite app_assoc in E. cbn [list_ascii_of_string] in E.
  apply app_inj_tail in E as [_ E]. discriminate.
Qed.

Lemma append_assoc' (s t u : string) :
  ((s ++ t) ++ u)%string = (s ++ t ++ u)%string.
Proof. induction s; simpl; congruence. Qed.

(** X8. A file name passes the filter of the full scan exactly when it ends
    in [.py], does not start with [test_], does not end in [_test.py] and is
    not [conftest.py]. *)
Theorem keep_file_iff (fn : string) :
  keep_file fn = true <->
  endswith fn ".py" = true /\
  startswith fn "test_" = false /\
  endswith fn "_test.py" = false /\
  fn <> "conftest.py".
Proof.
  unfold keep_file, search_any, EXCLUDE_FILES, search_branch.
  cbn [existsb anchored_start anchored_end body].
  rewrite andb_true_iff, negb_true_iff, orb_false_r, !orb_false_iff.
  split.
  - intros (Hpy & Ht & Hs & Hc). split; [exact Hpy|].
    apply endswith_app in Hpy as (x & Hx). repeat split.
    + destruct (startswith fn "test_") eqn:E; [|reflexivity].
      unfold startswith in E. apply RuleClaims.prefix_app in E as (post & E).
      assert (match_here false (lit "test_") fn = true)
        by (apply match_here_lit; now exists post).
      congruence.
    + destruct (endswith fn "_test.py") eqn:E; [|reflexivity].
      apply endswith_app in E as (pre & E).
      assert (search_from true (lit "_test.py") fn = true).
      { apply search_from_lit. exists pre, EmptyString.
        split; [|reflexivity]. rewrite E. reflexivity. }
      congruence.
    + intros ->.
      assert (match_here true (lit "conftest.py") "conftest.py" = true)
        by reflexivity.
      congruence.
  - intros (Hpy & Ht & Hs & Hc). split; [exact Hpy|].
    apply endswith_app in Hpy as (x & Hx). repeat split.
    + destruct (match_here false (lit "test_") fn) eqn:E; [|reflexivity].
      apply match_here_lit in E as (rest & E & _).
      assert (startswith fn "test_" = true)
        by (unfold startswith; apply RuleClaims.prefix_app; now exists rest).
      congruence.
    + destruct (search_from true (lit "_test.py") fn) eqn:E; [|reflexivity].
      apply search_from_lit in E as (pre & rest & E & Hend).
      apply at_end_iff in Hend as [-> | ->].
      * assert (endswith fn "_test.py" = true).
        { apply endswith_app. exists pre. rewrite E. reflexivity. }
        congruence.
      * exfalso. rewrite E in Hx. rewrite <- !append_assoc' in Hx.
        symmetry in Hx. exact (py_name_no_newline _ _ Hx).
    + destruct (match_here true (lit "conftest.py") fn) eqn:E; [|reflexivity].
      apply match_here_lit in E as (rest & E & Hend).
      apply at_end_iff in Hend as [-> | ->].
      * exfalso. apply Hc. rewrite E. reflexivity.
      * exfalso. rewrite E in Hx. symmetry in Hx.
        exact (py_name_no_newline _ _ Hx).
Qed.

(** *** The full scan *)

Lemma dirtree_ind_nested (P : dirtree -> Prop) :
  (forall dirnames filenames,
     Forall (fun entry => P (snd entry)) dirnames ->
     P (Dir dirnames filenames)) ->
  forall t, P t.
Proof.
  intros H. fix IH 1. intros [dirnames filenames]. apply H.
  induction dirnames as [|[d sub] dirnames IHd]; constructor.
  - apply IH.
  - exact IHd.
Qed.

Lemma walk_files_In (t : dirtree) :
  forall (dirpath p : path),
  In p (walk_files dirpath t) <->
  exists dirs fn,
    p = dirpath ++ dirs ++ [fn] /\
    has_file dirs t fn /\
    Forall (fun d => ~ In d EXCLUDE_DIRS) dirs /\
    keep_file fn = true.
Proof.
  induction t as [dirnames filenames IH] using dirtree_ind_nested.
  intros dirpath p. cbn [walk_files]. rewrite in_app_iff, in_map_iff, in_flat_map.
  rewrite Forall_forall in IH. split.
  - intros [(fn & <- & Hfn) | ([d sub] & Hin & Hp)].
    + apply filter_In in Hfn as [Hfn Hkeep].
      exists [], fn. repeat split; auto.
    + destruct (existsb (String.eqb d) EXCLUDE_DIRS) eqn:Ex; [destruct Hp|].
      apply (IH (d, sub) Hin) in Hp as (dirs & fn & -> & Hhas & Hok & Hkeep).
      exists (d :: dirs), fn. split; [now rewrite <- app_assoc|].
      split; [now exists sub|]. split; [|exact Hkeep].
      constructor; [|exact Hok].
      intros Hd. assert (existsb (String.eqb d) EXCLUDE_DIRS = true);
        [|congruence].
      apply existsb_exists. exists d. split; [exact Hd | apply String.eqb_refl].
  - intros (dirs & fn & -> & Hhas & Hok & Hkeep).
    destruct dirs as [|d ds]; cbn [has_file] in Hhas.
    + left. exists fn. split; [reflexivity|]. apply filter_In. auto.
    + right. destruct Hhas as (sub & Hin & Hhas).
      exists (d, sub). split; [exact Hin|].
      inversion Hok as [|? ? Hd Hds]; subst.
      destruct (existsb (String.eqb d) EXCLUDE_DIRS) eqn:Ex.
      * exfalso. apply Hd. apply existsb_exists in Ex as (x & Hx & E).
        apply String.eqb_eq in E. now subst x.
      * apply (IH (d, sub) Hin). exists ds, fn.
        split; [now rewrite <- app_assoc|]. auto.
Qed.

(** X9. A full scan collects exactly the files below the scanned directory
    that pass the name filter and are reached through directories none of
    which bears an excluded name.  The scanned directory is the backend path
    below the root when that is a directory and the root itself otherwise;
    its own name is not checked.  Changed-only mode does the same when git
    cannot be run. *)
Theorem full_scan_collects
  (lookup_dir : path -> option dirtree) (is_file : path -> bool)
  (git_diff : option string) (root : path) (backend_path : string) :
  let search_dir :=
    match lookup_dir (join root backend_path) with
    | Some _ => join root backend_path
    | None => root
    end in
  (forall p,
     In p (collect_py_files lookup_dir is_file git_diff root backend_path
             false) <->
     exists t dirs fn,
       lookup_dir search_dir = Some t /\
       p = search_dir ++ dirs ++ [fn] /\
       has_file dirs t fn /\
       Forall (fun d => ~ In d EXCLUDE_DIRS) dirs /\
       keep_file fn = true) /\
  collect_py_files lookup_dir is_file None root backend_path true =
  collect_py_files lookup_dir is_file git_diff root backend_path false.
Proof.
  cbv zeta. split; [|reflexivity].
  intros p. unfold collect_py_files.
  set (search_dir := match lookup_dir (join root backend_path) with
                     | Some _ => join root backend_path
                     | None => root
                     end).
  destruct (lookup_dir search_dir) as [t|].
  - rewrite walk_files_In. split.
    + intros (dirs & fn & H). now exists t, dirs, fn.
    + intros (t' & dirs & fn & [= <-] & H). now exists dirs, fn.
  - split; [intros [] | intros (t & dirs & fn & E & _); discriminate].
Qed.

(** X10. In changed-only mode, when git answers, the scan list holds the
    lines of its output that end in [.py] and name a file below the root, in
    the order of the output, and nothing else: a changed test file or a
    changed file in an excluded directory is scanned, and neither the backend
    path nor the directory tree plays a part.  Output that is blank gives an
    empty scan list. *)
Theorem changed_only_takes_git_lines
  (lookup_dir : path -> option dirtree) (is_file : path -> bool)
  (stdout : string) (root : path) (backend_path : string) :
  let files :=
    collect_py_files lookup_dir is_file (Some stdout) root backend_path true in
  (forall p,
     In p files <->
     exists f,
       In f (split newline (strip stdout)) /\
       endswith f ".py" = true /\ is_file (join root f) = true /\
       p = join root f) /\
  (forall lookup_dir' backend_path',
     collect_py_files lookup_dir' is_file (Some stdout) root backend_path' true
     = files) /\
  (strip stdout = EmptyString -> files = []) /\
  List.length files <= List.length (split newline (strip stdout)).
Proof.
  cbv zeta. unfold collect_py_files. split; [|split; [|split]].
  - intros p. rewrite in_flat_map. split.
    + intros (f & Hf & Hp). exists f. split; [exact Hf|].
      destruct (endswith f ".py"); [|destruct Hp].
      cbv zeta in Hp. destruct (is_file (join root f)); [|destruct Hp].
      destruct Hp as [<- | []]. auto.
    + intros (f & Hf & Hpy & Hfile & ->). exists f. split; [exact Hf|].
      rewrite Hpy. cbv zeta. rewrite Hfile. now left.
  - reflexivity.
  - intros ->. reflexivity.
  - generalize (split newline (strip stdout)). intros l.
    induction l as [|f l IH]; cbn [flat_map List.length]; [lia|].
    rewrite length_app.
    destruct (endswith f ".py"); cbv zeta; [|simpl; lia].
    destruct (is_file (join root f)); simpl; lia.
Qed.

End SetupFacts.

(* ------------------------------------------------------------------------- *)
(** ** The manifest reader *)

Module TextFacts.
Import PyStr Re PyText Setup.

Lemma length_append (s t : string) :
  String.length (s ++ t) = String.length s + String.length t.
Proof. induction s; simpl; congruence. Qed.

Lemma first_some_None (A B : Type) (f : A -> option B) (l : list A) :
  first_some f l = None <-> forall x, In x l -> f x = None.
Proof.
  induction l as [|x l IH]; cbn [first_some].
  - split; [intros _ x [] | reflexivity].
  - destruct (f x) eqn:E.
    + split; [discriminate|]. intros H. rewrite <- E. apply H. now left.
    + rewrite IH. split.
      * intros H y [<- | Hy]; [exact E | now apply H].
      * intros H y Hy. apply H. now right.
Qed.

Lemma first_some_Some (A B : Type) (f : A -> option B) (l : list A) (y : B) :
  first_some f l = Some y -> exists x, In x l /\ f x = Some y.
Proof.
  induction l as [|x l IH]; cbn [first_some]; [discriminate|].
  destruct (f x) eqn:E.
  - intros [= ->]. exists x. split; [now left | exact E].
  - intros H. destruct (IH H) as (x' & Hx & Hf). exists x'. split;
      [now right | exact Hf].
Qed.

Lemma strip_prefix_Some (p s r : string) :
  strip_prefix p s = Some r <-> s = (p ++ r)%string.
Proof.
  revert s. induction p as [|a p IH]; intros s; cbn [strip_prefix append].
  - split; [intros [= ->]; reflexivity | intros ->; reflexivity].
  - destruct s as [|b s]; [split; discriminate|].
    destruct (Ascii.eqb_spec a b) as [-> | Hne].
    + rewrite IH. split; [intros ->; reflexivity | intros [= ->]; reflexivity].
    + split; [discriminate | intros [= E _]; congruence].
Qed.

(** The encodings of the blanks: a single byte of ASCII, or a lead byte and
    one or two continuation bytes, none of them in ASCII. *)
Lemma blank_shape (cp : N) :
  In cp WHITESPACE ->
  exists e enc,
    chr cp = String e enc /\
    forallb high (list_ascii_of_string enc) = true /\
    (high e = false -> enc = EmptyString).
Proof.
  intros Hin.
  assert (Hall : forallb
            (fun cp =>
               match chr cp with
               | EmptyString => false
               | String e enc =>
                   forallb high (list_ascii_of_string enc)
                   && (high e || match enc with
                                 | EmptyString => true
                                 | String _ _ => false
                                 end)
               end) WHITESPACE = true) by (vm_compute; reflexivity).
  rewrite forallb_forall in Hall. specialize (Hall cp Hin).
  destruct (chr cp) as [|e enc]; [discriminate|].
  apply andb_true_iff in Hall as [Hhigh Hlead].
  exists e, enc. split; [reflexivity|]. split; [exact Hhigh|].
  intros He. rewrite He in Hlead. now destruct enc.
Qed.

Lemma skip_space_Some (s r : string) :
  skip_space s = Some r ->
  exists cp, In cp WHITESPACE /\ s = (chr cp ++ r)%string.
Proof.
  unfold skip_space. intros H. apply first_some_Some in H as (cp & Hin & H).
  exists cp. split; [exact Hin|]. now apply strip_prefix_Some.
Qed.

Lemma skip_space_shorter (s r : string) :
  skip_space s = Some r -> String.length r < String.length s.
Proof.
  intros H. apply skip_space_Some in H as (cp & Hin & ->).
  destruct (blank_shape cp Hin) as (e & enc & -> & _).
  rewrite length_append. simpl. lia.
Qed.

(** The fuel of [lstrip] is enough: one turn of the loop, then [lstrip] of
    what is left. *)
Lemma lstrip_fuel_enough (n : nat) : forall m s,
  String.length s <= n -> String.length s <= m ->
  lstrip_fuel n s = lstrip_fuel m s.
Proof.
  induction n as [|n IH]; intros m s Hn Hm.
  - destruct s; [|simpl in Hn; lia]. now destruct m.
  - destruct m as [|m].
    + destruct s; [reflexivity | simpl in Hm; lia].
    + cbn [lstrip_fuel]. destruct (skip_space s) as [r|] eqn:E; [|reflexivity].
      apply skip_space_shorter in E. apply IH; lia.
Qed.

Lemma lstrip_eq (s : string) :
  lstrip s = match skip_space s with
             | Some r => lstrip r
             | None => s
             end.
Proof.
  unfold lstrip. destruct s as [|c s]; [reflexivity|].
  cbn [String.length lstrip_fuel].
  destruct (skip_space (String c s)) as [r|] eqn:E; [|reflexivity].
  apply skip_space_shorter in E. cbn [String.length] in E.
  apply lstrip_fuel_enough; lia.
Qed.

Lemma lstrip_solid (s : string) : skip_space s = None -> lstrip s = s.
Proof. intros H. now rewrite lstrip_eq, H. Qed.

(** A blank does not reach from a text into ASCII that follows it. *)
Lemma strip_high_None (enc : string) : forall w rest,
  forallb high (list_ascii_of_string enc) = true ->
  head_ascii rest ->
  strip_prefix enc w = None -> strip_prefix enc (w ++ rest) = None.
Proof.
  induction enc as [|e enc IH]; intros w rest Hhigh Hrest H;
    [discriminate H|].
  cbn [list_ascii_of_string forallb] in Hhigh.
  apply andb_true_iff in Hhigh as [He Hhigh].
  destruct w as [|c w]; cbn [append strip_prefix] in *.
  - destruct rest as [|d rest]; [reflexivity|]. cbn [head_ascii] in Hrest.
    destruct (Ascii.eqb_spec e d) as [-> | _]; [congruence | reflexivity].
  - destruct (Ascii.eqb e c); [now apply IH | reflexivity].
Qed.

Lemma skip_space_app (w rest : string) :
  w <> EmptyString -> head_ascii rest ->
  skip_space w = None -> skip_space (w ++ rest) = None.
Proof.
  intros Hw Hrest H. unfold skip_space in *.
  rewrite first_some_None in *. intros cp Hin. specialize (H cp Hin).
  destruct (blank_shape cp Hin) as (e & enc & E & Hhigh & _).
  rewrite E in *. destruct w as [|c w]; [contradiction|].
  cbn [append strip_prefix] in *.
  destruct (Ascii.eqb e c); [now apply strip_high_None | reflexivity].
Qed.

(** A text that ends in an ASCII character. *)
Lemma strip_high_Some (enc : string) : forall t c u r,
  forallb high (list_ascii_of_string enc) = true -> high c = false ->
  strip_prefix enc ((t ++ String c EmptyString) ++ u) = Some r ->
  exists t', t = (enc ++ t')%string /\
             r = ((t' ++ String c EmptyString) ++ u)%string.
Proof.
  induction enc as [|e enc IH]; intros t c u r Hhigh Hc H.
  - injection H as <-. now exists t.
  - cbn [list_ascii_of_string forallb] in Hhigh.
    apply andb_true_iff in Hhigh as [He Hhigh].
    destruct t as [|d t]; cbn [append strip_prefix] in H.
    + destruct (Ascii.eqb_spec e c) as [-> | _]; [congruence | discriminate].
    + destruct (Ascii.eqb_spec e d) as [-> | _]; [|discriminate].
      destruct (IH t c u r Hhigh Hc H) as (t' & -> & ->).
      now exists t'.
Qed.

(** After a text that ends in an ASCII character, [lstrip] stops at the
    latest where no blank starts. *)
Lemma lstrip_stops (n : nat) : forall t c u,
  String.length t <= n -> high c = false ->
  u <> EmptyString -> skip_space u = None ->
  lstrip ((t ++ String c EmptyString) ++ u) <> EmptyString.
Proof.
  induction n as [|n IH]; intros t c u Hn Hc Hu Hsolid.
  - destruct t; [|simpl in Hn; lia]. cbn [append].
    rewrite lstrip_eq.
    destruct (skip_space (String c u)) as [r|] eqn:E; [|discriminate].
    apply skip_space_Some in E as (cp & Hin & E).
    destruct (blank_shape cp Hin) as (e & enc & Ecp & _ & Hlead).
    rewrite Ecp in E. cbn [append] in E. injection E as <- E.
    rewrite (Hlead Hc) in E. cbn [append] in E. subst r.
    now rewrite (lstrip_solid _ Hsolid).
  - rewrite lstrip_eq.
    destruct (skip_space ((t ++ String c EmptyString) ++ u)) as [r|] eqn:E.
    + unfold skip_space in E. apply first_some_Some in E as (cp & Hin & E).
      destruct (blank_shape cp Hin) as (e & enc & Ecp & Hhigh & Hlead).
      rewrite Ecp in E.
      destruct t as [|d t].
      * cbn [append strip_prefix] in E.
        destruct (Ascii.eqb_spec e c) as [-> | _]; [|discriminate].
        rewrite (Hlead Hc) in E. injection E as <-.
        now rewrite (lstrip_solid _ Hsolid).
      * cbn [append strip_prefix] in E.
        destruct (Ascii.eqb_spec e d) as [-> | _]; [|discriminate].
        destruct (strip_high_Some enc t c u r Hhigh Hc E) as (t' & -> & ->).
        apply IH; try assumption.
        cbn [String.length] in Hn. rewrite length_append in Hn. lia.
    + destruct t; discriminate.
Qed.

(** [rstrip] keeps a text in front of [rest] when none of its ends,
    followed by [rest], is made of blanks only. *)
Lemma rstrip_keep (s rest : string) :
  (forall a b, s = (a ++ b)%string -> b <> EmptyString ->
               lstrip (b ++ rest) <> EmptyString) ->
  rstrip (s ++ rest) = (s ++ rstrip rest)%string.
Proof.
  induction s as [|c s IH]; intros H; [reflexivity|].
  cbn [append rstrip].
  pose proof (H EmptyString (String c s) eq_refl ltac:(discriminate)) as Hc.
  cbn [append] in Hc.
  destruct (lstrip (String c (s ++ rest))) as [|x y]; [contradiction|].
  f_equal. apply IH. intros a b -> Hb. apply (H (String c a) b eq_refl Hb).
Qed.

Lemma blank_free_app (a b : string) :
  blank_free (a ++ b) = true -> blank_free b = true.
Proof.
  induction a as [|c a IH]; [auto|]. cbn [append blank_free].
  destruct (skip_space (String c (a ++ b))); [discriminate | exact IH].
Qed.

Lemma blank_free_head (s : string) :
  blank_free s = true -> skip_space s = None.
Proof.
  destruct s as [|c s]; [reflexivity|]. cbn [blank_free].
  now destruct (skip_space (String c s)).
Qed.

(** A word without blanks, in front of ASCII. *)
Lemma lstrip_word (w rest : string) :
  w <> EmptyString -> blank_free w = true -> head_ascii rest ->
  lstrip (w ++ rest) = (w ++ rest)%string.
Proof.
  intros Hw Hfree Hrest. apply lstrip_solid, skip_space_app; auto.
  now apply blank_free_head.
Qed.

Lemma rstrip_word (w rest : string) :
  blank_free w = true -> head_ascii rest ->
  rstrip (w ++ rest) = (w ++ rstrip rest)%string.
Proof.
  intros Hfree Hrest. apply rstrip_keep. intros a b -> Hb.
  apply blank_free_app in Hfree.
  rewrite (lstrip_word b rest Hb Hfree Hrest). now destruct b.
Qed.

(** A text that ends in an ASCII character, in front of a text at whose
    start no blank stands. *)
Lemma rstrip_after_ascii (t : string) (c : ascii) (u : string) :
  high c = false -> u <> EmptyString -> skip_space u = None ->
  rstrip ((t ++ String c EmptyString) ++ u) =
  ((t ++ String c EmptyString) ++ rstrip u)%string.
Proof.
  intros Hc Hu Hsolid. apply rstrip_keep. intros a b E Hb.
  assert (Hsplit : exists b', b = (b' ++ String c EmptyString)%string).
  { clear Hsolid Hu. revert t b E Hb.
    induction a as [|x a IH]; intros t b E Hb; cbn [append] in E.
    - now exists t.
    - destruct t as [|y t]; cbn [append] in E.
      + injection E as <- E. destruct a; [|discriminate E].
        cbn [append] in E. now subst b.
      + injection E as <- E. now apply (IH t). }
  destruct Hsplit as (b' & ->).
  apply (lstrip_stops (String.length b') b' c u (Nat.le_refl _) Hc Hu Hsolid).
Qed.

Lemma strip_word (w : string) :
  w <> EmptyString -> blank_free w = true -> strip w = w.
Proof.
  intros Hw Hfree. unfold strip.
  rewrite (lstrip_solid w (blank_free_head w Hfree)).
  rewrite <- (ReFacts.append_nil_r w) at 1.
  rewrite (rstrip_word w EmptyString Hfree I). apply ReFacts.append_nil_r.
Qed.

(** No space in a word without blanks. *)
Lemma blank_free_no_space (s : string) :
  blank_free s = true ->
  forallb (fun c => negb (Ascii.eqb c " ")) (list_ascii_of_string s) = true.
Proof.
  induction s as [|c s IH]; [reflexivity|].
  cbn [blank_free list_ascii_of_string forallb].
  destruct (skip_space (String c s)) eqn:E; [discriminate|].
  intros H. rewrite (IH H), andb_true_r.
  destruct (Ascii.eqb_spec c " ") as [-> | _]; [|reflexivity].
  discriminate E.
Qed.

End TextFacts.

Module ManifestFacts.
Import PyStr Re PyText Setup TextFacts.

Lemma dict_set_In (k v : string) (d : dict) (kv : string * string) :
  In kv (dict_set k v d) -> kv = (k, v) \/ In kv d.
Proof.
  induction d as [|[k' v'] d IH]; simpl.
  - intros [<- | []]. now left.
  - destruct (String.eqb_spec k' k) as [-> | Hne]; simpl.
    + intros [<- | H]; auto.
    + intros [<- | H]; auto. destruct (IH H); auto.
Qed.

Lemma dict_lookup_In (k v : string) (d : dict) :
  dict_lookup k d = Some v -> In (k, v) d.
Proof.
  induction d as [|[k' v'] d IH]; simpl; [discriminate|].
  destruct (String.eqb_spec k' k) as [-> | Hne].
  - intros [= ->]. now left.
  - intros H. right. now apply IH.
Qed.

Lemma dict_lookup_set (k v : string) (d : dict) :
  dict_lookup k (dict_set k v d) = Some v.
Proof.
  induction d as [|[k' v'] d IH]; simpl.
  - now rewrite String.eqb_refl.
  - destruct (String.eqb_spec k' k) as [-> | Hne]; simpl.
    + now rewrite String.eqb_refl.
    + apply String.eqb_neq in Hne. now rewrite Hne.
Qed.

(** What one line does to the state: nothing, or, with the key it reads,
    one of three things. *)
Lemma manifest_step_cases (result : dict) (section line : string) :
  let st' := manifest_step (result, section) line in
  st' = (result, section) \/
  exists key,
    line_key line = Some key /\
    ((exists v, truthy v = true /\ st' = (dict_set key v result, key)) \/
     st' = (result, key) \/
     (exists v, truthy v = true /\ truthy section = true /\
                st' = (dict_set (section ++ "." ++ key) v result, section))).
Proof.
  cbv zeta. unfold manifest_step, line_key.
  destruct (negb (truthy (rstrip line)) || startswith (rstrip line) "#");
    [now left|].
  destruct (negb (contains ":" (strip (rstrip line)))); [now left|].
  destruct (partition ":" (strip (rstrip line))) as [[key sep] val].
  cbn [fst].
  match goal with
  | |- context [if truthy ?v then _ else _] => set (value := v)
  end.
  destruct (len line - len (lstrip line) =? 0).
  - right. exists (strip key). split; [reflexivity|].
    destruct (truthy value) eqn:Ev.
    + left. now exists value.
    + right. now left.
  - destruct (2 <=? len line - len (lstrip line)); [|now left].
    destruct (truthy section) eqn:Es; cbn [andb]; [|now left].
    destruct (truthy value) eqn:Ev; [|now left].
    right. exists (strip key). split; [reflexivity|].
    right. right. now exists value.
Qed.

Lemma dots_app (s t : string) : dots (s ++ t) = dots s + dots t.
Proof. unfold dots. now rewrite SetupFacts.list_ascii_app, count_occ_app. Qed.

Lemma dots_zero (s : string) : contains "." s = false -> dots s = 0.
Proof.
  intros H. unfold dots. apply count_occ_not_In. intros Hin.
  apply RuleFacts.contains_char in Hin. congruence.
Qed.

(** With dot-free keys, a stored key has at most one dot. *)
Lemma manifest_keys_one_dot (lines : list string) :
  Forall (fun line => forall key, line_key line = Some key ->
                                  contains "." key = false) lines ->
  forall (result : dict) (section : string),
  dots section = 0 ->
  Forall (fun kv => dots (fst kv) <= 1) result ->
  Forall (fun kv => dots (fst kv) <= 1)
         (fst (fold_left manifest_step lines (result, section))).
Proof.
  induction 1 as [|line lines Hline Hlines IH]; intros result section Hs Hr;
    [exact Hr|].
  cbn [fold_left].
  assert (Hset : forall k v, dots k <= 1 ->
            Forall (fun kv => dots (fst kv) <= 1) (dict_set k v result)).
  { intros k v Hk. apply Forall_forall. intros kv Hin.
    apply dict_set_In in Hin as [-> | Hin]; [exact Hk|].
    rewrite Forall_forall in Hr. now apply Hr. }
  pose proof (manifest_step_cases result section line) as Hstep.
  cbv zeta in Hstep.
  destruct Hstep as [-> | (key & Hkey & Hstep)]; [now apply IH|].
  apply Hline, dots_zero in Hkey.
  destruct Hstep as [(v & _ & ->) | [-> | (v & _ & _ & ->)]];
    apply IH; try assumption.
  - apply Hset. lia.
  - apply Hset. rewrite !dots_app. change (dots ".") with 1. simpl. lia.
Qed.

(** X11. In a manifest in which no line that the reader takes a key from has
    a dot in that key, no entry is stored under a key with two or more dots:
    nesting deeper than one level is flattened onto the top-level section.
    The framework, looked up as [stack.backend.framework], is therefore
    always reported as [generic].  Blank lines, comments and lines without a
    colon may hold anything. *)
Theorem nested_framework_never_read (lines : list string)
  (Hkeys : Forall (fun line => forall key, line_key line = Some key ->
                                           contains "." key = false) lines) :
  framework (parse_manifest lines) = "generic" /\
  forall a b c,
    dict_lookup (a ++ "." ++ b ++ "." ++ c) (parse_manifest lines) = None.
Proof.
  assert (Hone : Forall (fun kv => dots (fst kv) <= 1) (parse_manifest lines)).
  { apply manifest_keys_one_dot; [exact Hkeys | reflexivity | constructor]. }
  assert (Hnone : forall a b c,
    dict_lookup (a ++ "." ++ b ++ "." ++ c) (parse_manifest lines) = None).
  { intros a b c.
    destruct (dict_lookup (a ++ "." ++ b ++ "." ++ c) (parse_manifest lines))
      as [v|] eqn:E; [|reflexivity].
    apply dict_lookup_In in E. rewrite Forall_forall in Hone.
    specialize (Hone _ E). cbn [fst] in Hone.
    rewrite !dots_app in Hone. change (dots ".") with 1 in Hone. lia. }
  split; [|exact Hnone].
  unfold framework, dict_get.
  pose proof (Hnone "stack" "backend" "framework") as H. cbn [append] in H.
  now rewrite H.
Qed.

(** X12. No entry of the manifest is stored with an empty value: a key
    without a value opens a section or is dropped, so a lookup falls back to
    its default in that case. *)
Theorem manifest_values_not_empty (lines : list string) :
  Forall (fun kv => truthy (snd kv) = true) (parse_manifest lines) /\
  forall k default,
    dict_get (parse_manifest lines) k default = default \/
    truthy (dict_get (parse_manifest lines) k default) = true.
Proof.
  assert (Hall : forall (result : dict) (section : string),
            Forall (fun kv => truthy (snd kv) = true) result ->
            Forall (fun kv => truthy (snd kv) = true)
                   (fst (fold_left manifest_step lines (result, section)))).
  { induction lines as [|line lines IH]; intros result section Hr; [exact Hr|].
    cbn [fold_left].
    assert (Hset : forall k v, truthy v = true ->
              Forall (fun kv => truthy (snd kv) = true) (dict_set k v result)).
    { intros k v Hv. apply Forall_forall. intros kv Hin.
      apply dict_set_In in Hin as [-> | Hin]; [exact Hv|].
      rewrite Forall_forall in Hr. now apply Hr. }
    pose proof (manifest_step_cases result section line) as Hstep.
    cbv zeta in Hstep.
    destruct Hstep as [-> | (key & _ & [(v & Hv & ->)
                                       | [-> | (v & Hv & _ & ->)]])];
      apply IH; auto. }
  assert (H : Forall (fun kv => truthy (snd kv) = true) (parse_manifest lines))
    by (apply Hall; constructor).
  split; [exact H|].
  intros k default. unfold dict_get.
  destruct (dict_lookup k (parse_manifest lines)) as [v|] eqn:E; [|now left].
  right. apply dict_lookup_In in E. rewrite Forall_forall in H.
  exact (H _ E).
Qed.

(** *** Reading back a plain entry *)

Lemma rstrip_chars_none (chars x : string) :
  forallb (fun c => negb (one_of chars c)) (list_ascii_of_string x) = true ->
  rstrip_chars chars x = x.
Proof.
  induction x as [|c x IH]; cbn [list_ascii_of_string forallb rstrip_chars];
    [reflexivity|].
  rewrite andb_true_iff, negb_true_iff. intros [Hc Hx].
  rewrite (IH Hx). destruct x; [now rewrite Hc | reflexivity].
Qed.

Lemma strip_chars_none (chars x : string) :
  forallb (fun c => negb (one_of chars c)) (list_ascii_of_string x) = true ->
  strip_chars chars x = x.
Proof.
  intros H. unfold strip_chars.
  assert (lstrip_chars chars x = x) as ->.
  { destruct x as [|c x]; [reflexivity|]. cbn [list_ascii_of_string forallb] in H.
    apply andb_true_iff in H as [Hc _]. apply negb_true_iff in Hc.
    cbn [lstrip_chars]. now rewrite Hc. }
  now apply rstrip_chars_none.
Qed.

Lemma find_after (sep k r : string) (c : ascii) :
  sep = String c EmptyString ->
  forallb (fun a => negb (Ascii.eqb a c)) (list_ascii_of_string k) = true ->
  find sep (k ++ sep ++ r) = Some (String.length k).
Proof.
  intros -> H. induction k as [|a k IH]; cbn [append find String.length].
  - cbn [String.prefix]. destruct (ascii_dec c c); [|contradiction].
    now destruct r.
  - cbn [list_ascii_of_string forallb] in H.
    apply andb_true_iff in H as [Ha Hk]. apply negb_true_iff in Ha.
    cbn [String.prefix]. destruct (ascii_dec c a) as [-> | Hne].
    + rewrite Ascii.eqb_refl in Ha. discriminate.
    + specialize (IH Hk). cbn [append] in IH. now rewrite IH.
Qed.

Lemma substring_all (s : string) : substring 0 (String.length s) s = s.
Proof. induction s; simpl; congruence. Qed.

Lemma take_app (k r : string) : take (String.length k) (k ++ r) = k.
Proof. unfold take. induction k; simpl; [now destruct r | congruence]. Qed.

Lemma drop_app (k r : string) : drop (String.length k) (k ++ r) = r.
Proof.
  unfold drop. rewrite TextFacts.length_append.
  replace (String.length k + String.length r - String.length k)
    with (String.length r) by lia.
  induction k; simpl; [apply substring_all | assumption].
Qed.

Lemma partition_colon (k r : string) :
  forallb (fun a => negb (Ascii.eqb a ":")) (list_ascii_of_string k) = true ->
  partition ":" (k ++ ":" ++ r) = (k, ":"%string, r).
Proof.
  intros H. unfold partition.
  rewrite (find_after ":" k r ":"%char eq_refl H).
  rewrite take_app. do 2 f_equal.
  change (k ++ ":" ++ r)%string with (k ++ String ":" r)%string.
  replace (String.length k + String.length ":")
    with (String.length (k ++ ":")) by (rewrite TextFacts.length_append; reflexivity).
  replace (k ++ String ":" r)%string with ((k ++ ":") ++ r)%string
    by (rewrite SetupFacts.append_assoc'; reflexivity).
  apply drop_app.
Qed.

Lemma forallb_weaken (A : Type) (p q : A -> bool) (l : list A) :
  (forall x, p x = true -> q x = true) ->
  forallb p l = true -> forallb q l = true.
Proof.
  intros Hpq. rewrite !forallb_forall. intros H x Hx. apply Hpq, H, Hx.
Qed.

Lemma plain_char_facts (c : ascii) :
  plain_char c = true ->
  Ascii.eqb c ":" = false /\ Ascii.eqb c "#" = false /\
  one_of "'" c = false /\ one_of (String Review.dquote EmptyString) c = false.
Proof.
  unfold plain_char, one_of. cbn [list_ascii_of_string existsb].
  rewrite !andb_true_iff, !negb_true_iff, !orb_false_iff.
  intros ((Hc & Hh & Hq & _) & Hd).
  repeat split; rewrite ?orb_false_r; auto.
Qed.

Lemma plain_inv (s : string) :
  plain s = true ->
  (exists c s', s = String c s' /\ plain_char c = true) /\
  blank_free s = true /\
  forallb plain_char (list_ascii_of_string s) = true.
Proof.
  unfold plain. rewrite !andb_true_iff. intros [[Ht Hb] Hf].
  split; [|split; assumption].
  destruct s as [|c s']; [discriminate|].
  exists c, s'. split; [reflexivity|].
  cbn [list_ascii_of_string forallb] in Hf. now apply andb_true_iff in Hf.
Qed.

Lemma plain_word (s : string) :
  plain s = true -> s <> EmptyString /\ blank_free s = true.
Proof.
  intros H. apply plain_inv in H as ((c & s' & -> & _) & Hb & _).
  split; [discriminate | exact Hb].
Qed.

Lemma plain_nocolon (s : string) :
  plain s = true ->
  forallb (fun c => negb (Ascii.eqb c ":")) (list_ascii_of_string s) = true.
Proof.
  intros H. apply plain_inv in H as (_ & _ & H).
  eapply forallb_weaken; [|exact H]. intros c Hc.
  apply plain_char_facts in Hc as (-> & _). reflexivity.
Qed.

Lemma plain_no_inline_comment (s : string) :
  plain s = true -> contains "  #" s = false.
Proof.
  intros H. destruct (contains "  #" s) eqn:E; [|reflexivity].
  apply RuleClaims.contains_app in E as (pre & post & ->).
  apply plain_word in H as [_ H]. apply blank_free_no_space in H.
  rewrite SetupFacts.list_ascii_app, forallb_app in H.
  apply andb_true_iff in H as [_ H]. discriminate H.
Qed.

Lemma plain_unquoted (s : string) :
  plain s = true ->
  strip_chars "'" (strip_chars (String Review.dquote EmptyString) s) = s.
Proof.
  intros H. apply plain_inv in H as (_ & _ & H).
  rewrite (strip_chars_none (String Review.dquote EmptyString) s).
  - apply strip_chars_none. eapply forallb_weaken; [|exact H]. intros c Hc.
    apply plain_char_facts in Hc as (_ & _ & -> & _). reflexivity.
  - eapply forallb_weaken; [|exact H]. intros c Hc.
    apply plain_char_facts in Hc as (_ & _ & _ & ->). reflexivity.
Qed.

#[local] Abbreviation nl := (String newline EmptyString).

Lemma plain_head (s t : string) :
  plain s = true ->
  exists c rest, (s ++ t)%string = String c rest /\ plain_char c = true.
Proof.
  intros H. apply plain_inv in H as [(c & s' & -> & Hc) _].
  now exists c, (s' ++ t)%string.
Qed.

Lemma strip_plain (s : string) : plain s = true -> strip s = s.
Proof. intros H. apply plain_word in H as [Hne Hb]. now apply strip_word. Qed.

Lemma lstrip_space (s : string) : lstrip (String " " s) = lstrip s.
Proof. now rewrite lstrip_eq. Qed.

(** A line [section:] opens the section and stores nothing. *)
Lemma step_section_line (result : dict) (current section : string) :
  plain section = true ->
  manifest_step (result, current) (section ++ ":" ++ nl) = (result, section).
Proof.
  intros Hp. unfold manifest_step.
  destruct (plain_word section Hp) as [Hne Hb].
  assert (E1 : rstrip (section ++ ":" ++ nl) = (section ++ ":")%string)
    by (now rewrite (rstrip_word section (":" ++ nl) Hb eq_refl)).
  destruct (plain_head section ":" Hp) as (c' & rest' & Eh' & Hc').
  apply plain_char_facts in Hc' as (_ & Hh' & _).
  assert (E2 : lstrip (section ++ ":" ++ nl) = (section ++ ":" ++ nl)%string)
    by (now apply lstrip_word).
  rewrite E1, E2, Nat.sub_diag.
  assert (E3 : truthy (section ++ ":") = true) by now rewrite Eh'.
  assert (E4 : startswith (section ++ ":") "#" = false).
  { rewrite Eh'. unfold startswith. cbn [String.prefix].
    destruct (ascii_dec "#" c') as [<- | _]; [|reflexivity].
    discriminate Hh'. }
  rewrite E3, E4. cbn [negb orb].
  assert (E5 : strip (section ++ ":") = (section ++ ":")%string).
  { unfold strip. rewrite (lstrip_word section ":" Hne Hb eq_refl).
    now rewrite (rstrip_word section ":" Hb eq_refl). }
  rewrite E5.
  assert (E6 : contains ":" (section ++ ":") = true)
    by (apply RuleClaims.contains_app; now exists section, EmptyString).
  rewrite E6. cbn [negb].
  change (section ++ ":")%string with (section ++ ":" ++ EmptyString)%string.
  rewrite (partition_colon section EmptyString (plain_nocolon section Hp)).
  rewrite (strip_plain section Hp).
  reflexivity.
Qed.

(** The end of a line: a plain word after a text that ends in an ASCII
    character. *)
Lemma rstrip_value_line (prefix : string) (c : ascii) (value : string) :
  high c = false -> plain value = true ->
  rstrip ((prefix ++ String c EmptyString) ++ value ++ nl) =
    ((prefix ++ String c EmptyString) ++ value)%string /\
  rstrip ((prefix ++ String c EmptyString) ++ value) =
    ((prefix ++ String c EmptyString) ++ value)%string.
Proof.
  intros Hc Hv. destruct (plain_word value Hv) as [Hne Hb].
  assert (Hr : rstrip value = value).
  { rewrite <- (ReFacts.append_nil_r value) at 1.
    rewrite (rstrip_word value EmptyString Hb I). apply ReFacts.append_nil_r. }
  assert (Hrv : rstrip (value ++ nl) = value).
  { rewrite (rstrip_word value nl Hb eq_refl). apply ReFacts.append_nil_r. }
  split.
  - rewrite rstrip_after_ascii; [now rewrite Hrv | exact Hc | |].
    + destruct value; [contradiction | discriminate].
    + apply skip_space_app; [exact Hne | reflexivity |].
      now apply blank_free_head.
  - rewrite rstrip_after_ascii; [now rewrite Hr | exact Hc | exact Hne |].
    now apply blank_free_head.
Qed.

Lemma lstrip_indented (key rest : string) :
  plain key = true -> head_ascii rest ->
  lstrip ("  " ++ key ++ rest) = (key ++ rest)%string /\
  lstrip (" " ++ key ++ rest) = (key ++ rest)%string /\
  lstrip (key ++ rest) = (key ++ rest)%string.
Proof.
  intros Hk Hrest. destruct (plain_word key Hk) as [Hne Hb].
  assert (H : lstrip (key ++ rest) = (key ++ rest)%string)
    by now apply lstrip_word.
  cbn [append]. rewrite !lstrip_space. auto.
Qed.

(** A line [  key: value] below a section stores [section.key]. *)
Lemma step_entry_line (result : dict) (section key value : string) :
  plain section = true -> plain key = true -> plain value = true ->
  manifest_step (result, section) ("  " ++ key ++ ": " ++ value ++ nl) =
  (dict_set (section ++ "." ++ key) value result, section).
Proof.
  intros Hs Hk Hv. unfold manifest_step.
  destruct (plain_inv value Hv) as [(cv & v' & Ev & _) _].
  destruct (plain_inv section Hs) as [(cs & s' & Es & _) _].
  assert (Htv : truthy value = true) by now rewrite Ev.
  assert (Hts : truthy section = true) by now rewrite Es.
  (* the line without its end, and its indentation *)
  assert (E1 : rstrip ("  " ++ key ++ ": " ++ value ++ nl) =
               ("  " ++ key ++ ": " ++ value)%string).
  { replace ("  " ++ key ++ ": " ++ value ++ nl)%string
      with ((("  " ++ key ++ ":") ++ " ") ++ value ++ nl)%string
      by (rewrite !SetupFacts.append_assoc'; reflexivity).
    rewrite (proj1 (rstrip_value_line _ " " value eq_refl Hv)).
    rewrite !SetupFacts.append_assoc'. reflexivity. }
  assert (E2 : lstrip ("  " ++ key ++ ": " ++ value ++ nl) =
               (key ++ ": " ++ value ++ nl)%string)
    by apply (lstrip_indented key (": " ++ value ++ nl) Hk eq_refl).
  rewrite E1, E2.
  replace (len ("  " ++ key ++ ": " ++ value ++ nl)
           - len (key ++ ": " ++ value ++ nl)) with 2
    by (change (len ("  " ++ key ++ ": " ++ value ++ nl))
          with (S (S (len (key ++ ": " ++ value ++ nl)))); lia).
  assert (E3 : truthy ("  " ++ key ++ ": " ++ value) = true) by reflexivity.
  assert (E4 : startswith ("  " ++ key ++ ": " ++ value) "#" = false)
    by reflexivity.
  rewrite E3, E4. cbn [negb orb].
  assert (E5 : strip ("  " ++ key ++ ": " ++ value) =
               (key ++ ": " ++ value)%string).
  { unfold strip.
    rewrite (proj1 (lstrip_indented key (": " ++ value) Hk eq_refl)).
    replace (key ++ ": " ++ value)%string
      with (((key ++ ":") ++ " ") ++ value)%string
      by (rewrite !SetupFacts.append_assoc'; reflexivity).
    apply (rstrip_value_line (key ++ ":") " " value eq_refl Hv). }
  rewrite E5.
  assert (E6 : contains ":" (key ++ ": " ++ value) = true)
    by (apply RuleClaims.contains_app; now exists key, (" " ++ value)%string).
  rewrite E6. cbn [negb].
  change (key ++ ": " ++ value)%string
    with (key ++ ":" ++ (" " ++ value))%string.
  rewrite (partition_colon key (" " ++ value) (plain_nocolon key Hk)).
  rewrite (strip_plain key Hk).
  assert (E7 : strip (" " ++ value) = value).
  { unfold strip. cbn [append]. rewrite lstrip_space.
    apply (strip_plain value Hv). }
  rewrite E7, (plain_unquoted value Hv), (plain_no_inline_comment value Hv).
  rewrite Hts, Htv. reflexivity.
Qed.

(** X13. A plain two-level entry is read back: after any lines, the lines
    [section:] and [  key: value] make the lookup of [section.key] return
    [value], whatever default is given. *)
Theorem manifest_reads_plain_entry
  (before : list string) (section key value default : string)
  (Hsection : plain section = true) (Hkey : plain key = true)
  (Hvalue : plain value = true) :
  dict_get
    (parse_manifest
       (before ++ [ (section ++ ":" ++ nl)%string;
                    ("  " ++ key ++ ": " ++ value ++ nl)%string ]))
    (section ++ "." ++ key) default = value.
Proof.
  unfold parse_manifest. rewrite fold_left_app. cbn [fold_left].
  destruct (fold_left manifest_step before ([], EmptyString))
    as [result current].
  rewrite (step_section_line result current section Hsection).
  rewrite (step_entry_line result section key value Hsection Hkey Hvalue).
  cbn [fst]. unfold dict_get. now rewrite dict_lookup_set.
Qed.

(** The sample manifest: its first line is a comment with a dot in it, and
    the framework sits on the third level. *)
Lemma nested_framework_never_read_witness :
  framework (parse_manifest Samples.nested_manifest) = "generic" /\
  dict_lookup "stack.framework" (parse_manifest Samples.nested_manifest) =
    Some "django"%string.
Proof.
  split.
  - apply (nested_framework_never_read Samples.nested_manifest).
    apply Forall_forall. intros line Hin. vm_compute in Hin.
    repeat (destruct Hin as [<- | Hin];
            [intros key Hkey; vm_compute in Hkey;
             first [discriminate Hkey
                   | injection Hkey as <-; vm_compute; reflexivity]|]).
    destruct Hin.
  - vm_compute. reflexivity.
Defined.

Lemma manifest_reads_plain_entry_witness :
  dict_get
    (parse_manifest
       [ "project: Shop  # the name"%string;
         ("paths" ++ ":" ++ nl)%string;
         ("  " ++ "backend" ++ ": " ++ "apps/api" ++ nl)%string ])
    "paths.backend" "." = "apps/api"%string.
Proof.
  exact (manifest_reads_plain_entry ["project: Shop  # the name"%string]
           "paths" "backend" "apps/api" "." eq_refl eq_refl eq_refl).
Defined.

(** *** A quoted value followed by a comment *)

Lemma rstrip_chars_app (chars x y : string) :
  rstrip_chars chars (x ++ y) =
  if truthy (rstrip_chars chars y)
  then (x ++ rstrip_chars chars y)%string else rstrip_chars chars x.
Proof.
  induction x as [|c x IH]; cbn [append rstrip_chars].
  - now destruct (rstrip_chars chars y).
  - rewrite IH. destruct (rstrip_chars chars y) eqn:Ey; cbn [truthy];
      [reflexivity|].
    now destruct x.
Qed.

Lemma find_inline_comment (x r : string) :
  forallb (fun c => negb (Ascii.eqb c " ")) (list_ascii_of_string x) = true ->
  find "  #" (x ++ "  #" ++ r) = Some (String.length x).
Proof.
  intros H. induction x as [|c x IH]; cbn [append String.length].
  - cbn. now destruct r.
  - cbn [list_ascii_of_string forallb] in H.
    apply andb_true_iff in H as [Hc Hx]. apply negb_true_iff in Hc.
    cbn [find String.prefix].
    destruct (ascii_dec " " c) as [<- | _]; [discriminate Hc|].
    specialize (IH Hx). cbn [append] in IH. now rewrite IH.
Qed.

Lemma plain_not_quote_chars (chars s : string) :
  chars = "'"%string \/ chars = String Review.dquote EmptyString ->
  plain s = true ->
  forallb (fun c => negb (one_of chars c)) (list_ascii_of_string s) = true.
Proof.
  intros Hchars H. apply plain_inv in H as (_ & _ & H).
  eapply forallb_weaken; [|exact H]. intros c Hc.
  apply plain_char_facts in Hc as (_ & _ & Hq & Hd).
  destruct Hchars as [-> | ->]; [now rewrite Hq | now rewrite Hd].
Qed.

Lemma rstrip_chars_keep (chars prefix word : string) :
  chars = "'"%string \/ chars = String Review.dquote EmptyString ->
  plain word = true ->
  rstrip_chars chars (prefix ++ word) = (prefix ++ word)%string.
Proof.
  intros Hchars Hw. rewrite rstrip_chars_app.
  rewrite (rstrip_chars_none chars word (plain_not_quote_chars _ _ Hchars Hw)).
  destruct (plain_inv word Hw) as [(c & w & -> & _) _]. reflexivity.
Qed.

(** The value the reader keeps from ['value'  # note]. *)
Lemma quoted_commented_value (value note : string) :
  plain value = true -> plain note = true ->
  let raw := (" '" ++ value ++ "'  # " ++ note)%string in
  let val :=
    strip_chars "'" (strip_chars (String Review.dquote EmptyString)
                                 (strip raw)) in
  val = (value ++ "'  # " ++ note)%string /\
  contains "  #" val = true /\
  strip (take (match find "  #" val with Some i => i | None => 0 end) val) =
    (value ++ "'")%string.
Proof.
  intros Hv Hn. cbv zeta.
  destruct (plain_word value Hv) as [Hvne Hvb].
  assert (E1 : strip (" '" ++ value ++ "'  # " ++ note) =
               ("'" ++ value ++ "'  # " ++ note)%string).
  { unfold strip.
    assert (A : forall t, lstrip (" '" ++ t) = ("'" ++ t)%string)
      by (intros t; cbn [append]; rewrite lstrip_space;
          now apply lstrip_solid).
    rewrite (A (value ++ "'  # " ++ note)%string).
    replace ("'" ++ value ++ "'  # " ++ note)%string
      with ((("'" ++ value ++ "'  #") ++ " ") ++ note)%string
      by (rewrite !SetupFacts.append_assoc'; reflexivity).
    apply (rstrip_value_line _ " " note eq_refl Hn). }
  rewrite E1.
  assert (E2 : strip_chars (String Review.dquote EmptyString)
                 ("'" ++ value ++ "'  # " ++ note) =
               ("'" ++ value ++ "'  # " ++ note)%string).
  { unfold strip_chars.
    assert (A : forall t,
               lstrip_chars (String Review.dquote EmptyString) ("'" ++ t) =
               ("'" ++ t)%string) by reflexivity.
    rewrite (A (value ++ "'  # " ++ note)%string).
    replace ("'" ++ value ++ "'  # " ++ note)%string
      with (("'" ++ value ++ "'  # ") ++ note)%string
      by (rewrite !SetupFacts.append_assoc'; reflexivity).
    apply rstrip_chars_keep; auto. }
  rewrite E2.
  assert (E3 : strip_chars "'" ("'" ++ value ++ "'  # " ++ note) =
               (value ++ "'  # " ++ note)%string).
  { unfold strip_chars.
    assert (A : forall t,
               lstrip_chars "'" ("'" ++ t) = lstrip_chars "'" t)
      by reflexivity.
    rewrite (A (value ++ "'  # " ++ note)%string).
    destruct (plain_head value ("'  # " ++ note) Hv) as (c & r & Eh & Hc).
    apply plain_char_facts in Hc as (_ & _ & Hq & _).
    rewrite Eh. cbn [lstrip_chars]. rewrite Hq. rewrite <- Eh.
    replace (value ++ "'  # " ++ note)%string
      with ((value ++ "'  # ") ++ note)%string
      by (rewrite !SetupFacts.append_assoc'; reflexivity).
    apply rstrip_chars_keep; auto. }
  rewrite E3. split; [reflexivity|].
  assert (Hx : forallb (fun c => negb (Ascii.eqb c " "))
                 (list_ascii_of_string (value ++ "'")) = true)
    by (rewrite SetupFacts.list_ascii_app, forallb_app,
          (blank_free_no_space value Hvb); reflexivity).
  assert (E4 : (value ++ "'  # " ++ note)%string =
               ((value ++ "'") ++ "  #" ++ (" " ++ note))%string)
    by (rewrite !SetupFacts.append_assoc'; reflexivity).
  split.
  - apply RuleClaims.contains_app.
    exists (value ++ "'")%string, (" " ++ note)%string. exact E4.
  - rewrite E4 at 1 2. rewrite (find_inline_comment _ _ Hx).
    rewrite take_app. unfold strip.
    rewrite (lstrip_word value "'" Hvne Hvb eq_refl).
    now rewrite (rstrip_word value "'" Hvb eq_refl).
Qed.

(** X14. When a value is written in quotes and followed by an inline
    comment, the reader removes the comment and the opening quote but keeps
    the closing quote: [key: 'value'  # note] stores the value with a
    trailing quote. *)
Theorem quoted_value_with_comment_keeps_quote
  (before : list string) (section key value note default : string)
  (Hsection : plain section = true) (Hkey : plain key = true)
  (Hvalue : plain value = true) (Hnote : plain note = true) :
  dict_get
    (parse_manifest
       (before ++ [ (section ++ ":" ++ nl)%string;
                    ("  " ++ key ++ ": '" ++ value ++ "'  # " ++ note ++ nl)
                      %string ]))
    (section ++ "." ++ key) default = (value ++ "'")%string.
Proof.
  unfold parse_manifest. rewrite fold_left_app. cbn [fold_left].
  destruct (fold_left manifest_step before ([], EmptyString))
    as [result current].
  rewrite (step_section_line result current section Hsection).
  assert (Hstep :
    manifest_step (result, section)
      ("  " ++ key ++ ": '" ++ value ++ "'  # " ++ note ++ nl) =
    (dict_set (section ++ "." ++ key) (value ++ "'") result, section)).
  { unfold manifest_step.
    destruct (plain_inv section Hsection) as [(cs & s' & Es & _) _].
    assert (Hts : truthy section = true) by now rewrite Es.
    assert (E1 : rstrip ("  " ++ key ++ ": '" ++ value ++ "'  # " ++ note ++ nl)
                 = ("  " ++ key ++ ": '" ++ value ++ "'  # " ++ note)%string).
    { replace ("  " ++ key ++ ": '" ++ value ++ "'  # " ++ note ++ nl)%string
        with ((("  " ++ key ++ ": '" ++ value ++ "'  #") ++ " ")
              ++ note ++ nl)%string
        by (rewrite !SetupFacts.append_assoc'; reflexivity).
      rewrite (proj1 (rstrip_value_line _ " " note eq_refl Hnote)).
      rewrite !SetupFacts.append_assoc'. reflexivity. }
    assert (E2 : lstrip ("  " ++ key ++ ": '" ++ value ++ "'  # " ++ note ++ nl)
                 = (key ++ ": '" ++ value ++ "'  # " ++ note ++ nl)%string)
      by apply (lstrip_indented key
                  (": '" ++ value ++ "'  # " ++ note ++ nl) Hkey eq_refl).
    rewrite E1, E2.
    replace (len ("  " ++ key ++ ": '" ++ value ++ "'  # " ++ note ++ nl)
             - len (key ++ ": '" ++ value ++ "'  # " ++ note ++ nl)) with 2
      by (change (len ("  " ++ key ++ ": '" ++ value ++ "'  # " ++ note
                       ++ nl))
            with (S (S (len (key ++ ": '" ++ value ++ "'  # " ++ note
                             ++ nl)))); lia).
    assert (E3 : truthy ("  " ++ key ++ ": '" ++ value ++ "'  # " ++ note)
                 = true) by reflexivity.
    assert (E4 : startswith
                   ("  " ++ key ++ ": '" ++ value ++ "'  # " ++ note) "#"
                 = false) by reflexivity.
    rewrite E3, E4. cbn [negb orb].
    assert (E5 : strip ("  " ++ key ++ ": '" ++ value ++ "'  # " ++ note) =
                 (key ++ ": '" ++ value ++ "'  # " ++ note)%string).
    { unfold strip.
      rewrite (proj1 (lstrip_indented key (": '" ++ value ++ "'  # " ++ note)
                        Hkey eq_refl)).
      replace (key ++ ": '" ++ value ++ "'  # " ++ note)%string
        with (((key ++ ": '" ++ value ++ "'  #") ++ " ") ++ note)%string
        by (rewrite !SetupFacts.append_assoc'; reflexivity).
      apply (rstrip_value_line _ " " note eq_refl Hnote). }
    rewrite E5.
    assert (E6 : contains ":" (key ++ ": '" ++ value ++ "'  # " ++ note)
                 = true)
      by (apply RuleClaims.contains_app;
          now exists key, (" '" ++ value ++ "'  # " ++ note)%string).
    rewrite E6. cbn [negb].
    change (key ++ ": '" ++ value ++ "'  # " ++ note)%string
      with (key ++ ":" ++ (" '" ++ value ++ "'  # " ++ note))%string.
    rewrite (partition_colon key _ (plain_nocolon key Hkey)).
    rewrite (strip_plain key Hkey).
    destruct (quoted_commented_value value note Hvalue Hnote)
      as (Eval & Ec & Et).
    cbv zeta in Eval, Ec, Et. rewrite Ec, Et.
    destruct (plain_head value "'" Hvalue) as (c & r & Eh & _).
    replace (truthy (value ++ "'")) with true by now rewrite Eh.
    rewrite Hts. reflexivity. }
  rewrite Hstep. cbn [fst]. unfold dict_get. now rewrite dict_lookup_set.
Qed.

Lemma quoted_value_with_comment_keeps_quote_witness :
  dict_get
    (parse_manifest
       [ ("project" ++ ":" ++ nl)%string;
         ("  " ++ "name" ++ ": '" ++ "Shop" ++ "'  # " ++ "label" ++ nl)
           %string ])
    "project.name" "Python Project" = "Shop'"%string.
Proof.
  exact (quoted_value_with_comment_keeps_quote [] "project" "name" "Shop"
           "label" "Python Project" eq_refl eq_refl eq_refl eq_refl).
Defined.

End ManifestFacts.
